(** * Muelsyse-CI control plane: a shallow embedding and its properties

    The development follows the Python sources of the control plane
    (apps/pipelines, apps/webhooks, apps/executions, apps/runners, apps/logs).
    Every definition names the source function it embeds.  Python strings are
    modelled by [string] (characters are [ascii] codes 0..255), dictionaries
    whose order is irrelevant by [gmap], ordered dictionaries and lists by
    lists, exceptions and unmodelled library behaviour by explicit result
    types. *)

From Stdlib Require Import Ascii String ZArith Lia.
From Stdlib.Strings Require Import Byte.
From stdpp Require Import base option list gmap strings pretty sorting.

Local Open Scope string_scope.

(** ** Python string primitives *)

Module PyStr.

(** [s.startswith(p)] *)
Fixpoint startswith (p s : string) : bool :=
  match p, s with
  | EmptyString, _ => true
  | String a p', String b s' => Ascii.eqb a b && startswith p' s'
  | String _ _, EmptyString => false
  end.

(** [s[n:]] *)
Fixpoint drop (n : nat) (s : string) : string :=
  match n, s with
  | O, _ => s
  | S n', String _ s' => drop n' s'
  | S _, EmptyString => EmptyString
  end.

(** [sub in s] *)
Fixpoint contains (sub s : string) : bool :=
  startswith sub s ||
  match s with
  | EmptyString => false
  | String _ s' => contains sub s'
  end.

(** [s.replace(old, new)] for a non-empty [old]: occurrences are replaced
    from left to right and do not overlap.  [skip] counts the characters of
    an occurrence that was just replaced and that are still ahead. *)
Fixpoint replace_from (old new : string) (skip : nat) (s : string) : string :=
  match s with
  | EmptyString => EmptyString
  | String c s' =>
      match skip with
      | S k => replace_from old new k s'
      | O =>
          if startswith old s
          then new ++ replace_from old new (String.length old - 1) s'
          else String c (replace_from old new 0 s')
      end
  end.

Definition replace (old new s : string) : string := replace_from old new 0 s.

(** [not s] on a string: the empty string is falsy. *)
Definition falsy (s : string) : bool :=
  match s with EmptyString => true | _ => false end.

(** [str.isascii()] *)
Fixpoint isascii (s : string) : bool :=
  match s with
  | EmptyString => true
  | String c s' => (N_of_ascii c <? 128)%N && isascii s'
  end.

End PyStr.

(** ** The fragment of Python's [re] that the sources generate

    The sources build regular expressions as strings and hand them to
    [re.match].  [re_compile] reads such a string; it answers [None] for
    syntax outside the fragment below, so that the model never guesses what
    the regex library would do there.  Inside the fragment no [re.error] is
    possible. *)

Module PyRe.

(** One-character matchers: [.] under DOTALL, [.], [[^/]], a literal. *)
Inductive charset :=
| AnyChar
| NotNewline
| NotSlash
| Lit (c : ascii).

Definition newline : ascii := "010"%char.

Definition in_charset (k : charset) (c : ascii) : bool :=
  match k with
  | AnyChar => true
  | NotNewline => negb (Ascii.eqb c newline)
  | NotSlash => negb (Ascii.eqb c "/")
  | Lit a => Ascii.eqb a c
  end.

Inductive item :=
| One (k : charset)
| Many (k : charset).

(** How a pattern ends: nothing, [$], or [\Z]. *)
Inductive ending := NoEnd | Dollar | EndZ.

Definition at_end (e : ending) (s : string) : bool :=
  match e with
  | NoEnd => true
  | EndZ => PyStr.falsy s
  | Dollar =>
      match s with
      | EmptyString => true
      | String c EmptyString => Ascii.eqb c newline
      | _ => false
      end
  end.

(** Does some prefix of [s] match the items, with [e] holding after it?
    A backtracking matcher answers yes exactly when a match exists, so the
    greedy order of Python's engine does not show in the boolean result. *)
Fixpoint re_run (e : ending) (r : list item) (s : string) {struct r} : bool :=
  match r with
  | [] => at_end e s
  | One k :: r' =>
      match s with
      | String c s' => in_charset k c && re_run e r' s'
      | EmptyString => false
      end
  | Many k :: r' =>
      (fix many (s : string) : bool :=
         re_run e r' s ||
         match s with
         | String c s' => in_charset k c && many s'
         | EmptyString => false
         end) s
  end.

(** The same as a relation: the items consume a prefix of the input and
    leave [rest]. *)
Inductive consumes : list item → string → string → Prop :=
| consumes_nil s : consumes [] s s
| consumes_one k c r s rest :
    in_charset k c = true → consumes r s rest →
    consumes (One k :: r) (String c s) rest
| consumes_many_stop k r s rest :
    consumes r s rest → consumes (Many k :: r) s rest
| consumes_many_step k c r s rest :
    in_charset k c = true → consumes (Many k :: r) s rest →
    consumes (Many k :: r) (String c s) rest.

Inductive token :=
| TAtom (k : charset)
| TStar
| TCaret
| TDollar.

Definition ascii_alnum (c : ascii) : bool :=
  let n := N_of_ascii c in
  ((48 <=? n) && (n <=? 57) || (65 <=? n) && (n <=? 90) || (97 <=? n) && (n <=? 122))%N.

(** Characters with a meaning of their own that the fragment leaves out. *)
Definition unmodelled_meta (c : ascii) : bool :=
  existsb (Ascii.eqb c) ["+"; "?"; "{"; "}"; "("; ")"; "|"; "["; "]"]%char.

(** A backslash before a character that is no ASCII letter or digit makes it
    a literal; [.] is any character but a newline; [[^/]] is the only class. *)
Fixpoint re_lex (s : string) : option (list token) :=
  match s with
  | EmptyString => Some []
  | String "\" (String c rest) =>
      if ascii_alnum c then None else cons (TAtom (Lit c)) <$> re_lex rest
  | String "\" EmptyString => None
  | String "[" (String "^" (String "/" (String "]" rest))) =>
      cons (TAtom NotSlash) <$> re_lex rest
  | String "." rest => cons (TAtom NotNewline) <$> re_lex rest
  | String "*" rest => cons TStar <$> re_lex rest
  | String "^" rest => cons TCaret <$> re_lex rest
  | String "$" rest => cons TDollar <$> re_lex rest
  | String c rest =>
      if unmodelled_meta c then None else cons (TAtom (Lit c)) <$> re_lex rest
  end.

(** Items and ending of a token list: [*] binds to the atom before it, [$] is
    read only as the last token. *)
Fixpoint re_items (ts : list token) : option (list item * ending) :=
  match ts with
  | [] => Some ([], NoEnd)
  | [TDollar] => Some ([], Dollar)
  | TAtom k :: TStar :: TStar :: _ => None
  | TAtom k :: TStar :: rest =>
      '(r, e) ← re_items rest; Some (Many k :: r, e)
  | TAtom k :: rest =>
      '(r, e) ← re_items rest; Some (One k :: r, e)
  | _ => None
  end.

(** [re.compile(s)]; a leading [^] is redundant under [re.match]. *)
Definition re_compile (s : string) : option (list item * ending) :=
  ts ← re_lex s;
  match ts with
  | TCaret :: ts' => re_items ts'
  | _ => re_items ts
  end.

(** [bool(re.match(regex, value))] *)
Definition re_match (regex value : string) : option bool :=
  '(r, e) ← re_compile regex; Some (re_run e r value).

(** [fnmatch.fnmatch(name, pat)] on a POSIX host (no case folding): [*]
    matches everything, [?] one character, all under DOTALL and anchored at
    both ends.  Bracket classes are outside the model. *)
Fixpoint fnmatch_items (pat : string) : option (list item) :=
  match pat with
  | EmptyString => Some []
  | String c rest =>
      if Ascii.eqb c "[" then None
      else
        cons (if Ascii.eqb c "*" then Many AnyChar
              else if Ascii.eqb c "?" then One AnyChar
              else One (Lit c)) <$> fnmatch_items rest
  end.

Definition fnmatch (name pat : string) : option bool :=
  r ← fnmatch_items pat; Some (re_run EndZ r name).

(** [re.escape(s)]: the characters below get a backslash. *)
Definition special (c : ascii) : bool :=
  existsb (Ascii.eqb c)
    (["("; ")"; "["; "]"; "{"; "}"; "?"; "*"; "+"; "-"; "|"; "^"; "$"; "\";
      "."; "&"; "~"; "#"; " "; "009"; "010"; "013"; "011"; "012"]%char).

Fixpoint re_escape (s : string) : string :=
  match s with
  | EmptyString => EmptyString
  | String c s' =>
      if special c then String "\" (String c (re_escape s'))
      else String c (re_escape s')
  end.

End PyRe.

(** ** Webhook events (apps/webhooks/parsers.py) *)

Module Events.

Record GitHubCommit := {
  commit_id : string;
  commit_message : string;
  author_name : string;
  added : list string;
  removed : list string;
  modified : list string;
}.

Record PushEvent := {
  ref : string;
  before : string;
  after : string;
  created : bool;
  deleted : bool;
  forced : bool;
  compare_url : string;
  commits : list GitHubCommit;
  head_commit : option GitHubCommit;
  repository_full_name : string;
  sender_login : string;
}.

(** [PushEvent.branch] *)
Definition branch (e : PushEvent) : string :=
  if PyStr.startswith "refs/heads/" (ref e)
  then PyStr.drop (String.length "refs/heads/") (ref e)
  else ref e.

(** [PushEvent.tag] *)
Definition tag (e : PushEvent) : option string :=
  if PyStr.startswith "refs/tags/" (ref e)
  then Some (PyStr.drop (String.length "refs/tags/") (ref e))
  else None.

(** [PushEvent.is_tag] *)
Definition is_tag (e : PushEvent) : bool := PyStr.startswith "refs/tags/" (ref e).

(** [PushEvent.is_branch] *)
Definition is_branch (e : PushEvent) : bool := PyStr.startswith "refs/heads/" (ref e).

(** [PushEvent.commit_sha] *)
Definition commit_sha (e : PushEvent) : string := after e.

(** [PushEvent.changed_files]: the files of all commits are collected in a
    set, which is then listed (in the set's own order). *)
Definition changed_files (e : PushEvent) : list string :=
  elements
    (foldl (fun (files : gset string) c =>
              files ∪ list_to_set (added c) ∪ list_to_set (removed c)
                    ∪ list_to_set (modified c))
           ∅ (commits e)).

(** A pull request event; what the source reads out of the [pull_request]
    dictionary of the payload is a field here. *)
Record PullRequestEvent := {
  action : string;
  number : Z;
  title : string;
  head_sha : string;
  head_branch : string;
  base_branch : string;
  head_repo : string;
  base_repo : string;
  pr_repository_full_name : string;
  pr_sender_login : string;
}.

(** [PullRequestEvent.is_fork] *)
Definition is_fork (e : PullRequestEvent) : bool :=
  negb (String.eqb (head_repo e) (base_repo e)).

End Events.

(** ** Trigger matching (apps/pipelines/matcher.py) *)

Module Matcher.
Import Events.

(** [not l] on a list *)
Definition is_nil {A} (l : list A) : bool :=
  match l with [] => true | _ => false end.

(** [PipelineMatcher._matches_pattern] on two strings.  The expression is
    built from the escaped pattern and always compiles, so that the
    [re.error] branch of the source is never taken. *)
Definition _matches_pattern (value pattern : string) : option bool :=
  if String.eqb value pattern then Some true
  else
    let regex_pattern := PyRe.re_escape pattern in
    let regex_pattern := PyStr.replace "\*\*" ".*" regex_pattern in
    let regex_pattern := PyStr.replace "\*" "[^/]*" regex_pattern in
    let regex_pattern := PyStr.replace "\?" "." regex_pattern in
    let regex_pattern := "^" ++ regex_pattern ++ "$" in
    PyRe.re_match regex_pattern value.

(** [PipelineMatcher._matches_path_pattern] on two strings, inside the
    [PyRe] fragment.  The fallback expression is built from the unescaped
    pattern; where the pattern brings syntax of its own into it (which the
    source may answer with false after an [re.error]), and for a pattern
    with a bracket class, the answer here is [None]: nothing is said.  (The
    matcher for every pattern, with the libraries as parameters, is
    [_matches_path_pattern] of the module [Matching] below.) *)
Definition _matches_path_pattern (path pattern : string) : option bool :=
  m ← PyRe.fnmatch path pattern;
  if m : bool then Some true
  else if PyStr.contains "**" pattern then
    let regex_pattern := PyStr.replace "." "\." pattern in
    let regex_pattern := PyStr.replace "**" ".*" regex_pattern in
    let regex_pattern := PyStr.replace "*" "[^/]*" regex_pattern in
    let regex_pattern := "^" ++ regex_pattern ++ "$" in
    PyRe.re_match regex_pattern path
  else Some false.

End Matcher.

(** ** The expression behind a ref pattern, stage by stage

    [_matches_pattern] escapes the pattern and rewrites the escaped text
    three times.  The functions below give the text after each rewriting
    directly from the pattern, and [glob_items] the compiled expression. *)

Module Glob.
Import PyRe.

(** The escaped form of one character, in front of [s]. *)
Definition esc (c : ascii) (s : string) : string :=
  if special c then String "\" (String c s) else String c s.

Definition is_star (c : ascii) : bool := Ascii.eqb c "*".
Definition is_qmark (c : ascii) : bool := Ascii.eqb c "?".

Definition head_is (f : ascii → bool) (s : string) : bool :=
  match s with String c _ => f c | EmptyString => false end.

(** After the first rewriting: two stars have become [.*]. *)
Fixpoint stage1 (p : string) : string :=
  match p with
  | EmptyString => EmptyString
  | String c p' =>
      if is_star c then
        match p' with
        | String c' p'' =>
            if is_star c' then String "." (String "*" (stage1 p''))
            else String "\" (String "*" (stage1 p'))
        | EmptyString => "\*"
        end
      else esc c (stage1 p')
  end.

(** After the second rewriting: a remaining star has become [[^/]*]. *)
Fixpoint stage2 (p : string) : string :=
  match p with
  | EmptyString => EmptyString
  | String c p' =>
      if is_star c then
        match p' with
        | String c' p'' =>
            if is_star c' then String "." (String "*" (stage2 p''))
            else String "[" (String "^" (String "/" (String "]" (String "*" (stage2 p')))))
        | EmptyString => "[^/]*"
        end
      else esc c (stage2 p')
  end.

(** After the third rewriting: a question mark has become [.]. *)
Fixpoint stage3 (p : string) : string :=
  match p with
  | EmptyString => EmptyString
  | String c p' =>
      if is_star c then
        match p' with
        | String c' p'' =>
            if is_star c' then String "." (String "*" (stage3 p''))
            else String "[" (String "^" (String "/" (String "]" (String "*" (stage3 p')))))
        | EmptyString => "[^/]*"
        end
      else if is_qmark c then String "." (stage3 p')
      else esc c (stage3 p')
  end.

(** The compiled expression of a ref pattern: [**] is any run of characters
    other than newlines, [*] any run of characters other than [/], [?] one
    character other than a newline, every other character itself. *)
Fixpoint glob_items (p : string) : list item :=
  match p with
  | EmptyString => []
  | String c p' =>
      if is_star c then
        match p' with
        | String c' p'' =>
            if is_star c' then Many NotNewline :: glob_items p''
            else Many NotSlash :: glob_items p'
        | EmptyString => [Many NotSlash]
        end
      else if is_qmark c then One NotNewline :: glob_items p'
      else One (Lit c) :: glob_items p'
  end.

Definition tokens_of (r : list item) : list token :=
  r ≫= λ i, match i with One k => [TAtom k] | Many k => [TAtom k; TStar] end.

Definition starts_with_star (ts : list token) : bool :=
  match ts with TStar :: _ => true | _ => false end.

End Glob.

(** ** Matching a value against a list of ref patterns *)

Module MatcherSpec.
Import Events Matcher.

(** "[patterns] matches [value]": some pattern of the list matches. *)
Definition ref_matches (value : string) (patterns : list string) : bool :=
  existsb (fun p => bool_decide (_matches_pattern value p = Some true)) patterns.

(** The tag name of a tag ref ([refs/tags/...] with the prefix removed). *)
Definition tag_name (event : PushEvent) : string := default "" (tag event).

(** A push event with the given ref and one commit that modifies [files]. *)
Definition push_of (r : string) (files : list string) : PushEvent :=
  {| ref := r; before := ""; after := "abc"; created := false; deleted := false;
     forced := false; compare_url := ""; head_commit := None;
     commits := [ {| commit_id := "abc"; commit_message := ""; author_name := "";
                     added := []; removed := []; modified := files |} ];
     repository_full_name := ""; sender_login := "" |}.

(** A tag push [refs/tags/v1] with one changed file [README.md]. *)
Definition tag_with_paths_event : PushEvent := push_of "refs/tags/v1" ["README.md"].

End MatcherSpec.

(** ** Python values (what YAML and JSON documents load to)

    A mapping keeps the order of its keys; its keys are the hashable
    scalars.  Floating-point numbers are left out. *)

Module Py.

(** Exceptions that the modelled code can raise, and the outcome of a call. *)
Inductive exn := TypeError | AttributeError | IntegrityError | RecursionError.

Inductive result (A : Type) :=
| Return (a : A)
| Raise (e : exn).
Arguments Return {A} a.
Arguments Raise {A} e.

Inductive key :=
| KNone
| KBool (b : bool)
| KInt (z : Z)
| KStr (s : string).

#[warnings="-register-all"]
Inductive value :=
| VNone
| VBool (b : bool)
| VInt (z : Z)
| VStr (s : string)
| VList (l : list value)
| VDict (d : list (key * value)).

Definition int_of_bool (b : bool) : Z := if b then 1%Z else 0%Z.

(** Equality of dictionary keys: [True] and [1] are the same key. *)
Definition key_eqb (a b : key) : bool :=
  match a, b with
  | KNone, KNone => true
  | KBool x, KBool y => Bool.eqb x y
  | KBool x, KInt y => Z.eqb (int_of_bool x) y
  | KInt x, KBool y => Z.eqb x (int_of_bool y)
  | KInt x, KInt y => Z.eqb x y
  | KStr x, KStr y => String.eqb x y
  | _, _ => false
  end.

(** [d[k]] when the key is there *)
Fixpoint lookup {A} (k : key) (d : list (key * A)) : option A :=
  match d with
  | [] => None
  | (k', v) :: d' => if key_eqb k k' then Some v else lookup k d'
  end.

(** [d[k] = v]: a key that is there keeps its place. *)
Fixpoint insert {A} (k : key) (v : A) (d : list (key * A)) : list (key * A) :=
  match d with
  | [] => [(k, v)]
  | (k', v') :: d' =>
      if key_eqb k k' then (k', v) :: d' else (k', v') :: insert k v d'
  end.

(** [d.get(key)] on a dictionary with string keys *)
Fixpoint assoc {A} (key : string) (d : list (string * A)) : option A :=
  match d with
  | [] => None
  | (k, v) :: d' => if String.eqb key k then Some v else assoc key d'
  end.

(** [a == b]: booleans compare as the integers 0 and 1, lists element by
    element, dictionaries key by key whatever the order of the keys. *)
Fixpoint py_eq (a b : value) {struct a} : bool :=
  match a, b with
  | VNone, VNone => true
  | VBool x, VBool y => Bool.eqb x y
  | VBool x, VInt y => Z.eqb (int_of_bool x) y
  | VInt x, VBool y => Z.eqb x (int_of_bool y)
  | VInt x, VInt y => Z.eqb x y
  | VStr x, VStr y => String.eqb x y
  | VList x, VList y =>
      (fix eq_list (x y : list value) {struct x} : bool :=
         match x, y with
         | [], [] => true
         | u :: x', v :: y' => py_eq u v && eq_list x' y'
         | _, _ => false
         end) x y
  | VDict x, VDict y =>
      Nat.eqb (length x) (length y) &&
      (fix all_in (x : list (key * value)) : bool :=
         match x with
         | [] => true
         | (k, u) :: x' =>
             match lookup k y with
             | Some v => py_eq u v
             | None => false
             end && all_in x'
         end) x
  | _, _ => false
  end.

(** [bool(v)] *)
Definition truthy (v : value) : bool :=
  match v with
  | VNone => false
  | VBool b => b
  | VInt z => negb (Z.eqb z 0)
  | VStr s => negb (PyStr.falsy s)
  | VList l => negb (Matcher.is_nil l)
  | VDict d => negb (Matcher.is_nil d)
  end.

(** A key as a value, and a value as a key: lists and dictionaries are not
    hashable. *)
Definition value_of_key (k : key) : value :=
  match k with
  | KNone => VNone
  | KBool b => VBool b
  | KInt z => VInt z
  | KStr s => VStr s
  end.

Definition key_of_value (v : value) : option key :=
  match v with
  | VNone => Some KNone
  | VBool b => Some (KBool b)
  | VInt z => Some (KInt z)
  | VStr s => Some (KStr s)
  | VList _ | VDict _ => None
  end.

(** [x.get(k, dflt)]: only dictionaries have the method. *)
Definition get (x : value) (k : string) (dflt : value) : result value :=
  match x with
  | VDict d => Return (default dflt (lookup (KStr k) d))
  | _ => Raise AttributeError
  end.

(** [x.items()] *)
Definition items (x : value) : result (list (key * value)) :=
  match x with
  | VDict d => Return d
  | _ => Raise AttributeError
  end.

(** The characters of a string, each as a string of its own. *)
Fixpoint characters (s : string) : list value :=
  match s with
  | EmptyString => []
  | String c s' => VStr (String c EmptyString) :: characters s'
  end.

(** [for item in x]: lists give their elements, dictionaries their keys,
    strings their characters; nothing else is iterable. *)
Definition iterate (x : value) : result (list value) :=
  match x with
  | VList l => Return l
  | VDict d => Return (value_of_key <$> d.*1)
  | VStr s => Return (characters s)
  | _ => Raise TypeError
  end.

(** [str.isspace()] on a character (code points below 256). *)
Definition isspace (c : ascii) : bool :=
  let n := N_of_ascii c in
  ((9 <=? n) && (n <=? 13) || (28 <=? n) && (n <=? 32) || (n =? 133) || (n =? 160))%N.

(** [len(s.split())]: the number of fields between runs of white space;
    [in_field] tells whether the character before was part of a field. *)
Fixpoint count_fields (in_field : bool) (s : string) : nat :=
  match s with
  | EmptyString => 0
  | String c s' =>
      if isspace c then count_fields false s'
      else if in_field then count_fields true s'
      else S (count_fields true s')
  end.

End Py.

(** ** Matrix expansion (apps/pipelines/matrix.py) *)

Module Matrix.

Section Expand.

(** The values of matrix variables and Python's [==] on them. *)
Context {V : Type} (py_eq : V → V → bool).

(** A combination: a dictionary from variable names to values, in insertion
    order (its keys are distinct, as in every dictionary). *)
Definition combination := list (string * V).

(** The [matrix] dictionary; each of its keys may be absent. *)
Record matrix := {
  variables : option (list (string * list V));
  include : option (list combination);
  exclude : option (list combination);
}.

(** The [strategy] dictionary of a job. *)
Record strategy := {
  fail_fast : option bool;
  max_parallel : option Z;
  strategy_matrix : option matrix;
}.

(** [{}] *)
Definition empty_matrix : matrix :=
  {| variables := None; include := None; exclude := None |}.

(** [not matrix]: a dictionary is falsy when it has no key. *)
Definition matrix_falsy (m : matrix) : bool :=
  match variables m, include m, exclude m with
  | None, None, None => true
  | _, _, _ => false
  end.

(** [itertools.product] over the value lists: the rightmost list varies
    fastest. *)
Fixpoint product (values : list (list V)) : list (list V) :=
  match values with
  | [] => [[]]
  | vs :: rest => v ← vs; combo ← product rest; [v :: combo]
  end.

(** [_matches_pattern] *)
Definition _matches_pattern (comb pattern : combination) : bool :=
  forallb (fun '(key, value) =>
             match Py.assoc key comb with
             | None => false
             | Some v => py_eq v value
             end) pattern.

(** [_should_exclude] *)
Definition _should_exclude (comb : combination) (exclude_list : list combination) : bool :=
  existsb (_matches_pattern comb) exclude_list.

(** [expand_matrix]: the list of the combinations it yields, in order *)
Definition expand_matrix (s : strategy) : list combination :=
  let matrix := default empty_matrix (strategy_matrix s) in
  if matrix_falsy matrix then [[]]
  else
    let variables := default [] (variables matrix) in
    let include := default [] (include matrix) in
    let exclude := default [] (exclude matrix) in
    (if Matcher.is_nil variables then []
     else
       let keys := variables.*1 in
       let values := variables.*2 in
       List.filter (fun comb => negb (_should_exclude comb exclude))
                   (zip keys <$> product values))
    ++ include.

(** [count_matrix_combinations] *)
Definition count_matrix_combinations (s : strategy) : nat :=
  length (expand_matrix s).

(** *** The expansion as the specification words it *)

(** The cartesian product over the variables in declaration order. *)
Fixpoint cartesian (vars : list (string * list V)) : list combination :=
  match vars with
  | [] => [[]]
  | (k, vs) :: rest => v ← vs; comb ← cartesian rest; [(k, v) :: comb]
  end.

(** An exclude entry matches a combination when each of its keys is a key of
    the combination with an equal value. *)
Definition entry_matches (comb entry : combination) : Prop :=
  ∀ k v, (k, v) ∈ entry → ∃ v', Py.assoc k comb = Some v' ∧ py_eq v' v = true.

Definition dropped (comb : combination) (excl : list combination) : Prop :=
  ∃ entry, entry ∈ excl ∧ entry_matches comb entry.

Definition strategy_variables (s : strategy) : list (string * list V) :=
  default [] (strategy_matrix s ≫= variables).
Definition strategy_include (s : strategy) : list combination :=
  default [] (strategy_matrix s ≫= include).
Definition strategy_exclude (s : strategy) : list combination :=
  default [] (strategy_matrix s ≫= exclude).

(** The combinations of the base product that no exclude entry matches. *)
Definition kept_base (s : strategy) : list combination :=
  List.filter (fun comb => negb (_should_exclude comb (strategy_exclude s)))
              (cartesian (strategy_variables s)).

(** The combinations of the base product that some exclude entry matches. *)
Definition excluded_base (s : strategy) : list combination :=
  List.filter (fun comb => _should_exclude comb (strategy_exclude s))
              (cartesian (strategy_variables s)).

(** As claimed: the base product without the excluded combinations, then
    the include entries; the empty product is the one empty combination. *)
Definition claimed_expansion (s : strategy) : list combination :=
  kept_base s ++ strategy_include s.

(** As coded: a matrix that has keys but declares no variable has no base
    product at all. *)
Definition coded_expansion (s : strategy) : list combination :=
  if matrix_falsy (default empty_matrix (strategy_matrix s)) then [[]]
  else if Matcher.is_nil (strategy_variables s) then strategy_include s
  else kept_base s ++ strategy_include s.

(** The product of the lengths of the variables' value lists. *)
Definition product_size (s : strategy) : nat :=
  foldr Nat.mul 1 (length <$> (strategy_variables s).*2).

Definition claimed_count (s : strategy) : nat :=
  product_size s - length (excluded_base s) + length (strategy_include s).

Definition coded_count (s : strategy) : nat :=
  if matrix_falsy (default empty_matrix (strategy_matrix s)) then 1
  else if Matcher.is_nil (strategy_variables s) then length (strategy_include s)
  else product_size s - length (excluded_base s) + length (strategy_include s).

End Expand.

Arguments combination : clear implicits.
Arguments matrix : clear implicits.
Arguments strategy : clear implicits.

(** Scenario S4 of the specification. *)
Definition s4_strategy : strategy Py.value :=
  {| fail_fast := Some true; max_parallel := None;
     strategy_matrix := Some
       {| variables := Some [("os", [Py.VStr "ubuntu"; Py.VStr "macos"]);
                             ("node", [Py.VInt 18; Py.VInt 20])];
          include := Some [[("os", Py.VStr "ubuntu"); ("node", Py.VInt 16);
                            ("experimental", Py.VBool true)]];
          exclude := Some [[("os", Py.VStr "macos"); ("node", Py.VInt 18)]] |} |}.

(** A matrix that only lists include entries. *)
Definition include_only_strategy : strategy Py.value :=
  {| fail_fast := None; max_parallel := None;
     strategy_matrix := Some
       {| variables := Some [];
          include := Some [[("os", Py.VStr "ubuntu")]];
          exclude := Some [] |} |}.

End Matrix.

(** ** Webhook signatures (apps/webhooks/utils.py) *)

Module Signature.
Import Py.

(** [bytes.hex()]: two lowercase hexadecimal digits per byte. *)
Definition hex_digit (n : N) : ascii :=
  if (n <? 10)%N then ascii_of_N (48 + n) else ascii_of_N (87 + n).

Fixpoint hex (bs : list Byte.byte) : string :=
  match bs with
  | [] => EmptyString
  | b :: bs' =>
      let n := Byte.to_N b in
      String (hex_digit (n / 16)) (String (hex_digit (n mod 16)) (hex bs'))
  end.

(** [str.encode('utf-8')] for the characters of the model (code points
    below 256): one byte below 128, two bytes from there on. *)
Definition byte_of_N (n : N) : Byte.byte := default Byte.x00 (Byte.of_N n).

Fixpoint encode_utf8 (s : string) : list Byte.byte :=
  match s with
  | EmptyString => []
  | String c s' =>
      let n := N_of_ascii c in
      (if (n <? 128)%N then [byte_of_N n]
       else [byte_of_N (192 + n / 64); byte_of_N (128 + n mod 64)])
      ++ encode_utf8 s'
  end.

(** [hmac.compare_digest(a, b)] on two [str] arguments: it refuses
    strings with non-ASCII characters. *)
Definition compare_digest (a b : string) : result bool :=
  if PyStr.isascii a && PyStr.isascii b then Return (String.eqb a b)
  else Raise TypeError.

Definition SIGNATURE_PREFIX : string := "sha256=".

Section Verifier.

(** [hmac.new(key, msg, hashlib.sha256).digest()], the library's HMAC-SHA256. *)
Variable hmac_sha256 : list Byte.byte → list byte → list byte.

(** [settings.GITHUB_WEBHOOK_SECRET], or [''] when the setting is absent. *)
Variable settings_secret : string.

(** [GitHubSignatureVerifier.__init__]: [self.secret = secret or default] *)
Definition GitHubSignatureVerifier (secret : option string) : string :=
  match secret with
  | Some s => if PyStr.falsy s then settings_secret else s
  | None => settings_secret
  end.

(** [GitHubSignatureVerifier._compute_signature] *)
Definition _compute_signature (self_secret : string) (payload : list Byte.byte) : string :=
  hex (hmac_sha256 (encode_utf8 self_secret) payload).

(** [GitHubSignatureVerifier.verify]; a missing header is [None]. *)
Definition verify (self_secret : string) (payload : list Byte.byte) (signature : option string)
  : result bool :=
  if PyStr.falsy self_secret then Return true
  else
    match signature with
    | None => Return false
    | Some signature =>
        if PyStr.falsy signature then Return false
        else if negb (PyStr.startswith SIGNATURE_PREFIX signature) then Return false
        else
          let provided_signature := PyStr.drop (String.length SIGNATURE_PREFIX) signature in
          let expected_signature := _compute_signature self_secret payload in
          compare_digest expected_signature provided_signature
    end.

(** [verify_github_signature] *)
Definition verify_github_signature (payload : list Byte.byte) (signature : option string)
    (secret : option string) : result bool :=
  verify (GitHubSignatureVerifier secret) payload signature.

End Verifier.


(** A stand-in digest function, to run the verifier on examples: the digest
    of the verifier is whatever the HMAC function returns. *)
Definition toy_hmac (key msg : list Byte.byte) : list Byte.byte := key ++ msg.

End Signature.

(** ** Executions (apps/executions/models.py, apps/executions/views.py)

    Tables are lists of rows; identifiers and times are numbers. *)

Module Executions.
Import Py.

Record Execution := {
  id : N;
  tenant : N;
  pipeline : N;
  pipeline_config : option N;
  number : N;
  trigger_type : string;
  trigger_info : list (string * value);
  status : string;
  inputs : value;
  environment : value;
  triggered_by : option N;
  finished_at : option N;
}.

(** [Execution.objects.filter(pipeline=p)] *)
Definition of_pipeline (table : list Execution) (p : N) : list Execution :=
  List.filter (fun e => N.eqb (pipeline e) p) table.

(** [.order_by('-number').values_list('number', flat=True).first()] *)
Definition last_number (rows : list Execution) : option N :=
  match number <$> rows with
  | [] => None
  | n :: ns => Some (foldr N.max n ns)
  end.

(** [x or 0] on an optional number *)
Definition or_zero (x : option N) : N :=
  match x with
  | Some n => if N.eqb n 0 then 0%N else n
  | None => 0%N
  end.

(** [Execution.get_next_number] *)
Definition get_next_number (table : list Execution) (self : Execution) : N :=
  (or_zero (last_number (of_pipeline table (pipeline self))) + 1)%N.

(** [Execution.objects.create(...)]: the row is inserted unless it breaks
    [unique_together = ['pipeline', 'number']]. *)
Definition create (table : list Execution) (row : Execution) : result (list Execution) :=
  if existsb (fun e => N.eqb (pipeline e) (pipeline row) && N.eqb (number e) (number row)) table
  then Raise IntegrityError
  else Return (table ++ [row])%list.

(** The answers of the retry endpoint. *)
Inductive retry_response :=
| Retry400
| Retry201 (execution_id : N) (number : N).

(** [ExecutionViewSet.retry] for the execution [execution] that the lookup
    found, the requesting user and the identifier of the new row. *)
Definition retry (table : list Execution) (execution : Execution)
    (user : N) (username : string) (new_id : N)
  : result (list Execution * retry_response) :=
  if negb (existsb (String.eqb (status execution)) ["failed"; "cancelled"; "timeout"])
  then Return (table, Retry400)
  else
    let new_execution :=
      {| id := new_id;
         tenant := tenant execution;
         pipeline := pipeline execution;
         pipeline_config := pipeline_config execution;
         number := N.of_nat (length (of_pipeline table (pipeline execution))) + 1;
         trigger_type := "manual";
         trigger_info := [("retry_of", VInt (Z.of_N (id execution)));
                          ("user_id", VInt (Z.of_N user));
                          ("username", VStr username)];
         status := "pending";
         inputs := inputs execution;
         environment := environment execution;
         triggered_by := Some user;
         finished_at := None |} in
    match create table new_execution with
    | Raise e => Raise e
    | Return table' => Return (table', Retry201 (id new_execution) (number new_execution))
    end.

(** What the specification asks of every allocation: one more than the
    largest number of the pipeline, 1 without executions. *)
Definition max_plus_one (table : list Execution) (p : N) : N :=
  (default 0%N (last_number (of_pipeline table p)) + 1)%N.


(** A pipeline whose executions 1 and 3 remain after execution 2 was
    deleted; execution 1 failed. *)
Definition row (i n : N) (st : string) : Execution :=
  {| id := i; tenant := 1; pipeline := 7; pipeline_config := None; number := n;
     trigger_type := "push"; trigger_info := []; status := st;
     inputs := VDict []; environment := VDict []; triggered_by := None;
     finished_at := None |}.

Definition pruned_table : list Execution := [row 100 1 "failed"; row 102 3 "success"].

End Executions.

(** ** The webhook view (apps/webhooks/views.py) *)

Module WebhookView.
Import Py Events Executions.

Record PipelineConfig := {
  config_id : N;
  config_pipeline : N;
  version : N;
  parsed_config : value;
  is_valid : bool;
}.

Record Pipeline := {
  pipeline_id : N;
  pipeline_tenant : N;
  pipeline_name : string;
  webhook_secret : string;
}.

(** The tables that the view reads and writes. *)
Record db := {
  configs : list PipelineConfig;
  executions : list Execution;
  last_execution_at : gmap N N;
}.

(** The outcome of a step of the view: a value and the new tables, or an
    exception. *)
Inductive outcome (A : Type) :=
| Done (a : A) (d : db)
| Failed (e : exn).
Arguments Done {A} a d.
Arguments Failed {A} e.

(** [Pipeline.get_latest_config]: the valid configuration with the highest
    version. *)
Definition get_latest_config (d : db) (p : Pipeline) : option PipelineConfig :=
  foldr (fun c best =>
           if N.eqb (config_pipeline c) (pipeline_id p) && is_valid c then
             match best with
             | Some b => if (version b <? version c)%N then Some c else Some b
             | None => Some c
             end
           else best)
        None (configs d).

Inductive parsed_event :=
| ParsedPush (e : PushEvent)
| ParsedPullRequest (e : PullRequestEvent)
| ParsedPing.

Section View.

(** [timezone.now()] and the identifier drawn for a new row. *)
Variable now : N.
Variable uuid4 : list Execution → N.

(** The matcher on the configuration of a row,
    [PipelineMatcher(config.parsed_config).matches_push(event)] and
    [.matches_pull_request(event)]: its verdict, or the exception it
    raises.  The view does not depend on how the matcher decides, so it is
    taken as it comes: what is proved of the view holds for every
    matcher, whatever the row stores. *)
Variable matches_push : PipelineConfig → PushEvent → result bool.
Variable matches_pull_request : PipelineConfig → PullRequestEvent → result bool.

Definition str_or_none (s : option string) : value :=
  match s with Some s => VStr s | None => VNone end.

(** [GitHubWebhookView._create_execution_for_push] *)
Definition _create_execution_for_push (d : db) (pipeline : Pipeline) (config : PipelineConfig)
    (event : PushEvent) (delivery_id : string) : outcome (option Execution) :=
  if deleted event then Done None d
  else
    let last_number :=
      or_zero (last_number (of_pipeline (executions d) (pipeline_id pipeline))) in
    let trigger_info :=
      [("event_type", VStr "push"); ("delivery_id", VStr delivery_id);
       ("ref", VStr (ref event)); ("branch", VStr (branch event));
       ("tag", str_or_none (tag event)); ("commit_sha", VStr (commit_sha event));
       ("commit_message", VStr (default "" (commit_message <$> head_commit event)));
       ("author", VStr (default "" (author_name <$> head_commit event)));
       ("compare_url", VStr (compare_url event));
       ("repository", VStr (repository_full_name event));
       ("sender", VStr (sender_login event))] in
    let execution :=
      {| id := uuid4 (executions d);
         tenant := pipeline_tenant pipeline;
         Executions.pipeline := pipeline_id pipeline;
         pipeline_config := Some (config_id config);
         number := last_number + 1;
         trigger_type := "push";
         trigger_info := trigger_info;
         status := "pending";
         inputs := VDict [];
         environment := VDict [];
         triggered_by := None;
         finished_at := None |} in
    match create (executions d) execution with
    | Raise e => Failed e
    | Return table =>
        Done (Some execution)
             {| configs := configs d; executions := table;
                last_execution_at := <[pipeline_id pipeline := now]> (last_execution_at d) |}
    end.

(** [GitHubWebhookView._create_execution_for_pr] *)
Definition _create_execution_for_pr (d : db) (pipeline : Pipeline) (config : PipelineConfig)
    (event : PullRequestEvent) (delivery_id : string) : outcome (option Execution) :=
  let last_number :=
    or_zero (last_number (of_pipeline (executions d) (pipeline_id pipeline))) in
  let trigger_info :=
    [("event_type", VStr "pull_request"); ("delivery_id", VStr delivery_id);
     ("action", VStr (action event)); ("number", VInt (Events.number event));
     ("title", VStr (title event)); ("head_sha", VStr (head_sha event));
     ("head_branch", VStr (head_branch event)); ("base_branch", VStr (base_branch event));
     ("head_repo", VStr (head_repo event)); ("base_repo", VStr (base_repo event));
     ("is_fork", VBool (is_fork event));
     ("repository", VStr (pr_repository_full_name event));
     ("sender", VStr (pr_sender_login event))] in
  let execution :=
    {| id := uuid4 (executions d);
       tenant := pipeline_tenant pipeline;
       Executions.pipeline := pipeline_id pipeline;
       pipeline_config := Some (config_id config);
       number := last_number + 1;
       trigger_type := "pull_request";
       trigger_info := trigger_info;
       status := "pending";
       inputs := VDict [];
       environment := VDict [];
       triggered_by := None;
       finished_at := None |} in
  match create (executions d) execution with
  | Raise e => Failed e
  | Return table =>
      Done (Some execution)
           {| configs := configs d; executions := table;
              last_execution_at := <[pipeline_id pipeline := now]> (last_execution_at d) |}
  end.

(** One turn of the loop of [_process_event]: [None] stands for [continue].
    An exception of the matcher leaves the view. *)
Definition process_pipeline (d : db) (event_type : string) (event : parsed_event)
    (delivery_id : string) (pipeline : Pipeline) : outcome (option Execution) :=
  match get_latest_config d pipeline with
  | None => Done None d
  | Some config =>
      if negb (is_valid config) then Done None d
      else
        match event with
        | ParsedPush e =>
            if String.eqb event_type "push" then
              match matches_push config e with
              | Raise x => Failed x
              | Return false => Done None d
              | Return true => _create_execution_for_push d pipeline config e delivery_id
              end
            else Done None d
        | ParsedPullRequest e =>
            if String.eqb event_type "pull_request" then
              match matches_pull_request config e with
              | Raise x => Failed x
              | Return false => Done None d
              | Return true => _create_execution_for_pr d pipeline config e delivery_id
              end
            else Done None d
        | ParsedPing => Done None d
        end
  end.

(** [GitHubWebhookView._process_event]: the executions created, in order. *)
Fixpoint _process_event (d : db) (event_type : string) (event : parsed_event)
    (pipelines : list Pipeline) (delivery_id : string) : outcome (list Execution) :=
  match pipelines with
  | [] => Done [] d
  | pipeline :: rest =>
      match process_pipeline d event_type event delivery_id pipeline with
      | Failed e => Failed e
      | Done execution d' =>
          match _process_event d' event_type event rest delivery_id with
          | Failed e => Failed e
          | Done triggered d'' =>
              Done (match execution with
                    | Some x => x :: triggered
                    | None => triggered
                    end) d''
          end
      end
  end.

(** The exception [x] is one that the matcher raises on the event, for a
    configuration of the table. *)
Definition matcher_raises (d : db) (event : parsed_event) (x : exn) : Prop :=
  ∃ config, config ∈ configs d ∧
    match event with
    | ParsedPush e => matches_push config e = Raise x
    | ParsedPullRequest e => matches_pull_request config e = Raise x
    | ParsedPing => False
    end.

End View.


(** A pipeline whose push trigger matches the branch [main], with two
    executions so far. *)
Definition main_config : PipelineConfig :=
  {| config_id := 30; config_pipeline := 7; version := 2; is_valid := true;
     parsed_config :=
       VDict [(KStr "on",
               VDict [(KStr "push", VDict [(KStr "branches", VList [VStr "main"])])])] |}.

Definition main_pipeline : Pipeline :=
  {| pipeline_id := 7; pipeline_tenant := 1; pipeline_name := "build"; webhook_secret := "" |}.

Definition main_db : db :=
  {| configs := [main_config];
     executions := [row 100 1 "success"; row 101 2 "success"];
     last_execution_at := ∅ |}.

Definition deleted_main : PushEvent :=
  {| ref := "refs/heads/main"; before := "abc"; after := "000"; created := false;
     deleted := true; forced := false; compare_url := ""; commits := [];
     head_commit := None; repository_full_name := "o/r"; sender_login := "ana" |}.

End WebhookView.

(** ** Runner status updates (apps/runners/consumers.py) *)

Module Runner.
Import Py.

Record Job := {
  job_id : N;
  job_execution : N;
  job_status : string;
  job_started_at : option N;
  job_finished_at : option N;
  job_outputs : value;
}.

Record Step := {
  step_id : N;
  step_job : N;
  step_order : N;
  step_status : string;
  step_exit_code : option Z;
  step_started_at : option N;
  step_finished_at : option N;
  step_outputs : value;
}.

(** The fields that a status update writes; an absent field is left as it
    is in the row. *)
Record update_fields := {
  uf_status : string;
  uf_exit_code : option Z;
  uf_started_at : option N;
  uf_finished_at : option N;
  uf_outputs : option value;
}.

Definition in_strings (s : string) (l : list string) : bool := existsb (String.eqb s) l.

Section Consumer.

(** [timezone.now()] *)
Variable now : N.

(** The [update_fields] dictionary built for a job. *)
Definition job_update_fields (status : string) (outputs : value) : update_fields :=
  let update_fields :=
    {| uf_status := status; uf_exit_code := None; uf_started_at := None;
       uf_finished_at := None; uf_outputs := None |} in
  if String.eqb status "running" then
    {| uf_status := status; uf_exit_code := None; uf_started_at := Some now;
       uf_finished_at := None; uf_outputs := None |}
  else if in_strings status ["success"; "failed"; "cancelled"; "timeout"] then
    {| uf_status := status; uf_exit_code := None; uf_started_at := None;
       uf_finished_at := Some now; uf_outputs := Some outputs |}
  else update_fields.

(** The [update_fields] dictionary built for a step. *)
Definition step_update_fields (status : string) (exit_code : option Z) (outputs : value)
  : update_fields :=
  let update_fields :=
    {| uf_status := status; uf_exit_code := exit_code; uf_started_at := None;
       uf_finished_at := None; uf_outputs := None |} in
  if String.eqb status "running" then
    {| uf_status := status; uf_exit_code := exit_code; uf_started_at := Some now;
       uf_finished_at := None; uf_outputs := None |}
  else if in_strings status ["success"; "failed"; "cancelled"; "timeout"; "skipped"] then
    {| uf_status := status; uf_exit_code := exit_code; uf_started_at := None;
       uf_finished_at := Some now; uf_outputs := Some outputs |}
  else update_fields.

(** The update of [Job.objects.filter(id=entity_id)] with the fields, on one row *)
Definition update_job (u : update_fields) (j : Job) : Job :=
  {| job_id := job_id j;
     job_execution := job_execution j;
     job_status := uf_status u;
     job_started_at := from_option Some (job_started_at j) (uf_started_at u);
     job_finished_at := from_option Some (job_finished_at j) (uf_finished_at u);
     job_outputs := default (job_outputs j) (uf_outputs u) |}.

(** The update of [Step.objects.filter(id=entity_id)] with the fields, on one row *)
Definition update_step (u : update_fields) (s : Step) : Step :=
  {| step_id := step_id s;
     step_job := step_job s;
     step_order := step_order s;
     step_status := uf_status u;
     step_exit_code := from_option Some (step_exit_code s) (uf_exit_code u);
     step_started_at := from_option Some (step_started_at s) (uf_started_at u);
     step_finished_at := from_option Some (step_finished_at s) (uf_finished_at u);
     step_outputs := default (step_outputs s) (uf_outputs u) |}.

Record tables := {
  jobs : list Job;
  steps : list Step;
}.

(** [RunnerConsumer.update_entity_status] *)
Definition update_entity_status (t : tables) (entity_type : string) (entity_id : N)
    (status : string) (exit_code : option Z) (outputs : value) : tables :=
  if String.eqb entity_type "job" then
    let update_fields := job_update_fields status outputs in
    {| jobs := (fun j => if N.eqb (job_id j) entity_id then update_job update_fields j else j)
                 <$> jobs t;
       steps := steps t |}
  else if String.eqb entity_type "step" then
    let update_fields := step_update_fields status exit_code outputs in
    {| jobs := jobs t;
       steps := (fun s => if N.eqb (step_id s) entity_id then update_step update_fields s else s)
                  <$> steps t |}
  else t.

End Consumer.

(** The terminal statuses of the life cycle. *)
Definition terminal (status : string) : bool :=
  in_strings status ["success"; "failed"; "cancelled"; "timeout"; "skipped"].

End Runner.

(** ** Log streaming (apps/logs/consumers.py) *)

Module Logs.
Import Py.

Record Job := { job_id : N; job_execution : N }.
Record Step := { step_id : N; step_job : N; step_order : N }.
Record LogChunk := {
  chunk_step : N;
  chunk_number : N;
  content : string;
  level : string;
  timestamp : N;
}.

Record Execution := { execution_id : N; execution_tenant : N }.

Record tables := {
  executions : list Execution;
  jobs : list Job;
  steps : list Step;
  log_chunks : list LogChunk;
}.

(** The frames of the log socket. *)
Inductive frame :=
| Connected (execution_id : N) (job_id : option N)
| Log (job_id step_id : N) (timestamp : N) (content level : string)
| HistoryComplete (count : nat)
| StatusUpdate (entity_type : string) (entity_id : N) (status : string) (timestamp : N)
| Pong.

(** The user of the connection scope.  [user_tenant] is the tenant of the
    user object, and [None] for a user object that has no [tenant]
    attribute, which the permission check lets through.  (A user object
    whose [tenant] attribute is [None] is refused for every execution, as
    a user of a tenant without executions is; it is not represented
    apart.) *)
Record user := { is_authenticated : bool; user_tenant : option N }.

(** The consumer: the route's identifiers and the connection's user. *)
Record LogConsumer := {
  self_execution_id : N;
  self_job_id : option N;
  self_user : option user;
}.

(** [LogConsumer.has_permission] *)
Definition has_permission (t : tables) (self : LogConsumer) : bool :=
  match self_user self with
  | None => false
  | Some u =>
      if negb (is_authenticated u) then false
      else
        match List.find (fun e => N.eqb (execution_id e) (self_execution_id self)) (executions t) with
        | None => false
        | Some execution =>
            match user_tenant u with
            | Some tn => N.eqb (execution_tenant execution) tn
            | None => true
            end
        end
  end.

(** The steps whose logs the consumer subscribes to. *)
Definition scope_steps (t : tables) (self : LogConsumer) : list Step :=
  match self_job_id self with
  | Some j => List.filter (fun s => N.eqb (step_job s) j) (steps t)
  | None =>
      let job_ids :=
        job_id <$> List.filter (fun j => N.eqb (job_execution j) (self_execution_id self)) (jobs t) in
      List.filter (fun s => existsb (N.eqb (step_job s)) job_ids) (steps t)
  end.

(** A log chunk joined with its step. *)
Definition joined := (Step * LogChunk)%type.

Definition join (ss : list Step) (c : LogChunk) : option joined :=
  (fun s => (s, c)) <$> List.find (fun s => N.eqb (step_id s) (chunk_step c)) ss.

(** The order of [order_by('step__job_id', 'step__order', 'chunk_number')]. *)
Definition key (x : joined) : N * N * N :=
  (step_job x.1, step_order x.1, chunk_number x.2).

Definition key_leb (a b : N * N * N) : bool :=
  let '(a1, a2, a3) := a in
  let '(b1, b2, b3) := b in
  (a1 <? b1)%N || (N.eqb a1 b1 && ((a2 <? b2)%N || (N.eqb a2 b2 && (a3 <=? b3)%N))).

Definition key_le (a b : joined) : Prop := key_leb (key a) (key b) = true.

#[global] Instance key_le_dec (a b : joined) : Decision (key_le a b).
Proof. unfold key_le. apply _. Defined.

(** The query of [get_existing_logs]: the chunks of the subscribed steps in
    key order, cut after 1000 rows.  (Rows with equal keys come in an order
    of the database's choosing.) *)
Definition stored_rows (t : tables) (self : LogConsumer) : list joined :=
  let steps := scope_steps t self in
  omap (join steps) (log_chunks t).

Definition existing_rows (t : tables) (self : LogConsumer) : list joined :=
  take 1000 (merge_sort key_le (stored_rows t self)).

Definition log_frame (x : joined) : frame :=
  Log (step_job x.1) (chunk_step x.2) (timestamp x.2) (content x.2) (level x.2).

(** [LogConsumer.get_existing_logs] *)
Definition get_existing_logs (t : tables) (self : LogConsumer) : list frame :=
  log_frame <$> existing_rows t self.

(** [LogConsumer.send_history]: the frames it sends, in order *)
Definition send_history (t : tables) (self : LogConsumer) : list frame :=
  let logs := get_existing_logs t self in
  (logs ++ [HistoryComplete (length logs)])%list.

(** [LogConsumer.connect]: the frames sent on connection; nothing is sent
    and the socket is closed when the permission check fails. *)
Definition connect (t : tables) (self : LogConsumer) : option (list frame) :=
  if negb (has_permission t self) then None
  else Some (Connected (self_execution_id self) (self_job_id self) :: send_history t self).

(** A message delivered by the channel layer to a connected consumer. *)
Inductive group_event :=
| LogMessage (job_id step_id : N) (timestamp : N) (content level : string)
| StatusMessage (entity_type : string) (entity_id : N) (status : string) (timestamp : N).

(** [LogConsumer.log_message] and [LogConsumer.status_update] *)
Definition deliver (ev : group_event) : frame :=
  match ev with
  | LogMessage j s ts c l => Log j s ts c l
  | StatusMessage ty i st ts => StatusUpdate ty i st ts
  end.

(** A session: the connection, then the live messages of its group, which
    the consumer handles one after the other once [connect] has returned. *)
Definition session (t : tables) (self : LogConsumer) (live : list group_event)
  : option (list frame) :=
  (fun sent => (sent ++ (deliver <$> live))%list) <$> connect t self.


(** An execution with one job and one step that has logged the chunks
    0 to 1000, chunk [n] at time [n]. *)
Definition long_log : tables :=
  {| executions := [ {| execution_id := 1; execution_tenant := 1 |} ];
     jobs := [ {| job_id := 1; job_execution := 1 |} ];
     steps := [ {| step_id := 1; step_job := 1; step_order := 0 |} ];
     log_chunks :=
       (fun n => {| chunk_step := 1; chunk_number := N.of_nat n; content := "";
                    level := "info"; timestamp := N.of_nat n |}) <$> seq 0 1001 |}.

Definition viewer : LogConsumer :=
  {| self_execution_id := 1; self_job_id := None;
     self_user := Some {| is_authenticated := true; user_tenant := Some 1%N |} |}.


(** The frame of the chunk logged at time [n]. *)
Definition logged_at (n : N) (f : frame) : bool :=
  match f with
  | Log _ _ ts _ _ => N.eqb ts n
  | _ => false
  end.

End Logs.

(** ** The pipeline parser (apps/pipelines/parser.py)

    The parser works on the value that [yaml.safe_load] returns.  Its
    methods append to [self.errors] and may raise; both are explicit here. *)

Module Parser.
Import Py.

(** The messages appended to [self.errors], by what they report. *)
Inductive error :=
| YamlSyntaxError (msg : string)
| NotAnObject
| NoJobs
| InvalidCron (cron : string)
| InvalidJobKey (job_key : string)
| MissingRunsOn (job_key : string)
| MissingSteps (job_key : string)
| StepWithoutRunOrUses (number : nat)
| StepWithRunAndUses (number : nat)
| MissingDependency (job_key : key) (needed_job : key)
| CircularDependency.

(** A method of the parser: from the errors so far to a value and the
    errors after, or to an exception. *)
Definition M (A : Type) : Type := list error → result (A * list error).

#[global] Instance M_ret : MRet M := λ A a es, Return (a, es).
#[global] Instance M_bind : MBind M := λ A B f m es,
  match m es with
  | Return (a, es') => f a es'
  | Raise e => Raise e
  end.

Definition lift {A} (r : result A) : M A := λ es,
  match r with
  | Return a => Return (a, es)
  | Raise e => Raise e
  end.

(** [self.errors.append(e)] *)
Definition append_error (e : error) : M unit := λ es, Return (tt, (es ++ [e])%list).

(** [x.get(k, dflt)] inside a method *)
Definition mget (x : value) (k : string) (dflt : value) : M value := lift (get x k dflt).

(** A dictionary literal with string keys. *)
Definition dict (l : list (string * value)) : value := VDict (prod_map KStr id <$> l).

(** [PipelineParser._parse_push_trigger] *)
Definition _parse_push_trigger (config : value) : M value :=
  match config with
  | VNone => mret (dict [])
  | _ =>
      branches ← mget config "branches" (VList []);
      branches_ignore ← mget config "branches-ignore" (VList []);
      paths ← mget config "paths" (VList []);
      paths_ignore ← mget config "paths-ignore" (VList []);
      tags ← mget config "tags" (VList []);
      tags_ignore ← mget config "tags-ignore" (VList []);
      mret (dict [("branches", branches); ("branches_ignore", branches_ignore);
                  ("paths", paths); ("paths_ignore", paths_ignore);
                  ("tags", tags); ("tags_ignore", tags_ignore)])
  end.

(** [PipelineParser._parse_pr_trigger] *)
Definition _parse_pr_trigger (config : value) : M value :=
  match config with
  | VNone => mret (dict [])
  | _ =>
      branches ← mget config "branches" (VList []);
      branches_ignore ← mget config "branches-ignore" (VList []);
      paths ← mget config "paths" (VList []);
      paths_ignore ← mget config "paths-ignore" (VList []);
      types ← mget config "types" (VList [VStr "opened"; VStr "synchronize"; VStr "reopened"]);
      mret (dict [("branches", branches); ("branches_ignore", branches_ignore);
                  ("paths", paths); ("paths_ignore", paths_ignore); ("types", types)])
  end.

(** [PipelineParser._validate_cron]: [expression.split()] needs a string. *)
Definition _validate_cron (expression : value) : result bool :=
  match expression with
  | VStr s =>
      let parts := count_fields false s in
      Return (Nat.eqb parts 5 || Nat.eqb parts 6)
  | _ => Raise AttributeError
  end.

(** The loop of [_parse_schedule_trigger]. *)
Fixpoint schedule_loop (config : list value) (schedules : list value) : M (list value) :=
  match config with
  | [] => mret schedules
  | item :: rest =>
      match item with
      | VDict d =>
          match lookup (KStr "cron") d with
          | Some cron =>
              ok ← lift (_validate_cron cron);
              if ok : bool then
                schedule_loop rest (schedules ++ [dict [("cron", cron)]])%list
              else
                append_error (InvalidCron (match cron with VStr s => s | _ => "" end));;
                schedule_loop rest schedules
          | None => schedule_loop rest schedules
          end
      | _ => schedule_loop rest schedules
      end
  end.

(** [PipelineParser._parse_schedule_trigger] *)
Definition _parse_schedule_trigger (config : value) : M value :=
  its ← lift (iterate config);
  schedules ← schedule_loop its [];
  mret (VList schedules).

(** The loop of [_parse_workflow_dispatch]. *)
Fixpoint inputs_loop (its : list (key * value)) (inputs : list (key * value))
  : M (list (key * value)) :=
  match its with
  | [] => mret inputs
  | (name, input_config) :: rest =>
      description ← mget input_config "description" (VStr "");
      required ← mget input_config "required" (VBool false);
      dflt ← mget input_config "default" VNone;
      type ← mget input_config "type" (VStr "string");
      options ← mget input_config "options" (VList []);
      inputs_loop rest
        (insert name (dict [("description", description); ("required", required);
                            ("default", dflt); ("type", type); ("options", options)])
                inputs)
  end.

(** [PipelineParser._parse_workflow_dispatch] *)
Definition _parse_workflow_dispatch (config : value) : M value :=
  match config with
  | VNone => mret (dict [("inputs", dict [])])
  | _ =>
      raw_inputs ← mget config "inputs" (dict []);
      its ← lift (items raw_inputs);
      inputs ← inputs_loop its [];
      mret (dict [("inputs", VDict inputs)])
  end.

(** The comprehension [{trigger: {} for trigger in on_config}]: every
    trigger has to be hashable. *)
Fixpoint trigger_comprehension (on_config : list value) (acc : list (key * value))
  : result (list (key * value)) :=
  match on_config with
  | [] => Return acc
  | trigger :: rest =>
      match key_of_value trigger with
      | None => Raise TypeError
      | Some k => trigger_comprehension rest (insert k (dict []) acc)
      end
  end.

(** [if key in on_config: triggers[key] = parse(on_config[key])] *)
Definition parse_present (on_config : list (key * value)) (k : string)
    (parse : value → M value) (triggers : list (key * value)) : M (list (key * value)) :=
  match lookup (KStr k) on_config with
  | Some v => r ← parse v; mret (insert (KStr k) r triggers)
  | None => mret triggers
  end.

(** [PipelineParser._parse_triggers] *)
Definition _parse_triggers (on_config : value) : M value :=
  match on_config with
  | VStr s => mret (VDict [(KStr s, dict [])])
  | VList l => lift (match trigger_comprehension l [] with
                     | Return d => Return (VDict d)
                     | Raise e => Raise e
                     end)
  | VDict d =>
      triggers ← parse_present d "push" _parse_push_trigger [];
      triggers ← parse_present d "pull_request" _parse_pr_trigger triggers;
      triggers ← parse_present d "schedule" _parse_schedule_trigger triggers;
      triggers ← parse_present d "workflow_dispatch" _parse_workflow_dispatch triggers;
      mret (VDict triggers)
  | _ => mret (dict [])
  end.

(** [PipelineParser._parse_concurrency] *)
Definition _parse_concurrency (config : value) : M value :=
  match config with
  | VStr _ => mret (dict [("group", config); ("cancel_in_progress", VBool false)])
  | VDict _ =>
      group ← mget config "group" (VStr "");
      cancel ← mget config "cancel-in-progress" (VBool false);
      mret (dict [("group", group); ("cancel_in_progress", cancel)])
  | _ => mret (dict [])
  end.

(** The dictionary built for a container or a service. *)
Definition container_fields (config : value) : M value :=
  image ← mget config "image" (VStr "");
  credentials ← mget config "credentials" (dict []);
  env ← mget config "env" (dict []);
  ports ← mget config "ports" (VList []);
  volumes ← mget config "volumes" (VList []);
  options ← mget config "options" (VStr "");
  mret (dict [("image", image); ("credentials", credentials); ("env", env);
              ("ports", ports); ("volumes", volumes); ("options", options)]).

(** [PipelineParser._parse_container] *)
Definition _parse_container (config : value) : M value :=
  match config with
  | VNone => mret (dict [])
  | VStr _ => mret (dict [("image", config)])
  | _ => container_fields config
  end.

(** [PipelineParser._parse_services] *)
Fixpoint services_loop (its : list (key * value)) (services : list (key * value))
  : M (list (key * value)) :=
  match its with
  | [] => mret services
  | (name, config) :: rest =>
      service ← container_fields config;
      services_loop rest (insert name service services)
  end.

Definition _parse_services (services_config : value) : M value :=
  its ← lift (items services_config);
  services ← services_loop its [];
  mret (VDict services).

(** [PipelineParser._parse_strategy] *)
Definition _parse_strategy (config : value) : M value :=
  if negb (truthy config) then mret (dict [])
  else
    fail_fast ← mget config "fail-fast" (VBool true);
    max_parallel ← mget config "max-parallel" VNone;
    matrix ← mget config "matrix" (dict []);
    if truthy matrix then
      include ← mget matrix "include" (VList []);
      exclude ← mget matrix "exclude" (VList []);
      its ← lift (items matrix);
      let variables :=
        List.filter (fun kv => negb (key_eqb kv.1 (KStr "include") || key_eqb kv.1 (KStr "exclude")))
                    its in
      mret (dict [("fail_fast", fail_fast); ("max_parallel", max_parallel);
                  ("matrix", dict [("include", include); ("exclude", exclude);
                                   ("variables", VDict variables)])])
    else
      mret (dict [("fail_fast", fail_fast); ("max_parallel", max_parallel);
                  ("matrix", dict [])]).

(** [PipelineParser._parse_step] *)
Definition _parse_step (index : nat) (config : value) : M value :=
  name ← mget config "name" (VStr ("Step " ++ pretty (index + 1)%nat));
  id ← mget config "id" (VStr "");
  run ← mget config "run" (VStr "");
  uses ← mget config "uses" (VStr "");
  with_ ← mget config "with" (dict []);
  env ← mget config "env" (dict []);
  working_directory ← mget config "working-directory" (VStr "");
  shell ← mget config "shell" (VStr "bash");
  condition ← mget config "if" (VStr "");
  continue_on_error ← mget config "continue-on-error" (VBool false);
  timeout_minutes ← mget config "timeout-minutes" (VInt 60);
  (if negb (truthy run) && negb (truthy uses)
   then append_error (StepWithoutRunOrUses (index + 1)) else mret tt);;
  (if truthy run && truthy uses
   then append_error (StepWithRunAndUses (index + 1)) else mret tt);;
  mret (dict [("name", name); ("id", id); ("run", run); ("uses", uses); ("with", with_);
              ("env", env); ("working_directory", working_directory); ("shell", shell);
              ("condition", condition); ("continue_on_error", continue_on_error);
              ("timeout_minutes", timeout_minutes);
              ("type", VStr (if truthy uses then "uses" else "run"))]).

(** [PipelineParser._parse_steps] *)
Fixpoint steps_loop (i : nat) (steps_config : list value) (steps : list value)
  : M (list value) :=
  match steps_config with
  | [] => mret steps
  | step_config :: rest =>
      step ← _parse_step i step_config;
      steps_loop (S i) rest (if truthy step then (steps ++ [step])%list else steps)
  end.

Definition _parse_steps (steps_config : value) : M value :=
  its ← lift (iterate steps_config);
  steps ← steps_loop 0 its [];
  mret (VList steps).

(** [PipelineParser._normalize_runs_on] and [PipelineParser._normalize_list] *)
Definition _normalize_list (v : value) : value :=
  match v with
  | VStr _ => VList [v]
  | VList _ => v
  | _ => VList []
  end.

Definition _normalize_runs_on (runs_on : value) : value := _normalize_list runs_on.

(** [PipelineParser._parse_job] *)
Definition _parse_job (job_key : string) (config : value) : M value :=
  name ← mget config "name" (VStr job_key);
  runs_on ← (r ← mget config "runs-on" (VList []); mret (_normalize_runs_on r));
  needs ← (n ← mget config "needs" (VList []); mret (_normalize_list n));
  condition ← mget config "if" (VStr "");
  container ← (c ← mget config "container" VNone; _parse_container c);
  services ← (s ← mget config "services" (dict []); _parse_services s);
  env ← mget config "env" (dict []);
  steps ← (s ← mget config "steps" (VList []); _parse_steps s);
  strategy ← (s ← mget config "strategy" (dict []); _parse_strategy s);
  timeout_minutes ← mget config "timeout-minutes" (VInt 60);
  outputs ← mget config "outputs" (dict []);
  (if negb (truthy runs_on) then append_error (MissingRunsOn job_key) else mret tt);;
  (if negb (truthy steps) then append_error (MissingSteps job_key) else mret tt);;
  mret (dict [("name", name); ("runs_on", runs_on); ("needs", needs);
              ("condition", condition); ("container", container); ("services", services);
              ("env", env); ("steps", steps); ("strategy", strategy);
              ("timeout_minutes", timeout_minutes); ("outputs", outputs)]).

(** [PipelineParser._validate_job_key]: [re.match] of
    [^[a-zA-Z_][a-zA-Z0-9_-]*$] needs a string; [$] also matches before a
    final newline. *)
Definition job_key_start (c : ascii) : bool :=
  let n := N_of_ascii c in
  ((65 <=? n) && (n <=? 90) || (97 <=? n) && (n <=? 122) || (n =? 95))%N.

Definition job_key_char (c : ascii) : bool :=
  PyRe.ascii_alnum c || Ascii.eqb c "_" || Ascii.eqb c "-".

Fixpoint job_key_tail (s : string) : bool :=
  match s with
  | EmptyString => true
  | String c EmptyString => job_key_char c || Ascii.eqb c PyRe.newline
  | String c s' => job_key_char c && job_key_tail s'
  end.

Definition _validate_job_key (k : key) : result bool :=
  match k with
  | KStr (String c s) => Return (job_key_start c && job_key_tail s)
  | KStr EmptyString => Return false
  | _ => Raise TypeError
  end.

(** The loop of [_parse_jobs]. *)
Fixpoint jobs_loop (its : list (key * value)) (jobs : list (key * value))
  : M (list (key * value)) :=
  match its with
  | [] => mret jobs
  | (job_key, job_config) :: rest =>
      ok ← lift (_validate_job_key job_key);
      if ok : bool then
        job ← _parse_job (match job_key with KStr s => s | _ => "" end) job_config;
        jobs_loop rest (insert job_key job jobs)
      else
        append_error (InvalidJobKey (match job_key with KStr s => s | _ => "" end));;
        jobs_loop rest jobs
  end.

(** [job['needs']] of a parsed job, and [jobs.get(k, {}).get('needs', [])] *)
Definition needs_of (job : value) : list value :=
  match job with
  | VDict d => match lookup (KStr "needs") d with Some (VList l) => l | _ => [] end
  | _ => []
  end.

(** [k in s] for a set of keys *)
Definition mem (k : key) (s : list key) : bool := existsb (key_eqb k) s.

(** The first loop of [_validate_job_dependencies]; [needed_job not in
    job_keys] hashes the needed job. *)
Fixpoint needs_loop (job_keys : list key) (job_key : key) (needs : list value) : M unit :=
  match needs with
  | [] => mret tt
  | needed_job :: rest =>
      match key_of_value needed_job with
      | None => lift (Raise TypeError)
      | Some n =>
          (if negb (mem n job_keys) then append_error (MissingDependency job_key n)
           else mret tt);;
          needs_loop job_keys job_key rest
      end
  end.

Fixpoint dependencies_loop (job_keys : list key) (jobs : list (key * value)) : M unit :=
  match jobs with
  | [] => mret tt
  | (job_key, job) :: rest =>
      needs_loop job_keys job_key (needs_of job);;
      dependencies_loop job_keys rest
  end.

Section Recursion.

(** How many nested calls of [has_cycle] the interpreter allows before it
    raises [RecursionError]. *)
Variable recursion_limit : nat.

(** [has_cycle] inside [_check_circular_dependencies]: the answer with the
    sets [visited] and [rec_stack] after the call.  [depth] counts the
    nested calls that are still allowed. *)
Fixpoint has_cycle (depth : nat) (jobs : list (key * value)) (job_key : key)
    (visited rec_stack : list key) : result (bool * list key * list key) :=
  match depth with
  | O => Raise RecursionError
  | S depth' =>
      (fix loop (deps : list value) (visited rec_stack : list key) :=
         match deps with
         | [] => Return (false, visited, List.filter (fun k => negb (key_eqb job_key k)) rec_stack)
         | dep :: rest =>
             match key_of_value dep with
             | None => Raise TypeError
             | Some d =>
                 if negb (mem d visited) then
                   match has_cycle depth' jobs d visited rec_stack with
                   | Raise e => Raise e
                   | Return (true, v, r) => Return (true, v, r)
                   | Return (false, v, r) => loop rest v r
                   end
                 else if mem d rec_stack then Return (true, visited, rec_stack)
                 else loop rest visited rec_stack
             end
         end)
        (needs_of (default (dict []) (lookup job_key jobs)))
        (job_key :: visited) (job_key :: rec_stack)
  end.

(** The loop of [_check_circular_dependencies] over the job keys. *)
Fixpoint cycle_loop (jobs : list (key * value)) (job_keys : list key)
    (visited rec_stack : list key) : M unit :=
  match job_keys with
  | [] => mret tt
  | job_key :: rest =>
      if negb (mem job_key visited) then
        r ← lift (has_cycle recursion_limit jobs job_key visited rec_stack);
        let '(found, visited, rec_stack) := r in
        if found : bool then append_error CircularDependency
        else cycle_loop jobs rest visited rec_stack
      else cycle_loop jobs rest visited rec_stack
  end.

(** [PipelineParser._check_circular_dependencies] *)
Definition _check_circular_dependencies (jobs : list (key * value)) : M unit :=
  cycle_loop jobs jobs.*1 [] [].

(** [PipelineParser._validate_job_dependencies] *)
Definition _validate_job_dependencies (jobs : list (key * value)) : M unit :=
  dependencies_loop jobs.*1 jobs;;
  _check_circular_dependencies jobs.

(** [PipelineParser._parse_jobs] *)
Definition _parse_jobs (jobs_config : value) : M value :=
  if negb (truthy jobs_config) then mret (dict [])
  else
    its ← lift (items jobs_config);
    jobs ← jobs_loop its [];
    _validate_job_dependencies jobs;;
    mret (VDict jobs).

(** [PipelineParser._parse_config] *)
Definition _parse_config (raw : value) : M value :=
  name ← mget raw "name" (VStr "Unnamed Pipeline");
  on ← (o ← mget raw "on" (dict []); _parse_triggers o);
  env ← mget raw "env" (dict []);
  defaults ← mget raw "defaults" (dict []);
  concurrency ← (c ← mget raw "concurrency" (dict []); _parse_concurrency c);
  jobs ← (j ← mget raw "jobs" (dict []); _parse_jobs j);
  (if negb (truthy jobs) then append_error NoJobs else mret tt);;
  mret (dict [("name", name); ("on", on); ("env", env); ("defaults", defaults);
              ("concurrency", concurrency); ("jobs", jobs)]).

(** What [yaml.safe_load] did with the document. *)
Inductive loaded :=
| YAMLError (msg : string)
| Loaded (raw_config : value).

(** [PipelineParser.parse] after the call of [yaml.safe_load] *)
Definition parse (l : loaded) : result (value * list error) :=
  match l with
  | YAMLError msg => Return (dict [], [YamlSyntaxError msg])
  | Loaded raw_config =>
      match raw_config with
      | VDict _ => _parse_config raw_config []
      | _ => Return (dict [], [NotAnObject])
      end
  end.

End Recursion.

(** The document [jobs: {build: echo hi}]: the job is a string. *)
Definition job_is_string : value :=
  dict [("jobs", dict [("build", VStr "echo hi")])].

(** The document ['on': {push: main}] with a well-formed job: the push
    trigger is a string. *)
Definition good_job : value :=
  dict [("runs-on", VStr "ubuntu"); ("steps", VList [dict [("run", VStr "make")]])].

Definition push_is_string : value :=
  dict [("on", dict [("push", VStr "main")]); ("jobs", dict [("build", good_job)])].

(** A well-formed document. *)
Definition small_pipeline : value :=
  dict [("name", VStr "ci");
        ("on", dict [("push", dict [("branches", VList [VStr "main"])])]);
        ("jobs", dict [("build", good_job);
                       ("test", dict [("runs-on", VStr "ubuntu"); ("needs", VStr "build");
                                      ("steps", VList [dict [("uses", VStr "a/b@v1")]])])])].

(** Scenario S5: two jobs that need each other. *)
Definition cyclic_pipeline : value :=
  dict [("jobs", dict [("a", dict [("runs-on", VStr "x"); ("needs", VList [VStr "b"]);
                                   ("steps", VList [dict [("run", VStr "true")]])]);
                       ("b", dict [("runs-on", VStr "x"); ("needs", VList [VStr "a"]);
                                   ("steps", VList [dict [("run", VStr "true")]])])])].

End Parser.

(** ** Path patterns without wildcards *)

Module PathGlob.

(** The pattern has none of the characters that [fnmatch] reads as a
    wildcard or as the start of a class. *)
Fixpoint wildcard_free (s : string) : bool :=
  match s with
  | EmptyString => true
  | String c s' =>
      negb (Ascii.eqb c "*" || Ascii.eqb c "?" || Ascii.eqb c "[") && wildcard_free s'
  end.

(** The expression of a pattern without wildcards: its characters. *)
Fixpoint literal_items (s : string) : list PyRe.item :=
  match s with
  | EmptyString => []
  | String c s' => PyRe.One (PyRe.Lit c) :: literal_items s'
  end.

End PathGlob.

(** ** Trigger matching on loaded configurations (apps/pipelines/matcher.py)

    The parser stores the filters of a trigger as the document has them, so
    the matcher can meet any value where it expects a list of patterns.
    Here the matcher works on values and raises where the interpreter
    does.  Path patterns go to [fnmatch.fnmatch] and, unescaped, to
    [re.match]; both are taken as they are, as parameters, so that the
    matcher is defined for every pattern. *)

Module Matching.
Import Py Events.

Definition bind {A B} (m : result A) (f : A → result B) : result B :=
  match m with
  | Return a => f a
  | Raise e => Raise e
  end.

Notation "'let*' x ':=' m 'in' k" := (bind m (fun x => k))
  (at level 10, x name, m at level 100, k at level 200).

(** [v is True] *)
Definition is_True (v : value) : bool :=
  match v with VBool true => true | _ => false end.

(** [x in container] for a string [x]: an equal element of a list, a key
    of a dictionary, a substring of a string; nothing else is a
    container. *)
Definition str_in (x : string) (container : value) : result bool :=
  match container with
  | VList l => Return (existsb (py_eq (VStr x)) l)
  | VDict d => Return (existsb (key_eqb (KStr x)) d.*1)
  | VStr s => Return (PyStr.contains x s)
  | _ => Raise TypeError
  end.

(** [PipelineMatcher._matches_pattern].  A pattern that is no string is not
    equal to the value, and [re.escape] raises on it.  For a string, the
    [re.error] branch of the source answers false. *)
Definition _matches_pattern (value : string) (pattern : Py.value) : result bool :=
  match pattern with
  | VStr p => Return (default false (Matcher._matches_pattern value p))
  | _ => Raise TypeError
  end.

(** The loop [for pattern in patterns: if f(pattern): return True], then
    [return False]. *)
Fixpoint first_match (f : value → result bool) (patterns : list value) : result bool :=
  match patterns with
  | [] => Return false
  | pattern :: rest =>
      let* m := f pattern in
      if m : bool then Return true else first_match f rest
  end.

(** [PipelineMatcher._matches_pattern_list] *)
Definition _matches_pattern_list (value : string) (patterns : Py.value) : result bool :=
  let* patterns := iterate patterns in
  first_match (_matches_pattern value) patterns.

(** [all(f(x) for x in l)] and [any(f(x) for x in l)]: both stop at the
    first element that decides the result. *)
Fixpoint py_all {A} (f : A → result bool) (l : list A) : result bool :=
  match l with
  | [] => Return true
  | x :: l' => let* b := f x in if b : bool then py_all f l' else Return false
  end.

Fixpoint py_any {A} (f : A → result bool) (l : list A) : result bool :=
  match l with
  | [] => Return false
  | x :: l' => let* b := f x in if b : bool then Return true else py_any f l'
  end.

(** [PipelineMatcher._matches_tag_push] *)
Definition _matches_tag_push (event : PushEvent) (config : value) : result bool :=
  match tag event with
  | None => Return false
  | Some tag =>
      if PyStr.falsy tag then Return false
      else
        let* tags := get config "tags" (VList []) in
        let* tags_ignore := get config "tags_ignore" (VList []) in
        let* ign := (if truthy tags_ignore then _matches_pattern_list tag tags_ignore
                     else Return false) in
        if ign : bool then Return false
        else
          let* miss := (if truthy tags
                        then let* m := _matches_pattern_list tag tags in Return (negb m)
                        else Return false) in
          if miss : bool then Return false
          else if negb (truthy tags) then Return false
          else Return true
  end.

(** [PipelineMatcher.matches_pull_request] *)
Definition default_types : value :=
  VList [VStr "opened"; VStr "synchronize"; VStr "reopened"].

Definition matches_pull_request (triggers : value) (event : PullRequestEvent) : result bool :=
  let* pr_config := get triggers "pull_request" VNone in
  match pr_config with
  | VNone => Return false
  | _ =>
      let pr_config :=
        if py_eq pr_config (VDict []) || is_True pr_config
        then VDict [(KStr "types", default_types)]
        else pr_config in
      let* types := get pr_config "types" default_types in
      let* listed := str_in (action event) types in
      if negb listed then Return false
      else
        let* branches := get pr_config "branches" (VList []) in
        let* branches_ignore := get pr_config "branches_ignore" (VList []) in
        let base_branch := base_branch event in
        let* ign := (if truthy branches_ignore
                     then _matches_pattern_list base_branch branches_ignore
                     else Return false) in
        if ign : bool then Return false
        else
          let* miss := (if truthy branches
                        then let* m := _matches_pattern_list base_branch branches in
                             Return (negb m)
                        else Return false) in
          if miss : bool then Return false else Return true
  end.

(** [PipelineMatcher.__init__]: [self.triggers = parsed_config.get('on', {})] *)
Definition PipelineMatcher (parsed_config : value) : result value :=
  get parsed_config "on" (VDict []).

Section Library.

(** [fnmatch.fnmatch(name, pat)] and [bool(re.match(regex, s))] on two
    strings: the answer, or the exception that the library raises.  For
    [re.match] the answer [None] stands for [re.error], which the source
    catches; another exception (a repetition count or a nesting beyond the
    limits of the engine) is one that it does not catch. *)
Variable fnmatch : string → string → result bool.
Variable re_match : string → string → result (option bool).

(** [PipelineMatcher._matches_path_pattern].  On a pattern that is no
    string [fnmatch.fnmatch] raises. *)
Definition _matches_path_pattern (path : string) (pattern : value) : result bool :=
  match pattern with
  | VStr pattern =>
      let* m := fnmatch path pattern in
      if m : bool then Return true
      else if PyStr.contains "**" pattern then
        let regex_pattern := PyStr.replace "." "\." pattern in
        let regex_pattern := PyStr.replace "**" ".*" regex_pattern in
        let regex_pattern := PyStr.replace "*" "[^/]*" regex_pattern in
        let regex_pattern := "^" ++ regex_pattern ++ "$" in
        let* m := re_match regex_pattern path in
        match m with
        | Some m => Return m
        | None => Return false
        end
      else Return false
  | _ => Raise TypeError
  end.

(** [PipelineMatcher._matches_path_pattern_list] *)
Definition _matches_path_pattern_list (path : string) (patterns : value) : result bool :=
  let* patterns := iterate patterns in
  first_match (_matches_path_pattern path) patterns.

(** [PipelineMatcher._matches_branch_push] *)
Definition _matches_branch_push (event : PushEvent) (config : value) : result bool :=
  let branch := branch event in
  let* branches := get config "branches" (VList []) in
  let* branches_ignore := get config "branches_ignore" (VList []) in
  let* ign := (if truthy branches_ignore then _matches_pattern_list branch branches_ignore
               else Return false) in
  if ign : bool then Return false
  else
    let* miss := (if truthy branches
                  then let* m := _matches_pattern_list branch branches in Return (negb m)
                  else Return false) in
    if miss : bool then Return false
    else
      let* paths := get config "paths" (VList []) in
      let* paths_ignore := get config "paths_ignore" (VList []) in
      if truthy paths || truthy paths_ignore then
        let changed_files := changed_files event in
        let* ignored :=
          (if truthy paths_ignore then
             let* all_ignored :=
               py_all (fun f => _matches_path_pattern_list f paths_ignore) changed_files in
             Return (all_ignored && negb (Matcher.is_nil changed_files))
           else Return false) in
        if ignored : bool then Return false
        else if truthy paths then
          py_any (fun f => _matches_path_pattern_list f paths) changed_files
        else Return true
      else Return true.

(** [PipelineMatcher.matches_push] *)
Definition matches_push (triggers : value) (event : PushEvent) : result bool :=
  let* push_config := get triggers "push" VNone in
  match push_config with
  | VNone => Return false
  | _ =>
      if py_eq push_config (VDict []) || is_True push_config then Return true
      else if is_tag event then _matches_tag_push event push_config
      else _matches_branch_push event push_config
  end.

End Library.

End Matching.

(** ** The push and pull_request algorithms on typed filters *)

Module MatchingSpec.
Import Py Events.

(** A list of strings, read off a value. *)
Fixpoint strings_of_list (l : list value) : option (list string) :=
  match l with
  | [] => Some []
  | VStr s :: l' => cons s <$> strings_of_list l'
  | _ => None
  end.

Definition strings_of (v : value) : option (list string) :=
  match v with
  | VList l => strings_of_list l
  | _ => None
  end.

(** The filter [k] of the mapping [d] is absent or a list of strings. *)
Definition filter_typed (d : list (key * value)) (k : string) : bool :=
  match lookup (KStr k) d with
  | None => true
  | Some v => match strings_of v with Some _ => true | None => false end
  end.

(** The patterns of the filter [k]: none when the filter is absent. *)
Definition patterns (d : list (key * value)) (k : string) : list string :=
  default [] (lookup (KStr k) d ≫= strings_of).

(** The trigger [name] is absent, null, [True], or a mapping whose filters
    [filters] are lists of strings where they are present. *)
Definition trigger_typed (name : string) (filters : list string) (triggers : value) : bool :=
  match triggers with
  | VDict t =>
      match lookup (KStr name) t with
      | None | Some VNone | Some (VBool true) => true
      | Some (VDict d) => forallb (filter_typed d) filters
      | Some _ => false
      end
  | _ => false
  end.

Definition push_typed : value → bool :=
  trigger_typed "push"
    ["branches"; "branches_ignore"; "tags"; "tags_ignore"; "paths"; "paths_ignore"].

Definition pull_request_typed : value → bool :=
  trigger_typed "pull_request" ["types"; "branches"; "branches_ignore"].

(** The filters of the trigger [name]: [True] carries none; an absent or
    null trigger is no trigger. *)
Definition trigger_filters (name : string) (triggers : value) : option (list (key * value)) :=
  match triggers with
  | VDict t =>
      match lookup (KStr name) t with
      | Some (VBool true) => Some []
      | Some (VDict d) => Some d
      | _ => None
      end
  | _ => None
  end.

(** The action types of a pull_request trigger. *)
Definition pr_types (d : list (key * value)) : list string :=
  match lookup (KStr "types") d with
  | None => ["opened"; "synchronize"; "reopened"]
  | Some v => default [] (strings_of v)
  end.

(** The expression that [_matches_path_pattern] builds from a pattern with
    two stars. *)
Definition path_expression (pattern : string) : string :=
  "^" ++ PyStr.replace "*" "[^/]*" (PyStr.replace "**" ".*" (PyStr.replace "." "\." pattern))
  ++ "$".

Section Library.
Variable fnmatch : string → string → result bool.
Variable re_match : string → string → result (option bool).

(** The exception [e] is one that the pattern library raises on a changed
    file of the push and a path pattern of the push trigger. *)
Definition library_raises (triggers : value) (event : PushEvent) (e : exn) : Prop :=
  ∃ d k p f,
    trigger_filters "push" triggers = Some d
    ∧ (k = "paths" ∨ k = "paths_ignore") ∧ p ∈ patterns d k
    ∧ f ∈ changed_files event
    ∧ (fnmatch f p = Raise e ∨ re_match (path_expression p) f = Raise e).

(** The exception [e] is one that matching a changed file of the push
    against a path pattern of the filters [d] raises. *)
Definition raised_on_paths (event : PushEvent) (d : list (key * value)) (e : exn) : Prop :=
  ∃ k p f, (k = "paths" ∨ k = "paths_ignore") ∧ p ∈ patterns d k
    ∧ f ∈ changed_files event
    ∧ Matching._matches_path_pattern fnmatch re_match f (VStr p) = Raise e.

(** "[patterns] matches [path]": some pattern of the list matches. *)
Definition path_matches (path : string) (patterns : list string) : bool :=
  existsb (fun p =>
             match Matching._matches_path_pattern fnmatch re_match path (VStr p) with
             | Return m => m
             | Raise _ => false
             end) patterns.

(** The path filters stop a push when [paths_ignore] is given, there is a
    changed file and every changed file matches it, or when [paths] is given
    and no changed file matches. *)
Definition path_step_blocks (event : PushEvent) (d : list (key * value)) : bool :=
  let files := changed_files event in
  let paths := patterns d "paths" in
  let paths_ignore := patterns d "paths_ignore" in
  (negb (Matcher.is_nil paths_ignore) && negb (Matcher.is_nil files)
     && forallb (fun f => path_matches f paths_ignore) files)
  || (negb (Matcher.is_nil paths) && negb (existsb (fun f => path_matches f paths) files)).

(** The tag filters let a tag push through. *)
Definition tag_step_passes (event : PushEvent) (d : list (key * value)) : bool :=
  negb (MatcherSpec.ref_matches (MatcherSpec.tag_name event) (patterns d "tags_ignore"))
  && negb (Matcher.is_nil (patterns d "tags"))
  && MatcherSpec.ref_matches (MatcherSpec.tag_name event) (patterns d "tags").

(** The branch filters let a push through. *)
Definition branch_step_passes (event : PushEvent) (d : list (key * value)) : bool :=
  negb (MatcherSpec.ref_matches (branch event) (patterns d "branches_ignore"))
  && (Matcher.is_nil (patterns d "branches")
      || MatcherSpec.ref_matches (branch event) (patterns d "branches")).

(** The algorithm as the specification words it: false without a push
    trigger; true for the trigger [True] or an empty one; then the tag
    filters for a tag ref and the branch filters for a branch ref; and the
    path step after either. *)
Definition claimed_push_algorithm (triggers : value) (event : PushEvent) : bool :=
  match trigger_filters "push" triggers with
  | None => false
  | Some d =>
      if Matcher.is_nil d then true
      else
        (if is_tag event then tag_step_passes event d else branch_step_passes event d)
        && negb (path_step_blocks event d)
  end.

(** The algorithm of the code: a tag push is decided by the tag filters
    alone and needs a non-empty tag name; the path step belongs to the
    other pushes only. *)
Definition push_algorithm (triggers : value) (event : PushEvent) : bool :=
  match trigger_filters "push" triggers with
  | None => false
  | Some d =>
      if Matcher.is_nil d then true
      else if is_tag event then
        negb (PyStr.falsy (MatcherSpec.tag_name event)) && tag_step_passes event d
      else
        branch_step_passes event d && negb (path_step_blocks event d)
  end.

End Library.

(** The pattern libraries as far as [PyRe] has them; outside, no match. *)
Definition modelled_fnmatch (name pat : string) : result bool :=
  Return (default false (PyRe.fnmatch name pat)).

Definition modelled_re_match (regex s : string) : result (option bool) :=
  Return (Some (default false (PyRe.re_match regex s))).

(** The triggers [tags: [v*]], [paths: [src/**]] as the parser stores
    them. *)
Definition tag_with_paths_triggers : value :=
  VDict [(KStr "push",
          VDict [(KStr "tags", VList [VStr "v*"]); (KStr "paths", VList [VStr "src/**"])])].

(** The triggers [branches: [main]], [paths: [src/**]]. *)
Definition main_src_triggers : value :=
  VDict [(KStr "push",
          VDict [(KStr "branches", VList [VStr "main"]);
                 (KStr "paths", VList [VStr "src/**"])])].

(** A tag filter that holds a number. *)
Definition number_tag_triggers : value :=
  VDict [(KStr "push", VDict [(KStr "tags", VList [VInt 1])])].

(** A pull_request trigger whose types are one string, not a list. *)
Definition string_types_triggers : value :=
  VDict [(KStr "pull_request", VDict [(KStr "types", VStr "reopened")])].

Definition pr_of (act base : string) : PullRequestEvent :=
  {| action := act; number := 1; title := ""; head_sha := ""; head_branch := "";
     base_branch := base; head_repo := ""; base_repo := "";
     pr_repository_full_name := ""; pr_sender_login := "" |}.

(** A pull_request trigger for the branches [main] and [release/*]. *)
Definition release_triggers : value :=
  VDict [(KStr "pull_request",
          VDict [(KStr "branches", VList [VStr "main"; VStr "release/*"])])].

End MatchingSpec.

(** ** The matcher as the webhook view calls it *)

Module ViewMatcher.
Import Py Events Matching WebhookView.

Section Library.
Variable fnmatch : string → string → result bool.
Variable re_match : string → string → result (option bool).

(** [PipelineMatcher(config.parsed_config).matches_push(event)] *)
Definition push_matcher (config : PipelineConfig) (event : PushEvent) : result bool :=
  let* triggers := PipelineMatcher (parsed_config config) in
  matches_push fnmatch re_match triggers event.

(** [PipelineMatcher(config.parsed_config).matches_pull_request(event)] *)
Definition pull_request_matcher (config : PipelineConfig) (event : PullRequestEvent)
  : result bool :=
  let* triggers := PipelineMatcher (parsed_config config) in
  matches_pull_request triggers event.

End Library.

End ViewMatcher.

(** ** The uniqueness constraint on execution numbers *)

Module ExecutionTable.
Import Executions.

(** [unique_together = ['pipeline', 'number']] holds in the table. *)
Definition unique_numbers (table : list Execution) : Prop :=
  NoDup ((fun e => (pipeline e, number e)) <$> table).

End ExecutionTable.

(** ** What the webhook view's creation steps leave behind *)

Module WebhookSpec.
Import Executions WebhookView.

(** The tables [d'] are the tables [d] with the one pending execution [e]
    of pipeline [p] appended, numbered one above the pipeline's largest. *)
Definition created_by (d d' : db) (p : Pipeline) (e : Execution) : Prop :=
  configs d' = configs d
  ∧ executions d' = (executions d ++ [e])%list
  ∧ Executions.pipeline e = pipeline_id p
  ∧ status e = "pending"
  ∧ number e = max_plus_one (executions d) (pipeline_id p).

End WebhookSpec.

(** ** Combinations of the base product *)

Module MatrixSpec.
Import Matrix.

(** The combination gives each declared variable, in declaration order, one
    of its declared values. *)
Definition assigns {V} (comb : combination V) (vars : list (string * list V)) : Prop :=
  Forall2 (fun kv var => kv.1 = var.1 ∧ kv.2 ∈ var.2) comb vars.

End MatrixSpec.

(** ** Signature check against the pipelines of a repository
       (apps/webhooks/views.py) *)

Module WebhookAuth.
Import Py Signature WebhookView.

Section Verify.

Variable hmac_sha256 : list Byte.byte → list Byte.byte → list Byte.byte.
Variable settings_secret : string.

(** The loop of [_verify_signature_for_pipelines]: the first pipeline with a
    secret that validates the signature. *)
Fixpoint verify_loop (raw_body : list Byte.byte) (signature : string)
    (pipelines : list Pipeline) : result (option Pipeline) :=
  match pipelines with
  | [] => Return None
  | pipeline :: rest =>
      let secret := webhook_secret pipeline in
      if PyStr.falsy secret then verify_loop raw_body signature rest
      else
        match verify_github_signature hmac_sha256 settings_secret raw_body
                (Some signature) (Some secret) with
        | Raise e => Raise e
        | Return true => Return (Some pipeline)
        | Return false => verify_loop raw_body signature rest
        end
  end.

(** [GitHubWebhookView._verify_signature_for_pipelines] *)
Definition _verify_signature_for_pipelines (raw_body : list Byte.byte) (signature : string)
    (pipelines : list Pipeline) : result (option Pipeline) :=
  match verify_loop raw_body signature pipelines with
  | Raise e => Raise e
  | Return (Some pipeline) => Return (Some pipeline)
  | Return None =>
      let has_secrets := existsb (fun p => negb (PyStr.falsy (webhook_secret p))) pipelines in
      if negb has_secrets then Return (head pipelines)
      else Return None
  end.

(** The header that GitHub sends for a body signed with [secret]. *)
Definition expected_header (secret : string) (raw_body : list Byte.byte) : string :=
  SIGNATURE_PREFIX ++ hex (hmac_sha256 (encode_utf8 secret) raw_body).

(** The pipeline has a secret and the signature is the header for it. *)
Definition accepts (raw_body : list Byte.byte) (signature : string) (p : Pipeline) : bool :=
  negb (PyStr.falsy (webhook_secret p))
  && String.eqb signature (expected_header (webhook_secret p) raw_body).

End Verify.

(** Two pipelines of one repository, only the second with a secret. *)
Definition open_pipeline : Pipeline :=
  {| pipeline_id := 7; pipeline_tenant := 1; pipeline_name := "build"; webhook_secret := "" |}.
Definition signed_pipeline : Pipeline :=
  {| pipeline_id := 8; pipeline_tenant := 1; pipeline_name := "deploy"; webhook_secret := "s" |}.

End WebhookAuth.

(** ** Cancelling an execution (apps/executions/views.py) *)

Module ExecutionViews.
Import Py Executions Runner.

(** What the cancel endpoint does: a 400 answer, the updated tables with a
    200 answer, or the error of a [save] that finds no row to update. *)
Inductive cancel_outcome :=
| Cancel400
| Cancel200 (table : list Execution) (jobs : list Job)
| CancelDatabaseError.

Definition active (status : string) : bool :=
  in_strings status ["pending"; "queued"; "running"].

(** [execution.save(update_fields=['status', 'finished_at'])] on the row of
    the table with the execution's identifier *)
Definition save_cancelled (now : N) (e : Execution) : Execution :=
  {| id := id e; tenant := tenant e; pipeline := pipeline e;
     pipeline_config := pipeline_config e; number := number e;
     trigger_type := trigger_type e; trigger_info := trigger_info e;
     status := "cancelled"; inputs := inputs e; environment := environment e;
     triggered_by := triggered_by e; finished_at := Some now |}.

(** [.update(status=Job.Status.CANCELLED, finished_at=timezone.now())] on a job *)
Definition cancel_job (now : N) (j : Job) : Job :=
  {| job_id := job_id j; job_execution := job_execution j; job_status := "cancelled";
     job_started_at := job_started_at j; job_finished_at := Some now;
     job_outputs := job_outputs j |}.

(** [ExecutionViewSet.cancel] for the execution that the lookup found;
    [now] and [now'] are the two readings of the clock. *)
Definition cancel (table : list Execution) (jobs : list Job) (execution : Execution)
    (now now' : N) : cancel_outcome :=
  if negb (in_strings (status execution) ["pending"; "queued"; "running"]) then Cancel400
  else if negb (existsb (fun e => N.eqb (id e) (id execution)) table) then CancelDatabaseError
  else
    Cancel200
      ((fun e => if N.eqb (id e) (id execution) then save_cancelled now e else e) <$> table)
      ((fun j => if N.eqb (job_execution j) (id execution)
                    && in_strings (job_status j) ["pending"; "queued"; "running"]
                 then cancel_job now' j else j) <$> jobs).

(** The execution numbers of the pipeline are 1 to their count: no
    execution of the pipeline was ever deleted. *)
Definition dense (table : list Execution) (p : N) : Prop :=
  number <$> of_pipeline table p ≡ₚ N.of_nat <$> seq 1 (length (of_pipeline table p)).

End ExecutionViews.

(** ** Manual trigger and configuration update (apps/pipelines/views.py) *)

Module PipelineViews.
Import Py Executions WebhookView.

Inductive trigger_response :=
| Trigger400
| Trigger201 (execution_id number : N) (status : string).

(** [PipelineViewSet.trigger] for the pipeline that the lookup found and
    the validated request data ([branch], [inputs], [environment]). *)
Definition trigger (now : N) (d : db) (pipeline : Pipeline) (request_tenant user : N)
    (username branch : string) (request_inputs request_environment : value) (new_id : N)
  : outcome trigger_response :=
  match get_latest_config d pipeline with
  | None => Done Trigger400 d
  | Some config =>
      if negb (is_valid config) then Done Trigger400 d
      else
        let execution :=
          {| id := new_id;
             tenant := request_tenant;
             Executions.pipeline := pipeline_id pipeline;
             pipeline_config := Some (config_id config);
             number := N.of_nat (length (of_pipeline (executions d) (pipeline_id pipeline))) + 1;
             trigger_type := "manual";
             trigger_info := [("user_id", VInt (Z.of_N user)); ("username", VStr username);
                              ("branch", VStr branch)];
             status := "pending";
             inputs := request_inputs;
             environment := request_environment;
             triggered_by := Some user;
             finished_at := None |} in
        match create (executions d) execution with
        | Raise e => Failed e
        | Return table =>
            Done (Trigger201 (id execution) (number execution) (status execution))
                 {| configs := configs d; executions := table;
                    last_execution_at := <[pipeline_id pipeline := now]> (last_execution_at d) |}
        end
  end.

Inductive update_response :=
| Update400
| Update201 (config : PipelineConfig).

(** [pipeline.configs.order_by('-version').first()]: the configuration of
    the pipeline with the largest version, valid or not. *)
Definition last_version (d : db) (p : Pipeline) : option N :=
  match version <$> List.filter (fun c => N.eqb (config_pipeline c) (pipeline_id p)) (configs d) with
  | [] => None
  | v :: vs => Some (foldr N.max v vs)
  end.

Section Update.

(** [parse_pipeline_yaml]: the parsed configuration and the errors, or
    the exception that the parser raises. *)
Variable parse_pipeline_yaml : string → result (value * list Parser.error).

(** [PipelineViewSet.update_config]; [yaml_content] is
    [request.data.get('config_yaml')]. *)
Definition update_config (d : db) (pipeline : Pipeline) (yaml_content : option string)
    (new_id : N) : outcome update_response :=
  match yaml_content with
  | None => Done Update400 d
  | Some yaml_content =>
      if PyStr.falsy yaml_content then Done Update400 d
      else
        match parse_pipeline_yaml yaml_content with
        | Raise e => Failed e
        | Return (parsed, errors) =>
            let next_version :=
              match last_version d pipeline with
              | Some v => (v + 1)%N
              | None => 1%N
              end in
            let config :=
              {| config_id := new_id; config_pipeline := pipeline_id pipeline;
                 version := next_version; parsed_config := parsed;
                 is_valid := Nat.eqb (length errors) 0 |} in
            if existsb (fun c => N.eqb (config_pipeline c) (config_pipeline config)
                                 && N.eqb (version c) (version config)) (configs d)
            then Failed IntegrityError
            else
              Done (Update201 config)
                   {| configs := (configs d ++ [config])%list; executions := executions d;
                      last_execution_at := last_execution_at d |}
        end
  end.

End Update.

End PipelineViews.

(** ** Job dependencies (apps/executions/models.py) *)

Module JobDependencies.

Record Job := {
  job_id : N;
  job_execution : N;
  job_key : string;
  needs : list string;
  job_status : string;
}.

(** [Job.check_dependencies_satisfied] *)
Definition check_dependencies_satisfied (table : list Job) (self : Job) : bool :=
  if Matcher.is_nil (needs self) then true
  else
    let dependent_jobs :=
      List.filter (fun j => N.eqb (job_execution j) (job_execution self)
                            && existsb (String.eqb (job_key j)) (needs self)) table in
    forallb (fun job => String.eqb (job_status job) "success") dependent_jobs.

End JobDependencies.

(** ** The steps in the scope of a log subscription *)

Module LogScope.
Import Logs.

(** The step is one that [get_existing_logs] selects: with a job in the
    route, a step of that job; without, a step of a job of the execution. *)
Definition in_scope (t : tables) (self : LogConsumer) (s : Step) : Prop :=
  match self_job_id self with
  | Some j => step_job s = j
  | None =>
      ∃ job, job ∈ jobs t ∧ job_execution job = self_execution_id self
             ∧ job_id job = step_job s
  end.

(** The chunk is logged by a step that [get_existing_logs] selects. *)
Definition chunk_in_scope (t : tables) (self : LogConsumer) (c : LogChunk) : Prop :=
  ∃ s, s ∈ steps t ∧ step_id s = chunk_step c ∧ in_scope t self s.

(** A row of the query: a chunk with the step that logged it, which is a
    step that [get_existing_logs] selects. *)
Definition row_in_scope (t : tables) (self : LogConsumer) (x : joined) : Prop :=
  x.1 ∈ steps t ∧ step_id x.1 = chunk_step x.2 ∧ in_scope t self x.1.

End LogScope.

(** ** The log buffer (apps/logs/models.py) *)

Module LogBuffer.

(** A log entry: a dictionary with the keys [step_id], [chunk_number],
    [content], [timestamp] and, optionally, [level]. *)
Record entry := {
  entry_step_id : N;
  entry_chunk_number : N;
  entry_content : string;
  entry_level : option string;
  entry_timestamp : N;
}.

(** The row built for an entry by [flush]. *)
Definition chunk_of (e : entry) : Logs.LogChunk :=
  {| Logs.chunk_step := entry_step_id e;
     Logs.chunk_number := entry_chunk_number e;
     Logs.content := entry_content e;
     Logs.level := default "info" (entry_level e);
     Logs.timestamp := entry_timestamp e |}.

(** The buffer, and the batches handed to [bulk_create] so far (oldest
    first). *)
Record LogBuffer := {
  buffer : list entry;
  flush_size : Z;
  written : list (list Logs.LogChunk);
}.

(** [LogBuffer.__init__] *)
Definition init (flush_size : Z) : LogBuffer :=
  {| buffer := []; flush_size := flush_size; written := [] |}.

(** [LogBuffer.flush]: the buffer after the call and the entries returned *)
Definition flush (self : LogBuffer) : LogBuffer * list entry :=
  if Matcher.is_nil (buffer self) then (self, [])
  else
    let entries := buffer self in
    ({| buffer := []; flush_size := flush_size self;
        written := (written self ++ [chunk_of <$> entries])%list |},
     entries).

(** [LogBuffer.add] *)
Definition add (self : LogBuffer) (log_entry : entry) : LogBuffer :=
  let self := {| buffer := (buffer self ++ [log_entry])%list; flush_size := flush_size self;
                 written := written self |} in
  if (flush_size self <=? Z.of_nat (length (buffer self)))%Z then (flush self).1 else self.

(** The calls made on a buffer. *)
Inductive call :=
| Add (log_entry : entry)
| Flush.

Definition run_call (self : LogBuffer) (c : call) : LogBuffer :=
  match c with
  | Add e => add self e
  | Flush => (flush self).1
  end.

(** The entries added by a sequence of calls, in order. *)
Definition added (calls : list call) : list entry :=
  omap (fun c => match c with Add e => Some e | Flush => None end) calls.

(** What the calls keep true of a buffer, for the entries added so far:
    the batches written and the buffer together are the rows of these
    entries in their order, no batch is empty, and for a flush size of at
    least 1 the buffer stays below it and no batch exceeds it. *)
Definition invariant (self : LogBuffer) (entries : list entry) : Prop :=
  (concat (written self) ++ (chunk_of <$> buffer self))%list = chunk_of <$> entries
  ∧ Forall (fun batch => batch ≠ []) (written self)
  ∧ ((1 ≤ flush_size self)%Z →
       (Z.of_nat (length (buffer self)) < flush_size self)%Z
       ∧ Forall (fun batch => (Z.of_nat (length batch) ≤ flush_size self)%Z) (written self)).

End LogBuffer.

(** ** Storing the log of a step (apps/runners/consumers.py) *)

Module RunnerLogs.
Import Logs.

(** What [parse_datetime] does with a text: a time, [None] for a text that
    is not well formatted, [ValueError] for a well-formatted text that is no
    valid time. *)
Inductive parsed_datetime :=
| Parsed (t : N)
| NotWellFormatted
| InvalidDatetime.



Section Store.

(** [timezone.now()] and [django.utils.dateparse.parse_datetime] *)
Variable now : N.
Variable parse_datetime : string → parsed_datetime.


End Store.



End RunnerLogs.

(** ** Runner authentication (apps/runners/consumers.py, apps/runners/models.py) *)

Module RunnerAuth.

Record Runner := {
  runner_id : N;
  runner_tenant : option N;
  token_hash : string;
  runner_status : string;
}.

(** [s.split(sep)] for a separator of one character *)
Fixpoint split (sep : ascii) (s : string) : list string :=
  match s with
  | EmptyString => [EmptyString]
  | String c s' =>
      if Ascii.eqb c sep then EmptyString :: split sep s'
      else
        match split sep s' with
        | [] => [String c EmptyString]
        | p :: ps => String c p :: ps
        end
  end.

(** [c in s] for a character *)
Fixpoint has_char (c : ascii) (s : string) : bool :=
  match s with
  | EmptyString => false
  | String a s' => Ascii.eqb c a || has_char c s'
  end.

(** [dict(pairs)]: every element has to have two parts; a later pair
    replaces an earlier one with the same key.  [None] stands for
    [ValueError]. *)
Fixpoint dict_of_parts (parts : list (list string)) (acc : list (string * string))
  : option (list (string * string)) :=
  match parts with
  | [] => Some acc
  | [k; v] :: rest =>
      dict_of_parts rest
        (if existsb (fun kv => String.eqb (fst kv) k) acc
         then (fun kv => if String.eqb (fst kv) k then (k, v) else kv) <$> acc
         else acc ++ [(k, v)])%list
  | _ :: _ => None
  end.

(** [dict(p.split('=') for p in query_string.split('&') if '=' in p)] *)
Definition query_params (query_string : string) : option (list (string * string)) :=
  dict_of_parts
    (split "=" <$> List.filter (has_char "=") (split "&" query_string)) [].

Inductive auth_outcome :=
| AuthValueError
| Authenticated (ok : bool) (runner : option Runner).

Section Auth.

(** [hashlib.sha256(s.encode()).hexdigest()] *)
Variable sha256_hexdigest : string → string.

(** [RunnerConsumer.authenticate]: the answer and [self.runner] after the
    call, for the decoded query string of the connection. *)
Definition authenticate (runners : list Runner) (self_runner_id : N) (query_string : string)
  : auth_outcome :=
  match query_params query_string with
  | None => AuthValueError
  | Some params =>
      let token := default "" (Py.assoc "token" params) in
      if PyStr.falsy token then Authenticated false None
      else
        let token_hash := sha256_hexdigest token in
        match List.find (fun r => N.eqb (runner_id r) self_runner_id
                                  && String.eqb (RunnerAuth.token_hash r) token_hash) runners with
        | Some runner => Authenticated true (Some runner)
        | None => Authenticated false None
        end
  end.

(** [Runner.generate_token], for the text that [secrets.token_urlsafe]
    returned *)
Definition generate_token (urlsafe : string) : string * string :=
  let raw_token := "mci_runner_" ++ urlsafe in
  (raw_token, sha256_hexdigest raw_token).

End Auth.

(** The alphabet of [secrets.token_urlsafe]: letters, digits, [-] and [_]. *)
Definition urlsafe_char (c : ascii) : bool :=
  PyRe.ascii_alnum c || Ascii.eqb c "-" || Ascii.eqb c "_".

Fixpoint urlsafe (s : string) : bool :=
  match s with
  | EmptyString => true
  | String c s' => urlsafe_char c && urlsafe s'
  end.

End RunnerAuth.

(** ** The dependency graph of the jobs (apps/pipelines/parser.py) *)

Module JobGraph.
Import Py Parser.

(** The jobs that the job with key [k] needs: [jobs.get(k, {}).get('needs', [])],
    as keys. *)
Definition succs (jobs : list (key * value)) (k : key) : list key :=
  omap key_of_value (needs_of (default (dict []) (lookup k jobs))).

(** [a] needs [b]. *)
Definition depends (jobs : list (key * value)) (a b : key) : Prop :=
  b ∈ succs jobs a.

(** Some job needs itself, directly or through other jobs. *)
Definition needs_cycle (jobs : list (key * value)) : Prop :=
  ∃ k, tc (depends jobs) k k.

Definition is_str (k : key) : bool :=
  match k with KStr _ => true | _ => false end.

Definition is_vstr (v : value) : bool :=
  match v with VStr _ => true | _ => false end.

Definition is_dict (v : value) : bool :=
  match v with VDict _ => true | _ => false end.

(** The job keys and the needed jobs are strings. *)
Definition strings_only (jobs : list (key * value)) : bool :=
  forallb (fun kj => is_str kj.1 && forallb is_vstr (needs_of kj.2)) jobs.

Section DepsLoop.

(** The nested call of [has_cycle] and the job of the current call. *)
Variable nested : key → list key → list key → result (bool * list key * list key).
Variable job_key : key.

(** The loop over the needed jobs inside [has_cycle]. *)
Fixpoint deps_loop (deps : list value) (visited rec_stack : list key)
  : result (bool * list key * list key) :=
  match deps with
  | [] => Return (false, visited, List.filter (fun k => negb (key_eqb job_key k)) rec_stack)
  | dep :: rest =>
      match key_of_value dep with
      | None => Raise TypeError
      | Some d =>
          if negb (mem d visited) then
            match nested d visited rec_stack with
            | Raise e => Raise e
            | Return (true, v, r) => Return (true, v, r)
            | Return (false, v, r) => deps_loop rest v r
            end
          else if mem d rec_stack then Return (true, visited, rec_stack)
          else deps_loop rest visited rec_stack
      end
  end.

End DepsLoop.

(** What the search keeps true of [visited] and [rec_stack]: the stack is
    visited; a visited job off the stack needs only such jobs, and is on no
    cycle. *)
Definition searched (jobs : list (key * value)) (visited rec_stack : list key) : Prop :=
  (∀ x, x ∈ rec_stack → x ∈ visited)
  ∧ (∀ x y, x ∈ visited → x ∉ rec_stack → depends jobs x y → y ∈ visited ∧ y ∉ rec_stack)
  ∧ (∀ x, x ∈ visited → x ∉ rec_stack → ¬ tc (depends jobs) x x).

(** The job keys that are not visited yet. *)
Definition unvisited (jobs : list (key * value)) (V : list key) : list key :=
  List.filter (fun k => negb (mem k V)) jobs.*1.

(** The outcome of a call of [has_cycle] on a job that is not visited: no
    exception; [True] only with a cycle in the graph; otherwise the job is
    visited, the stack is as before and the search is in order. *)
Definition call_ok (jobs : list (key * value)) (k : key) (V R : list key)
    (res : result (bool * list key * list key)) : Prop :=
  match res with
  | Raise _ => False
  | Return (true, _, _) => needs_cycle jobs
  | Return (false, V', R') =>
      R' = R ∧ (∀ x, x ∈ V → x ∈ V') ∧ k ∈ V' ∧ searched jobs V' R
  end.

(** Two jobs that need each other, and two jobs in a chain. *)
Definition job_needing (n : string) : value := dict [("needs", VList [VStr n])].
Definition two_cycle : list (key * value) :=
  [(KStr "a", job_needing "b"); (KStr "b", job_needing "a")].
Definition two_chain : list (key * value) :=
  [(KStr "a", job_needing "b"); (KStr "b", dict [("needs", VList [])])].

End JobGraph.

(** ** Documents of the expected shape (apps/pipelines/parser.py)

    The parser calls dictionary methods on the parts of the document
    without looking at their types.  [well_shaped] says of a document that
    these parts are mappings, lists and strings where the parser needs
    them to be. *)

Module ParserShape.
Import Py Parser JobGraph.

(** [d.get(k, dflt)] on the items of a dictionary *)
Definition get_or (d : list (key * value)) (k : string) (dflt : value) : value :=
  default dflt (lookup (KStr k) d).

Definition none_or_dict (v : value) : bool :=
  match v with VNone | VDict _ => true | _ => false end.

(** The value under [k], when there is one, satisfies [ok]. *)
Definition present_ok (d : list (key * value)) (k : string) (ok : value → bool) : bool :=
  match lookup (KStr k) d with
  | Some v => ok v
  | None => true
  end.

(** A schedule: a list whose mappings carry a string under [cron]. *)
Definition schedule_item_ok (item : value) : bool :=
  match item with
  | VDict d => present_ok d "cron" is_vstr
  | _ => true
  end.

Definition schedule_ok (v : value) : bool :=
  match v with
  | VList l => forallb schedule_item_ok l
  | _ => false
  end.

(** A manual trigger: nothing, or a mapping whose inputs are mappings. *)
Definition workflow_dispatch_ok (v : value) : bool :=
  match v with
  | VNone => true
  | VDict d =>
      match get_or d "inputs" (dict []) with
      | VDict inputs => forallb (fun kv => is_dict kv.2) inputs
      | _ => false
      end
  | _ => false
  end.

(** The triggers: a name, a list of names, or a mapping. *)
Definition on_ok (v : value) : bool :=
  match v with
  | VList l => forallb (fun t => bool_decide (is_Some (key_of_value t))) l
  | VDict d =>
      present_ok d "push" none_or_dict
      && present_ok d "pull_request" none_or_dict
      && present_ok d "schedule" schedule_ok
      && present_ok d "workflow_dispatch" workflow_dispatch_ok
  | _ => true
  end.

Definition container_ok (v : value) : bool :=
  match v with VNone | VStr _ | VDict _ => true | _ => false end.

Definition services_ok (v : value) : bool :=
  match v with
  | VDict services => forallb (fun kv => is_dict kv.2) services
  | _ => false
  end.

Definition steps_ok (v : value) : bool :=
  match v with
  | VList l => forallb is_dict l
  | _ => false
  end.

Definition strategy_ok (v : value) : bool :=
  negb (truthy v)
  || match v with
     | VDict d =>
         let matrix := get_or d "matrix" (dict []) in
         negb (truthy matrix) || is_dict matrix
     | _ => false
     end.

(** The needed jobs: one name, a list of names, or anything that is
    neither a string nor a list (which the parser reads as no need). *)
Definition needs_ok (v : value) : bool :=
  match v with
  | VList l => forallb is_vstr l
  | _ => true
  end.

Definition job_ok (config : value) : bool :=
  match config with
  | VDict d =>
      container_ok (get_or d "container" VNone)
      && services_ok (get_or d "services" (dict []))
      && steps_ok (get_or d "steps" (VList []))
      && strategy_ok (get_or d "strategy" (dict []))
      && needs_ok (get_or d "needs" (VList []))
  | _ => false
  end.

Definition jobs_ok (v : value) : bool :=
  negb (truthy v)
  || match v with
     | VDict jobs => forallb (fun kj => is_str kj.1 && job_ok kj.2) jobs
     | _ => false
     end.

Definition well_shaped (raw_config : value) : bool :=
  match raw_config with
  | VDict d => on_ok (get_or d "on" (dict [])) && jobs_ok (get_or d "jobs" (dict []))
  | _ => true
  end.

(** The number of entries under [jobs]. *)
Definition job_count (raw_config : value) : nat :=
  match raw_config with
  | VDict d =>
      match get_or d "jobs" (dict []) with
      | VDict jobs => length jobs
      | _ => 0
      end
  | _ => 0
  end.

(** The method returns, from any error list, a value that satisfies [Q]. *)
Definition returns {A} (m : M A) (Q : A → Prop) : Prop :=
  ∀ es, ∃ a es', m es = Return (a, es') ∧ Q a.

End ParserShape.

(** ** Inputs for the scenarios *)

Module ScenarioData.
Import Py.

(** A matrix whose exclude entry names a variable that is not declared, and
    one whose exclude entry is empty. *)
Definition undeclared_exclude : Matrix.strategy value :=
  {| Matrix.fail_fast := None; Matrix.max_parallel := None;
     Matrix.strategy_matrix := Some
       {| Matrix.variables := Some [("os", [VStr "ubuntu"; VStr "macos"])];
          Matrix.include := None;
          Matrix.exclude := Some [[("arch", VStr "arm")]] |} |}.

Definition empty_exclude : Matrix.strategy value :=
  {| Matrix.fail_fast := None; Matrix.max_parallel := None;
     Matrix.strategy_matrix := Some
       {| Matrix.variables := Some [("os", [VStr "ubuntu"; VStr "macos"])];
          Matrix.include := Some [[("os", VStr "windows")]];
          Matrix.exclude := Some [[]] |} |}.

(** A subscriber of another tenant than the execution of [Logs.long_log]. *)
Definition outsider_user : Logs.user :=
  {| Logs.is_authenticated := true; Logs.user_tenant := Some 2%N |}.

Definition outsider : Logs.LogConsumer :=
  {| Logs.self_execution_id := 1; Logs.self_job_id := None;
     Logs.self_user := Some outsider_user |}.

(** One execution with one job, one step and one chunk. *)
Definition only_step : Logs.Step :=
  {| Logs.step_id := 1; Logs.step_job := 1; Logs.step_order := 0 |}.

Definition only_chunk : Logs.LogChunk :=
  {| Logs.chunk_step := 1; Logs.chunk_number := 0; Logs.content := "hello";
     Logs.level := "info"; Logs.timestamp := 5 |}.

Definition short_log : Logs.tables :=
  {| Logs.executions := [ {| Logs.execution_id := 1; Logs.execution_tenant := 1 |} ];
     Logs.jobs := [ {| Logs.job_id := 1; Logs.job_execution := 1 |} ];
     Logs.steps := [only_step];
     Logs.log_chunks := [only_chunk] |}.

(** A stand-in for SHA-256: the text itself. *)
Definition toy_sha (s : string) : string := s.

(** The runner registered with the token text [abc]. *)
Definition registered_runner : RunnerAuth.Runner :=
  {| RunnerAuth.runner_id := 4; RunnerAuth.runner_tenant := Some 1%N;
     RunnerAuth.token_hash := "mci_runner_abc"; RunnerAuth.runner_status := "offline" |}.

(** A parser stand-in that accepts every text with the configuration of
    [WebhookView.main_config]. *)
Definition toy_parse (yaml_content : string)
  : result (value * list Parser.error) :=
  Return (WebhookView.parsed_config WebhookView.main_config, []).

End ScenarioData.

(** * Properties *)

(** ** The expression behind a ref pattern *)

Module GlobFacts.
Import PyStr PyRe Matcher Glob.

Ltac bits c := destruct c as [[] [] [] [] [] [] [] []].

Lemma re_run_many (e : ending) (k : charset) (r : list item) (s : string) :
  re_run e (Many k :: r) s
  = re_run e r s
    || match s with
       | String c s' => in_charset k c && re_run e (Many k :: r) s'
       | EmptyString => false
       end.
Proof. by destruct s. Qed.

(** The matcher decides the relation: it answers true exactly when the
    items consume a prefix of the input after which the ending holds. *)
Lemma re_run_consumes (e : ending) (r : list item) (s : string) :
  re_run e r s = true ↔ ∃ rest, consumes r s rest ∧ at_end e rest = true.
Proof.
  revert s. induction r as [|[k|k] r IH]; intros s.
  - cbn [re_run]. split.
    + intros H. exists s. split; [constructor|done].
    + intros (rest & Hc & He). by inversion Hc; subst.
  - cbn [re_run]. destruct s as [|c s].
    + split; [done|]. intros (rest & Hc & _). inversion Hc.
    + rewrite andb_true_iff, IH. split.
      * intros (Hk & rest & Hc & He). exists rest. split; [by constructor|done].
      * intros (rest & Hc & He). inversion Hc; subst. eauto.
  - split.
    + induction s as [|c s IHs]; rewrite re_run_many, orb_true_iff.
      * intros [H|H]; [|done]. apply IH in H as (rest & Hc & He).
        exists rest. split; [by constructor|done].
      * rewrite andb_true_iff. intros [H|[Hk H]].
        -- apply IH in H as (rest & Hc & He). exists rest. split; [by constructor|done].
        -- apply IHs in H as (rest & Hc & He). exists rest.
           split; [by apply consumes_many_step|done].
    + intros (rest & Hc & He). remember (Many k :: r) as r' eqn:Hr.
      induction Hc as [| | k' r0 s rest Hc _ | k' c r0 s rest Hk Hc IHc]; try done;
        simplify_eq; rewrite re_run_many, orb_true_iff.
      * left. apply IH. eauto.
      * right. rewrite Hk. by apply IHc.
Qed.

Lemma replace_nomatch (old new : string) (c : ascii) (s : string) :
  startswith old (String c s) = false →
  replace old new (String c s) = String c (replace old new s).
Proof. unfold replace. cbn [replace_from]. by intros ->. Qed.

Lemma startswith_cons (a : ascii) (old : string) (c : ascii) (s : string) :
  startswith (String a old) (String c s) = Ascii.eqb a c && startswith old s.
Proof. reflexivity. Qed.

Lemma string_append_cons (c : ascii) (p s : string) : String c p ++ s = String c (p ++ s).
Proof. reflexivity. Qed.

Lemma re_escape_cons (c : ascii) (s : string) :
  re_escape (String c s) = esc c (re_escape s).
Proof. reflexivity. Qed.

Lemma special_star (c : ascii) : is_star c = true → special c = true.
Proof. bits c; vm_compute; congruence. Qed.

Lemma special_qmark (c : ascii) : is_qmark c = true → special c = true.
Proof. bits c; vm_compute; congruence. Qed.

Lemma special_backslash (c : ascii) : Ascii.eqb "\" c = true → special c = true.
Proof. bits c; vm_compute; congruence. Qed.

(** No escaped text starts with a special character other than the
    backslash. *)
Lemma esc_head (c : ascii) (s : string) (f : ascii → bool) :
  (∀ a, f a = true → special a = true) → f "\"%char = false →
  head_is f (esc c s) = false.
Proof.
  intros Hf Hb. unfold esc. destruct (special c) eqn:Hs; cbn; [done|].
  destruct (f c) eqn:Hc; [|done]. apply Hf in Hc. congruence.
Qed.

Lemma re_escape_head (p : string) (f : ascii → bool) :
  (∀ a, f a = true → special a = true) → f "\"%char = false →
  head_is f (re_escape p) = false.
Proof. intros. destruct p; [done|]. rewrite re_escape_cons. by apply esc_head. Qed.

Lemma stage1_head (p : string) (f : ascii → bool) :
  (∀ a, f a = true → special a = true) → f "\"%char = false → f "."%char = false →
  head_is f (stage1 p) = false.
Proof.
  intros Hf Hb Hd. destruct p as [|c p]; [done|]. cbn [stage1].
  destruct (is_star c); [|by apply esc_head].
  destruct p as [|c' p]; [done|]. by destruct (is_star c').
Qed.

Lemma stage2_head (p : string) (f : ascii → bool) :
  (∀ a, f a = true → special a = true) → f "\"%char = false → f "."%char = false →
  f "["%char = false →
  head_is f (stage2 p) = false.
Proof.
  intros Hf Hb Hd Hk. destruct p as [|c p]; [done|]. cbn [stage2].
  destruct (is_star c); [|by apply esc_head].
  destruct p as [|c' p]; [done|]. by destruct (is_star c').
Qed.

(** An escaped character [esc c s] is copied by a replacement whose search
    text is a backslash and [x], when [c] is not [x] and [s] does not start
    with [x]. *)
Lemma replace_esc (x : ascii) (new : string) (c : ascii) (s : string) :
  Ascii.eqb c x = false →
  head_is (fun a => Ascii.eqb a x) s = false →
  replace (String "\" (String x EmptyString)) new (esc c s)
  = esc c (replace (String "\" (String x EmptyString)) new s).
Proof.
  intros Hc Hs. unfold esc. destruct (special c) eqn:Hsp.
  - rewrite replace_nomatch.
    2:{ rewrite !startswith_cons, (Ascii.eqb_sym x c), Hc. by rewrite andb_false_r. }
    rewrite replace_nomatch; [done|].
    rewrite startswith_cons. destruct s as [|d s]; [by rewrite andb_false_r|].
    rewrite startswith_cons. cbn in Hs. rewrite (Ascii.eqb_sym x d), Hs.
    by rewrite andb_false_r.
  - rewrite replace_nomatch; [done|].
    rewrite startswith_cons. destruct (Ascii.eqb "\" c) eqn:Hb; [|done].
    apply special_backslash in Hb. congruence.
Qed.

(** The same for the search text of the first rewriting, two escaped stars. *)
Lemma replace_esc_stars (c : ascii) (s : string) :
  is_star c = false →
  head_is is_star s = false →
  replace "\*\*" ".*" (esc c s) = esc c (replace "\*\*" ".*" s).
Proof.
  intros Hc Hs. unfold esc. destruct (special c) eqn:Hsp.
  - rewrite replace_nomatch.
    2:{ rewrite !startswith_cons. unfold is_star in Hc.
        rewrite (Ascii.eqb_sym "*" c), Hc. by rewrite andb_false_r. }
    rewrite replace_nomatch; [done|].
    rewrite startswith_cons. destruct s as [|d s]; [by rewrite andb_false_r|].
    rewrite startswith_cons. cbn in Hs. unfold is_star in Hs.
    rewrite (Ascii.eqb_sym "*" d), Hs. by rewrite andb_false_r.
  - rewrite replace_nomatch; [done|].
    rewrite startswith_cons. destruct (Ascii.eqb "\" c) eqn:Hb; [|done].
    apply special_backslash in Hb. congruence.
Qed.

Lemma stage1_correct_lt (n : nat) : ∀ p, (String.length p < n)%nat →
  replace "\*\*" ".*" (re_escape p) = stage1 p.
Proof.
  induction n as [|n IH]; [lia|]. intros [|c p] Hn; [done|].
  cbn [String.length] in Hn. cbn [stage1]. rewrite re_escape_cons.
  destruct (is_star c) eqn:Hc.
  - apply Ascii.eqb_eq in Hc as ->. destruct p as [|c' p]; [done|].
    cbn [String.length] in Hn. destruct (is_star c') eqn:Hc'.
    + apply Ascii.eqb_eq in Hc' as ->.
      change (replace "\*\*" ".*" (esc "*" (re_escape (String "*" p))))
        with (String "." (String "*" (replace "\*\*" ".*" (re_escape p)))).
      by rewrite IH by lia.
    + change (esc "*" ?s) with (String "\" (String "*" s)).
      rewrite replace_nomatch.
      2:{ rewrite !startswith_cons, !Ascii.eqb_refl. cbn [andb].
          rewrite re_escape_cons. unfold esc.
          destruct (special c') eqn:Hs; rewrite !startswith_cons.
          - rewrite Ascii.eqb_refl. cbn [andb]. unfold is_star in Hc'.
            by rewrite Ascii.eqb_sym, Hc'.
          - destruct (Ascii.eqb "\" c') eqn:Hb; [|done].
            apply special_backslash in Hb. congruence. }
      rewrite replace_nomatch by done.
      by rewrite IH by (cbn [String.length]; lia).
  - rewrite replace_esc_stars; [by rewrite IH by lia|done|].
    by apply (re_escape_head p is_star special_star).
Qed.

Lemma stage2_correct_lt (n : nat) : ∀ p, (String.length p < n)%nat →
  replace "\*" "[^/]*" (stage1 p) = stage2 p.
Proof.
  induction n as [|n IH]; [lia|]. intros [|c p] Hn; [done|].
  cbn [String.length] in Hn. cbn [stage1 stage2].
  destruct (is_star c) eqn:Hc.
  - destruct p as [|c' p]; [done|].
    cbn [String.length] in Hn. destruct (is_star c') eqn:Hc'.
    + rewrite !replace_nomatch by done. by rewrite IH by lia.
    + change (replace "\*" "[^/]*" (String "\" (String "*" ?s)))
        with (String "[" (String "^" (String "/" (String "]" (String "*"
                (replace "\*" "[^/]*" s)))))).
      by rewrite IH by (cbn [String.length]; lia).
  - rewrite replace_esc; [by rewrite IH by lia|done|].
    by apply (stage1_head p is_star special_star).
Qed.

Lemma stage3_correct_lt (n : nat) : ∀ p, (String.length p < n)%nat →
  replace "\?" "." (stage2 p) = stage3 p.
Proof.
  induction n as [|n IH]; [lia|]. intros [|c p] Hn; [done|].
  cbn [String.length] in Hn. cbn [stage2 stage3].
  destruct (is_star c) eqn:Hc.
  - destruct p as [|c' p]; [done|].
    cbn [String.length] in Hn. destruct (is_star c') eqn:Hc'.
    + rewrite !replace_nomatch by done. by rewrite IH by lia.
    + rewrite !replace_nomatch by done. by rewrite IH by (cbn [String.length]; lia).
  - destruct (is_qmark c) eqn:Hq.
    + apply Ascii.eqb_eq in Hq as ->.
      change (replace "\?" "." (esc "?" ?s)) with (String "." (replace "\?" "." s)).
      by rewrite IH by lia.
    + rewrite replace_esc; [by rewrite IH by lia|done|].
      by apply (stage2_head p is_qmark special_qmark).
Qed.

(** The three rewritings of [_matches_pattern] turn the escaped pattern into
    [stage3]. *)
Lemma rewritings_correct (p : string) :
  replace "\?" "." (replace "\*" "[^/]*" (replace "\*\*" ".*" (re_escape p)))
  = stage3 p.
Proof.
  rewrite (stage1_correct_lt (S (String.length p))) by lia.
  rewrite (stage2_correct_lt (S (String.length p))) by lia.
  apply (stage3_correct_lt (S (String.length p))). lia.
Qed.

Lemma re_lex_esc (c : ascii) (s : string) :
  is_star c = false → is_qmark c = false →
  re_lex (esc c s) = cons (TAtom (Lit c)) <$> re_lex s.
Proof.
  unfold esc, is_star, is_qmark.
  bits c; intros H1 H2; try discriminate H1; try discriminate H2; reflexivity.
Qed.

Lemma esc_append (c : ascii) (s t : string) : esc c s ++ t = esc c (s ++ t).
Proof. unfold esc. by destruct (special c). Qed.

Lemma re_lex_stage3_lt (n : nat) : ∀ p, (String.length p < n)%nat →
  re_lex (stage3 p ++ "$") = Some (tokens_of (glob_items p) ++ [TDollar])%list.
Proof.
  induction n as [|n IH]; [lia|]. intros [|c p] Hn; [done|].
  cbn [String.length] in Hn. cbn [stage3 glob_items].
  destruct (is_star c) eqn:Hc.
  - destruct p as [|c' p]; [done|].
    cbn [String.length] in Hn. destruct (is_star c') eqn:Hc'.
    + rewrite !string_append_cons.
      change (re_lex (String "." (String "*" ?s)))
        with (cons (TAtom NotNewline) <$> (cons TStar <$> re_lex s)).
      by rewrite IH by lia.
    + rewrite !string_append_cons.
      change (re_lex (String "[" (String "^" (String "/" (String "]" (String "*" ?s))))))
        with (cons (TAtom NotSlash) <$> (cons TStar <$> re_lex s)).
      by rewrite IH by (cbn [String.length]; lia).
  - destruct (is_qmark c) eqn:Hq.
    + rewrite string_append_cons.
      change (re_lex (String "." ?s)) with (cons (TAtom NotNewline) <$> re_lex s).
      by rewrite IH by lia.
    + rewrite esc_append, re_lex_esc by done. by rewrite IH by lia.
Qed.

Lemma re_items_one (k : charset) (ts : list token) :
  starts_with_star ts = false →
  re_items (TAtom k :: ts) = '(r, e) ← re_items ts; Some (One k :: r, e).
Proof. by destruct ts as [|[] ts]. Qed.

Lemma re_items_many (k : charset) (ts : list token) :
  starts_with_star ts = false →
  re_items (TAtom k :: TStar :: ts) = '(r, e) ← re_items ts; Some (Many k :: r, e).
Proof. by destruct ts as [|[] ts]. Qed.

Lemma tokens_of_head (r : list item) :
  starts_with_star (tokens_of r ++ [TDollar])%list = false.
Proof. by destruct r as [|[] r]. Qed.

Lemma re_items_tokens (r : list item) :
  re_items (tokens_of r ++ [TDollar])%list = Some (r, Dollar).
Proof.
  induction r as [|[k|k] r IH]; [done| |].
  - change (tokens_of (One k :: r)) with (TAtom k :: tokens_of r). cbn [app].
    rewrite re_items_one by apply tokens_of_head. by rewrite IH.
  - change (tokens_of (Many k :: r)) with (TAtom k :: TStar :: tokens_of r). cbn [app].
    rewrite re_items_many by apply tokens_of_head. by rewrite IH.
Qed.

Lemma re_compile_glob (p : string) :
  re_compile ("^" ++ stage3 p ++ "$") = Some (glob_items p, Dollar).
Proof.
  unfold re_compile. rewrite string_append_cons.
  change (re_lex (String "^" ?s)) with (cons TCaret <$> re_lex s).
  change ("" ++ ?s) with s.
  rewrite (re_lex_stage3_lt (S (String.length p))) by lia.
  cbn [fmap option_fmap option_map mbind option_bind]. apply re_items_tokens.
Qed.

(** Ref matching is defined on every value and pattern: it is equality, or a
    match of the value against the pattern's expression up to the end of
    the value (or up to one final newline). *)
Lemma matches_pattern_glob (value pattern : string) :
  _matches_pattern value pattern
  = Some (String.eqb value pattern || re_run Dollar (glob_items pattern) value).
Proof.
  unfold _matches_pattern. destruct (String.eqb value pattern); [done|].
  rewrite rewritings_correct. unfold re_match. by rewrite re_compile_glob.
Qed.

(** Ref matching, for every value and pattern: the result is defined, and
    it is true exactly when the value equals the pattern or the pattern's
    expression consumes the value up to its end or up to one final newline.
    In the expression two stars stand for any run of characters other than
    newlines, one star for any run of characters other than [/], a question
    mark for one character other than a newline, and any other character
    for itself. *)
Theorem ref_matching_closed_form (value pattern : string) :
  ∃ b, _matches_pattern value pattern = Some b
    ∧ (b = true ↔
       value = pattern
       ∨ ∃ rest, consumes (glob_items pattern) value rest ∧ at_end Dollar rest = true).
Proof.
  eexists. split; [apply matches_pattern_glob|].
  by rewrite orb_true_iff, String.eqb_eq, re_run_consumes.
Qed.

End GlobFacts.

(** ** Trigger matching *)

Module MatcherFacts.
Import Events Matcher MatcherSpec.

Lemma ref_matches_nil (value : string) (patterns : list string) :
  is_nil patterns = true → ref_matches value patterns = false.
Proof. by destruct patterns. Qed.

Lemma tag_of_is_tag (event : PushEvent) :
  is_tag event = true → tag event = Some (tag_name event).
Proof. unfold is_tag, tag_name, tag. by intros ->. Qed.

(** C6, evaluated on the code.  In path matching [*] crosses [/]
    ([fnmatch] is tried first), while the same pattern does not match as a
    ref pattern; and [**/*.md] does not match [README.md] at depth zero,
    because the fallback expression requires a [/]. *)
Theorem path_pattern_wildcards_differ :
  _matches_path_pattern "docs/a.md" "*.md" = Some true
  ∧ _matches_pattern "docs/a.md" "*.md" = Some false
  ∧ _matches_path_pattern "README.md" "**/*.md" = Some false
  ∧ PyStr.replace "*" "[^/]*" (PyStr.replace "**" ".*" (PyStr.replace "." "\." "**/*.md"))
    = ".[^/]*/[^/]*\.md".
Proof. repeat split; vm_compute; reflexivity. Qed.

End MatcherFacts.

(** ** Trigger matching on loaded configurations *)

Module MatchingFacts.
Import Py Events Matching MatchingSpec.

Lemma default_false_decide (x : option bool) :
  default false x = bool_decide (x = Some true).
Proof. by destruct x as [[|]|]. Qed.

Lemma strings_of_list_values (l : list value) (ps : list string) :
  strings_of_list l = Some ps → l = VStr <$> ps.
Proof.
  revert ps. induction l as [|v l IH]; intros ps; cbn.
  - by intros [= <-].
  - destruct v; try done. destruct (strings_of_list l) as [ps'|]; [|done].
    intros [= <-]. cbn. f_equal. by apply IH.
Qed.

(** A filter that is a list of strings iterates to its strings and is
    truthy when it has one. *)
Lemma strings_of_value (v : value) (ps : list string) :
  strings_of v = Some ps →
  iterate v = Return (VStr <$> ps) ∧ truthy v = negb (Matcher.is_nil ps).
Proof.
  destruct v; try done. cbn. intros ->%strings_of_list_values.
  split; [done|]. by destruct ps.
Qed.

(** What [config.get(k, [])] returns for a typed filter. *)
Lemma filter_typed_get (d : list (key * value)) (k : string) :
  filter_typed d k = true →
  ∃ v, get (VDict d) k (VList []) = Return v ∧ strings_of v = Some (patterns d k).
Proof.
  unfold filter_typed, patterns, get. destruct (lookup (KStr k) d) as [v|]; cbn.
  - destruct (strings_of v) as [ps|] eqn:E; [|done]. intros _. by exists v.
  - intros _. by exists (VList []).
Qed.

(** On a string the ref matcher answers what the expression of the
    pattern answers: the [re.error] branch is never taken. *)
Lemma matches_pattern_string (value p : string) :
  _matches_pattern value (VStr p)
  = Return (String.eqb value p || PyRe.re_run PyRe.Dollar (Glob.glob_items p) value).
Proof. unfold _matches_pattern. by rewrite GlobFacts.matches_pattern_glob. Qed.

Lemma first_match_ref (value : string) (ps : list string) :
  first_match (_matches_pattern value) (VStr <$> ps)
  = Return (MatcherSpec.ref_matches value ps).
Proof.
  unfold MatcherSpec.ref_matches.
  induction ps as [|p ps IH]; [done|]. cbn.
  rewrite default_false_decide. by destruct (bool_decide _).
Qed.

Lemma matches_pattern_list_typed (value : string) (v : Py.value) (ps : list string) :
  strings_of v = Some ps →
  _matches_pattern_list value v = Return (MatcherSpec.ref_matches value ps).
Proof.
  intros [Hi _]%strings_of_value. unfold _matches_pattern_list. rewrite Hi. cbn.
  apply first_match_ref.
Qed.

Section Library.
Variable fnmatch : string → string → result bool.
Variable re_match : string → string → result (option bool).

(** Where the libraries answer as the [PyRe] fragment does, the path matcher
    answers as the matcher inside the fragment. *)
Lemma matches_path_pattern_fragment (path p : string) (b : bool) :
  (∀ name pat m, PyRe.fnmatch name pat = Some m → fnmatch name pat = Return m) →
  (∀ regex s m, PyRe.re_match regex s = Some m → re_match regex s = Return (Some m)) →
  Matcher._matches_path_pattern path p = Some b →
  _matches_path_pattern fnmatch re_match path (VStr p) = Return b.
Proof.
  intros Hf Hr. unfold Matcher._matches_path_pattern, _matches_path_pattern.
  destruct (PyRe.fnmatch path p) as [m|] eqn:Hm; [|done]. rewrite (Hf _ _ _ Hm).
  cbn [mbind option_bind bind]. destruct m; [by intros [= <-]|].
  destruct (PyStr.contains "**" p); [|by intros [= <-]].
  intros H. by rewrite (Hr _ _ _ H).
Qed.

(** One pattern against one path: the answer, or the library's exception. *)
Lemma matches_path_pattern_raises (path p : string) (e : exn) :
  _matches_path_pattern fnmatch re_match path (VStr p) = Raise e →
  fnmatch path p = Raise e ∨ re_match (path_expression p) path = Raise e.
Proof.
  unfold _matches_path_pattern, bind. destruct (fnmatch path p) as [[|]|e'] eqn:Hf.
  - done.
  - destruct (PyStr.contains "**" p); [|done].
    fold (path_expression p).
    destruct (re_match (path_expression p) path) as [[m|]|e'']; try done.
    intros [= ->]. by right.
  - intros [= ->]. by left.
Qed.

Lemma first_match_path (path : string) (ps : list string) :
  match first_match (_matches_path_pattern fnmatch re_match path) (VStr <$> ps) with
  | Return b => b = path_matches fnmatch re_match path ps
  | Raise e => ∃ p, p ∈ ps ∧ _matches_path_pattern fnmatch re_match path (VStr p) = Raise e
  end.
Proof.
  induction ps as [|p ps IH]; [done|]. cbn [fmap list_fmap first_match path_matches existsb].
  unfold bind at 1.
  destruct (_matches_path_pattern fnmatch re_match path (VStr p)) as [[|]|e] eqn:Hp.
  - done.
  - cbn [orb]. destruct (first_match _ _) as [b|e]; [done|].
    destruct IH as (q & Hq & He). exists q. split; [|done]. apply elem_of_cons. by right.
  - exists p. split; [|done]. apply elem_of_cons. by left.
Qed.

Lemma matches_path_pattern_list_typed (path : string) (v : value) (ps : list string) :
  strings_of v = Some ps →
  match _matches_path_pattern_list fnmatch re_match path v with
  | Return b => b = path_matches fnmatch re_match path ps
  | Raise e => ∃ p, p ∈ ps ∧ _matches_path_pattern fnmatch re_match path (VStr p) = Raise e
  end.
Proof.
  intros [Hi _]%strings_of_value. unfold _matches_path_pattern_list. rewrite Hi. cbn [bind].
  apply first_match_path.
Qed.

Lemma py_all_paths (files : list string) (v : value) (ps : list string) :
  strings_of v = Some ps →
  match py_all (fun f => _matches_path_pattern_list fnmatch re_match f v) files with
  | Return b => b = forallb (fun f => path_matches fnmatch re_match f ps) files
  | Raise e => ∃ f p, f ∈ files ∧ p ∈ ps
                 ∧ _matches_path_pattern fnmatch re_match f (VStr p) = Raise e
  end.
Proof.
  intros Hv. induction files as [|f files IH]; [done|]. cbn [py_all forallb].
  pose proof (matches_path_pattern_list_typed f v ps Hv) as Hf. unfold bind at 1.
  destruct (_matches_path_pattern_list fnmatch re_match f v) as [[|]|e].
  - rewrite <- Hf. cbn [andb]. destruct (py_all _ files) as [b|e]; [done|].
    destruct IH as (g & p & Hg & Hp & He). exists g, p. rewrite elem_of_cons. auto.
  - by rewrite <- Hf.
  - destruct Hf as (p & Hp & He). exists f, p. rewrite elem_of_cons. auto.
Qed.

Lemma py_any_paths (files : list string) (v : value) (ps : list string) :
  strings_of v = Some ps →
  match py_any (fun f => _matches_path_pattern_list fnmatch re_match f v) files with
  | Return b => b = existsb (fun f => path_matches fnmatch re_match f ps) files
  | Raise e => ∃ f p, f ∈ files ∧ p ∈ ps
                 ∧ _matches_path_pattern fnmatch re_match f (VStr p) = Raise e
  end.
Proof.
  intros Hv. induction files as [|f files IH]; [done|]. cbn [py_any existsb].
  pose proof (matches_path_pattern_list_typed f v ps Hv) as Hf. unfold bind at 1.
  destruct (_matches_path_pattern_list fnmatch re_match f v) as [[|]|e].
  - by rewrite <- Hf.
  - rewrite <- Hf. cbn [orb]. destruct (py_any _ files) as [b|e]; [done|].
    destruct IH as (g & p & Hg & Hp & He). exists g, p. rewrite elem_of_cons. auto.
  - destruct Hf as (p & Hp & He). exists f, p. rewrite elem_of_cons. auto.
Qed.


Lemma tag_push_typed (event : PushEvent) (d : list (key * value)) :
  is_tag event = true →
  filter_typed d "tags" = true → filter_typed d "tags_ignore" = true →
  _matches_tag_push event (VDict d)
  = Return (negb (PyStr.falsy (MatcherSpec.tag_name event)) && tag_step_passes event d).
Proof.
  intros Ht Hg Hi. unfold _matches_tag_push, tag_step_passes.
  rewrite (MatcherFacts.tag_of_is_tag _ Ht). set (t := MatcherSpec.tag_name event).
  destruct (PyStr.falsy t); [done|]. cbn [negb andb].
  destruct (filter_typed_get d "tags" Hg) as (tags & -> & Htags).
  destruct (filter_typed_get d "tags_ignore" Hi) as (tags_ignore & -> & Hign).
  cbn [bind].
  destruct (strings_of_value _ _ Htags) as [_ ->].
  destruct (strings_of_value _ _ Hign) as [_ ->].
  rewrite (matches_pattern_list_typed t _ _ Htags), (matches_pattern_list_typed t _ _ Hign).
  destruct (Matcher.is_nil (patterns d "tags_ignore")) eqn:Ei.
  - rewrite (MatcherFacts.ref_matches_nil _ _ Ei). cbn.
    destruct (Matcher.is_nil (patterns d "tags")); cbn; [done|].
    by destruct (MatcherSpec.ref_matches t (patterns d "tags")).
  - cbn. destruct (MatcherSpec.ref_matches t (patterns d "tags_ignore")); cbn; [done|].
    destruct (Matcher.is_nil (patterns d "tags")); cbn; [done|].
    by destruct (MatcherSpec.ref_matches t (patterns d "tags")).
Qed.

Lemma branch_push_typed (event : PushEvent) (d : list (key * value)) :
  forallb (filter_typed d) ["branches"; "branches_ignore"; "paths"; "paths_ignore"] = true →
  match _matches_branch_push fnmatch re_match event (VDict d) with
  | Return b =>
      b = branch_step_passes event d && negb (path_step_blocks fnmatch re_match event d)
  | Raise e => raised_on_paths fnmatch re_match event d e
  end.
Proof.
  cbn [forallb]. rewrite !andb_true_iff. intros (Hb & Hi & Hp & Hpi & _).
  unfold _matches_branch_push, branch_step_passes, path_step_blocks.
  destruct (filter_typed_get d "branches" Hb) as (branches & -> & Hbs).
  destruct (filter_typed_get d "branches_ignore" Hi) as (branches_ignore & -> & His).
  destruct (filter_typed_get d "paths" Hp) as (paths & -> & Hps).
  destruct (filter_typed_get d "paths_ignore" Hpi) as (paths_ignore & -> & Hpis).
  cbn [bind].
  destruct (strings_of_value _ _ Hbs) as [_ ->].
  destruct (strings_of_value _ _ His) as [_ ->].
  destruct (strings_of_value _ _ Hps) as [_ ->].
  destruct (strings_of_value _ _ Hpis) as [_ ->].
  rewrite (matches_pattern_list_typed _ _ _ Hbs), (matches_pattern_list_typed _ _ _ His).
  pose proof (py_all_paths (changed_files event) _ _ Hpis) as Hall.
  pose proof (py_any_paths (changed_files event) _ _ Hps) as Hany.
  set (A := py_all _ _) in *. set (B := py_any _ _) in *.
  assert (∀ e, A = Raise e → raised_on_paths fnmatch re_match event d e) as HA.
  { intros e He. rewrite He in Hall. destruct Hall as (f & p & ? & ? & ?).
    exists "paths_ignore", p, f. auto. }
  assert (∀ e, B = Raise e → raised_on_paths fnmatch re_match event d e) as HB.
  { intros e He. rewrite He in Hany. destruct Hany as (f & p & ? & ? & ?).
    exists "paths", p, f. auto. }
  pose proof (MatcherFacts.ref_matches_nil (branch event) (patterns d "branches_ignore")) as Hbi.
  set (bi := MatcherSpec.ref_matches (branch event) (patterns d "branches_ignore")) in *.
  set (bb := MatcherSpec.ref_matches (branch event) (patterns d "branches")).
  set (FA := forallb _ _) in *. set (EB := existsb _ _) in *.
  clearbody A B bi bb FA EB.
  destruct A as [a|ea]; [subst a|specialize (HA ea eq_refl)];
    (destruct B as [b|eb]; [subst b|specialize (HB eb eq_refl)]);
    destruct (Matcher.is_nil (patterns d "branches_ignore")), bi,
      (Matcher.is_nil (patterns d "branches")), bb,
      (Matcher.is_nil (patterns d "paths")), (Matcher.is_nil (patterns d "paths_ignore")),
      (Matcher.is_nil (changed_files event)), FA, EB;
    cbn; first [done | by specialize (Hbi eq_refl)].
Qed.

Lemma trigger_typed_cases (name : string) (filters : list string) (triggers : value) :
  trigger_typed name filters triggers = true →
  ∃ t, triggers = VDict t
    ∧ (lookup (KStr name) t = None ∨ lookup (KStr name) t = Some VNone
       ∨ lookup (KStr name) t = Some (VBool true)
       ∨ ∃ d, lookup (KStr name) t = Some (VDict d) ∧ forallb (filter_typed d) filters = true).
Proof.
  unfold trigger_typed. destruct triggers as [| | | | |t]; try done. intros H. exists t.
  split; [done|]. destruct (lookup (KStr name) t) as [[|[|]| | | |d]|]; try done; eauto 6.
Qed.

(** The matcher on typed filters: its answer is the algorithm's, its
    exceptions are the library's. *)
Lemma matches_push_typed (triggers : value) (event : PushEvent) :
  push_typed triggers = true →
  match matches_push fnmatch re_match triggers event with
  | Return b => b = push_algorithm fnmatch re_match triggers event
  | Raise e => is_tag event = false ∧ library_raises fnmatch re_match triggers event e
  end.
Proof.
  intros (t & -> & Ht)%trigger_typed_cases.
  unfold matches_push, push_algorithm, trigger_filters. cbn [get bind].
  destruct Ht as [->|[->|[->|(d & Hl & Hd)]]]; [done|done|done|]. rewrite Hl.
  cbn [from_option]. unfold id.
  destruct d as [|kv d']; [done|]. set (d := kv :: d') in *.
  change (py_eq (VDict d) (VDict []) || is_True (VDict d)) with false.
  change (Matcher.is_nil d) with false. cbn match.
  cbn [forallb] in Hd. rewrite !andb_true_iff in Hd.
  destruct Hd as (Hb & Hbi & Hg & Hgi & Hp & Hpi & _).
  destruct (is_tag event) eqn:Htag.
  - by rewrite tag_push_typed.
  - pose proof (branch_push_typed event d) as H. cbn [forallb] in H.
    rewrite Hb, Hbi, Hp, Hpi in H. specialize (H eq_refl).
    destruct (_matches_branch_push _ _ _ _) as [b|e]; [done|].
    split; [done|]. destruct H as (k & p & f & Hk & Hin & Hf & He).
    exists d, k, p, f. split; [unfold trigger_filters; by rewrite Hl|].
    split; [done|]. split; [done|]. split; [done|].
    by apply matches_path_pattern_raises.
Qed.

(** C1, as the code has it.  For every configuration whose push trigger is
    absent, null, [True], or a mapping whose filters are lists of strings,
    and for every push event and every behaviour of the pattern libraries,
    [matches_push] returns the result of the push algorithm: false without
    a push trigger; true for a [True] or an empty push trigger; for a tag
    ref, true exactly when the tag name is non-empty, [tags_ignore] does not
    match it, [tags] is non-empty and matches it (path filters are not
    consulted); for any other ref, true exactly when [branches_ignore] does
    not match, [branches] is empty or matches, and the path filters do not
    block.  It raises only for a ref that is no tag ref, and only an
    exception that the pattern library raises on a changed file and a path
    pattern. *)
Theorem matches_push_algorithm (triggers : value) (event : PushEvent) :
  push_typed triggers = true →
  match matches_push fnmatch re_match triggers event with
  | Return b => b = push_algorithm fnmatch re_match triggers event
  | Raise e => is_tag event = false ∧ library_raises fnmatch re_match triggers event e
  end.
Proof. apply matches_push_typed. Qed.

(** Where the pattern libraries answer for every two strings (matching or
    not, or with [re.error]), [matches_push] returns. *)
Lemma matches_push_returns (triggers : value) (event : PushEvent) :
  (∀ name pat, ∃ m, fnmatch name pat = Return m) →
  (∀ regex s, ∃ m, re_match regex s = Return m) →
  push_typed triggers = true →
  matches_push fnmatch re_match triggers event
  = Return (push_algorithm fnmatch re_match triggers event).
Proof.
  intros Hf Hr Ht. pose proof (matches_push_typed triggers event Ht) as H.
  destruct (matches_push _ _ _ _) as [b|e]; [by subst|].
  destruct H as (_ & d & k & p & f & _ & _ & _ & _ & [He|He]).
  - destruct (Hf f p) as [m Hm]. congruence.
  - destruct (Hr (path_expression p) f) as [m Hm]. congruence.
Qed.

(** A filter that is no list of strings: on a tag filter that holds a
    number the matcher raises, whatever the libraries do. *)
Lemma matches_push_number_tag_raises :
  matches_push fnmatch re_match number_tag_triggers (MatcherSpec.push_of "refs/tags/v1" [])
  = Raise TypeError.
Proof. reflexivity. Qed.

End Library.

(** The theorem at a push to [main] that changes a file under [src]. *)
Lemma matches_push_algorithm_witness :
  push_typed main_src_triggers = true
  ∧ match matches_push modelled_fnmatch modelled_re_match main_src_triggers
            (MatcherSpec.push_of "refs/heads/main" ["src/a.py"]) with
    | Return b =>
        b = push_algorithm modelled_fnmatch modelled_re_match main_src_triggers
              (MatcherSpec.push_of "refs/heads/main" ["src/a.py"])
    | Raise e =>
        is_tag (MatcherSpec.push_of "refs/heads/main" ["src/a.py"]) = false
        ∧ library_raises modelled_fnmatch modelled_re_match main_src_triggers
            (MatcherSpec.push_of "refs/heads/main" ["src/a.py"]) e
    end.
Proof.
  split; [reflexivity|].
  apply (matches_push_algorithm modelled_fnmatch modelled_re_match main_src_triggers
           (MatcherSpec.push_of "refs/heads/main" ["src/a.py"])).
  reflexivity.
Defined.

(** C1 as claimed fails: the claimed algorithm applies the path step to a
    tag push and answers false (no changed file matches [paths]), while the
    code answers true because the tag matches [tags]. *)
Lemma matches_push_tag_ignores_paths :
  matches_push modelled_fnmatch modelled_re_match tag_with_paths_triggers
    MatcherSpec.tag_with_paths_event = Return true
  ∧ claimed_push_algorithm modelled_fnmatch modelled_re_match tag_with_paths_triggers
      MatcherSpec.tag_with_paths_event = false.
Proof. split; vm_compute; reflexivity. Qed.

(** An exception of the expression library other than [re.error] is not
    caught: it leaves [matches_push]. *)
Lemma matches_push_passes_library_exception :
  matches_push (fun _ _ => Return false) (fun _ _ => Raise RecursionError)
    main_src_triggers (MatcherSpec.push_of "refs/heads/main" ["a.py"])
  = Raise RecursionError.
Proof. vm_compute; reflexivity. Qed.

(** Scenario S2 of the specification on the code: with
    [paths-ignore: ['**/*.md']] and the changed files [README.md] and
    [docs/a.md] the push still matches, since [README.md] is not ignored. *)
Lemma readme_push_is_not_ignored :
  matches_push modelled_fnmatch modelled_re_match
    (VDict [(KStr "push", VDict [(KStr "paths_ignore", VList [VStr "**/*.md"])])])
    (MatcherSpec.push_of "refs/heads/main" ["README.md"; "docs/a.md"]) = Return true.
Proof. vm_compute; reflexivity. Qed.

End MatchingFacts.

(** ** Matrix expansion *)

Module MatrixFacts.
Import Matrix.

Section Expand.
Context {V : Type} (py_eq : V → V → bool).

Lemma bind_singleton_fmap {A B} (f : A → B) (l : list A) :
  l ≫= (λ x, [f x]) = f <$> l.
Proof.
  induction l as [|x l IH]; [done|].
  cbn [mbind list_bind fmap list_fmap]. by rewrite IH.
Qed.

Lemma product_cons (vs : list V) (rest : list (list V)) :
  product (vs :: rest) = vs ≫= λ v, cons v <$> product rest.
Proof.
  cbn [product]. induction vs as [|v vs IH]; [done|].
  cbn [mbind list_bind]. by rewrite IH, bind_singleton_fmap.
Qed.

Lemma cartesian_cons (k : string) (vs : list V) (rest : list (string * list V)) :
  cartesian ((k, vs) :: rest) = vs ≫= λ v, cons (k, v) <$> cartesian rest.
Proof.
  cbn [cartesian]. induction vs as [|v vs IH]; [done|].
  cbn [mbind list_bind]. by rewrite IH, bind_singleton_fmap.
Qed.

(** The code's [dict(zip(keys, combo))] over [itertools.product] is the
    cartesian product in declaration order. *)
Lemma product_zip_cartesian (vars : list (string * list V)) :
  zip vars.*1 <$> product vars.*2 = cartesian vars.
Proof.
  induction vars as [|[k vs] rest IH]; [done|].
  rewrite cartesian_cons. cbn [fmap list_fmap fst snd].
  rewrite product_cons, <- IH. clear IH.
  induction vs as [|v vs IHvs]; [done|].
  cbn [mbind list_bind]. rewrite fmap_app. f_equal; [|exact IHvs].
  rewrite <- !list_fmap_compose. done.
Qed.

Lemma length_product (values : list (list V)) :
  length (product values) = foldr Nat.mul 1 (length <$> values).
Proof.
  induction values as [|vs rest IH]; [done|].
  rewrite product_cons. cbn [fmap list_fmap foldr]. rewrite <- IH. clear IH.
  induction vs as [|v vs IHvs]; [done|].
  cbn [mbind list_bind length]. rewrite length_app, length_fmap, IHvs. lia.
Qed.

Lemma length_cartesian (vars : list (string * list V)) :
  length (cartesian vars) = foldr Nat.mul 1 (length <$> vars.*2).
Proof. by rewrite <- product_zip_cartesian, length_fmap, length_product. Qed.

Lemma matches_pattern_spec (comb entry : combination V) :
  _matches_pattern py_eq comb entry = true ↔ entry_matches py_eq comb entry.
Proof.
  unfold _matches_pattern, entry_matches. rewrite forallb_forall. split.
  - intros H k v Hin. apply list_elem_of_In in Hin. specialize (H _ Hin). simpl in H.
    destruct (Py.assoc k comb) as [v'|]; [eauto|done].
  - intros H [k v] Hin. apply list_elem_of_In in Hin.
    destruct (H k v Hin) as (v' & -> & Hv). done.
Qed.

Lemma should_exclude_spec (comb : combination V) (excl : list (combination V)) :
  _should_exclude py_eq comb excl = true ↔ dropped py_eq comb excl.
Proof.
  unfold _should_exclude, dropped. rewrite existsb_exists. split.
  - intros (e & Hin & He). exists e. split; [by apply list_elem_of_In|].
    by apply matches_pattern_spec.
  - intros (e & Hin & He). exists e. split; [by apply list_elem_of_In|].
    by apply matches_pattern_spec.
Qed.

(** The kept part of the base product: the combinations of the cartesian
    product that no exclude entry matches, in the order of the product. *)
Lemma kept_base_spec (s : strategy V) (comb : combination V) :
  comb ∈ kept_base py_eq s ↔
  comb ∈ cartesian (strategy_variables s) ∧ ¬ dropped py_eq comb (strategy_exclude s).
Proof.
  unfold kept_base. rewrite list_elem_of_In, filter_In, <- list_elem_of_In.
  rewrite negb_true_iff, <- should_exclude_spec.
  destruct (_should_exclude _ _ _); intuition congruence.
Qed.

Lemma length_filter_negb {A} (f : A → bool) (l : list A) :
  length (List.filter (fun x => negb (f x)) l)
  = length l - length (List.filter f l).
Proof.
  induction l as [|x l IH]; simpl; [done|].
  pose proof (List.filter_length_le f l).
  destruct (f x); simpl; rewrite IH; lia.
Qed.

Lemma strategy_variables_get (s : strategy V) :
  strategy_variables s = default [] (variables (default empty_matrix (strategy_matrix s))).
Proof. unfold strategy_variables. by destruct (strategy_matrix s). Qed.

Lemma strategy_include_get (s : strategy V) :
  strategy_include s = default [] (include (default empty_matrix (strategy_matrix s))).
Proof. unfold strategy_include. by destruct (strategy_matrix s). Qed.

Lemma strategy_exclude_get (s : strategy V) :
  strategy_exclude s = default [] (exclude (default empty_matrix (strategy_matrix s))).
Proof. unfold strategy_exclude. by destruct (strategy_matrix s). Qed.

Lemma expand_matrix_unfold (s : strategy V) :
  expand_matrix py_eq s = coded_expansion py_eq s.
Proof.
  unfold expand_matrix, coded_expansion, kept_base.
  rewrite product_zip_cartesian, <- strategy_variables_get,
    <- strategy_include_get, <- strategy_exclude_get.
  destruct (matrix_falsy _); [done|]. by destruct (Matcher.is_nil _).
Qed.

(** C5, as the code has it.  [expand_matrix] yields the single empty
    combination for an empty matrix; only the include entries, in list
    order, for a matrix that declares no variable; and otherwise the
    cartesian product over the variables in declaration order without the
    combinations matched by an exclude entry (an entry matches when each of
    its keys is a key of the combination with an equal value), followed by
    the include entries in list order. *)
Theorem expand_matrix_coded (s : strategy V) :
  expand_matrix py_eq s = coded_expansion py_eq s
  ∧ kept_base py_eq s `sublist_of` cartesian (strategy_variables s)
  ∧ (∀ comb, comb ∈ kept_base py_eq s ↔
       comb ∈ cartesian (strategy_variables s)
       ∧ ¬ dropped py_eq comb (strategy_exclude s)).
Proof.
  split; [apply expand_matrix_unfold|]. split; [|apply kept_base_spec].
  unfold kept_base. generalize (cartesian (strategy_variables s)). intros l.
  induction l as [|x l IH]; simpl; [done|].
  destruct (negb _); by constructor.
Qed.

(** With at least one declared variable the expansion is the claimed one. *)
Lemma expand_matrix_with_variables (s : strategy V) :
  strategy_variables s ≠ [] →
  expand_matrix py_eq s = claimed_expansion py_eq s.
Proof.
  intros Hv. rewrite expand_matrix_unfold. unfold coded_expansion, claimed_expansion.
  destruct (matrix_falsy _) eqn:Hf.
  - exfalso. apply Hv. rewrite strategy_variables_get.
    unfold matrix_falsy in Hf. by destruct (variables _).
  - by destruct (strategy_variables s).
Qed.

Lemma expand_matrix_empty (s : strategy V) :
  matrix_falsy (default empty_matrix (strategy_matrix s)) = true →
  expand_matrix py_eq s = [[]].
Proof. intros H. unfold expand_matrix. by rewrite H. Qed.

(** A list is its members that pass a test together with those that fail
    it. *)
Lemma filter_partition {A} (f : A → bool) (l : list A) :
  (List.filter (fun x => negb (f x)) l ++ List.filter f l)%list ≡ₚ l.
Proof.
  induction l as [|x l IH]; simpl; [done|].
  destruct (f x); simpl.
  - rewrite <- Permutation_middle. by constructor.
  - by constructor.
Qed.

Lemma excluded_base_spec (s : strategy V) (comb : combination V) :
  comb ∈ excluded_base py_eq s ↔
  comb ∈ cartesian (strategy_variables s) ∧ dropped py_eq comb (strategy_exclude s).
Proof.
  unfold excluded_base. rewrite list_elem_of_In, filter_In, <- list_elem_of_In.
  by rewrite should_exclude_spec.
Qed.

(** C9, as the code has it.  The number of combinations is 1 for an empty
    matrix, the number of include entries for a matrix that declares no
    variable, and otherwise the product of the lengths of the value lists
    minus the number of excluded base combinations plus the number of
    include entries.  The excluded base combinations are the combinations
    of the cartesian product that some exclude entry matches: the product
    splits into the kept combinations, which no exclude entry matches, and
    the excluded ones, each of which one does, every occurrence in one of
    the two parts. *)
Theorem count_matrix_combinations_coded (s : strategy V) :
  count_matrix_combinations py_eq s = coded_count py_eq s
  ∧ length (cartesian (strategy_variables s)) = product_size s
  ∧ (kept_base py_eq s ++ excluded_base py_eq s)%list ≡ₚ cartesian (strategy_variables s)
  ∧ Forall (fun comb => dropped py_eq comb (strategy_exclude s)) (excluded_base py_eq s)
  ∧ Forall (fun comb => ¬ dropped py_eq comb (strategy_exclude s)) (kept_base py_eq s)
  ∧ excluded_base py_eq s `sublist_of` cartesian (strategy_variables s).
Proof.
  split; [|split; [|split; [|split; [|split]]]].
  - unfold count_matrix_combinations, coded_count. rewrite expand_matrix_unfold.
    unfold coded_expansion. destruct (matrix_falsy _); [done|].
    destruct (Matcher.is_nil _); [done|].
    rewrite length_app. unfold kept_base, excluded_base, product_size.
    by rewrite length_filter_negb, length_cartesian.
  - apply length_cartesian.
  - apply filter_partition.
  - apply Forall_forall. intros comb Hc. by apply excluded_base_spec in Hc as [_ ?].
  - apply Forall_forall. intros comb Hc. by apply kept_base_spec in Hc as [_ ?].
  - unfold excluded_base. generalize (cartesian (strategy_variables s)). intros l.
    induction l as [|x l IH]; simpl; [done|].
    destruct (_should_exclude _ _ _); by constructor.
Qed.

Lemma excluded_base_le (s : strategy V) :
  (length (excluded_base py_eq s) ≤ product_size s)%nat.
Proof.
  unfold excluded_base, product_size. rewrite <- length_cartesian.
  apply List.filter_length_le.
Qed.

Lemma count_with_variables (s : strategy V) :
  strategy_variables s ≠ [] →
  count_matrix_combinations py_eq s = claimed_count py_eq s.
Proof.
  intros Hv. unfold count_matrix_combinations, claimed_count.
  rewrite (expand_matrix_with_variables _ Hv). unfold claimed_expansion.
  rewrite length_app. unfold kept_base, excluded_base, product_size.
  by rewrite length_filter_negb, length_cartesian.
Qed.

End Expand.

(** Scenario S4: four instances, in this order. *)
Lemma expand_matrix_s4 :
  expand_matrix Py.py_eq s4_strategy =
  [ [("os", Py.VStr "ubuntu"); ("node", Py.VInt 18)];
    [("os", Py.VStr "ubuntu"); ("node", Py.VInt 20)];
    [("os", Py.VStr "macos"); ("node", Py.VInt 20)];
    [("os", Py.VStr "ubuntu"); ("node", Py.VInt 16); ("experimental", Py.VBool true)] ].
Proof. vm_compute; reflexivity. Qed.

(** C5 as claimed fails on a matrix that only lists include entries: the
    claim's (empty) cartesian product contributes the empty combination,
    the code yields the include entry alone. *)
Lemma expand_matrix_include_only :
  expand_matrix Py.py_eq include_only_strategy = [[("os", Py.VStr "ubuntu")]]
  ∧ claimed_expansion Py.py_eq include_only_strategy = [[]; [("os", Py.VStr "ubuntu")]].
Proof. split; vm_compute; reflexivity. Qed.

(** C9 as claimed fails on the same matrix: one combination is yielded,
    the claimed formula gives 1 - 0 + 1. *)
Lemma count_include_only :
  count_matrix_combinations Py.py_eq include_only_strategy = 1
  ∧ claimed_count Py.py_eq include_only_strategy = 2.
Proof. split; vm_compute; reflexivity. Qed.

End MatrixFacts.

(** ** Webhook signatures *)

Module SignatureFacts.
Import Py Signature.

Lemma falsy_empty (s : string) : PyStr.falsy s = true ↔ s = "".
Proof. by destruct s. Qed.

Lemma append_cons (c : ascii) (p s : string) : String c p ++ s = String c (p ++ s).
Proof. reflexivity. Qed.

Lemma startswith_app (p s : string) : PyStr.startswith p (p ++ s) = true.
Proof.
  induction p as [|c p IH]; [done|].
  rewrite append_cons. simpl. by rewrite Ascii.eqb_refl.
Qed.

Lemma drop_app (p s : string) : PyStr.drop (String.length p) (p ++ s) = s.
Proof.
  induction p as [|c p IH]; [by destruct s|]. by rewrite append_cons.
Qed.

Lemma startswith_split (p s : string) :
  PyStr.startswith p s = true → s = p ++ PyStr.drop (String.length p) s.
Proof.
  revert s. induction p as [|c p IH]; intros s; [by destruct s|].
  destruct s as [|d s]; [done|]. simpl. intros [Hc Hp]%andb_prop.
  apply Ascii.eqb_eq in Hc as ->. rewrite append_cons. f_equal. by apply IH.
Qed.

Lemma hex_isascii (bs : list Byte.byte) : PyStr.isascii (hex bs) = true.
Proof.
  induction bs as [|b bs IH]; [done|].
  cbn [hex PyStr.isascii]. rewrite IH.
  destruct b; vm_compute; reflexivity.
Qed.

Section Verifier.
Variable hmac_sha256 : list Byte.byte → list Byte.byte → list Byte.byte.

Lemma compare_digest_true (a b : string) :
  compare_digest a b = Return true ↔ PyStr.isascii a && PyStr.isascii b = true ∧ a = b.
Proof.
  unfold compare_digest. destruct (_ && _); [|split; [done|intros [? _]; done]].
  rewrite <- String.eqb_eq. destruct (String.eqb a b); [done|].
  split; [done|]. by intros [_ ?].
Qed.

Lemma verify_true_iff (secret : string) (payload : list Byte.byte) (header : option string) :
  verify hmac_sha256 secret payload header = Return true ↔
  secret = "" ∨
  header = Some ("sha256=" ++ hex (hmac_sha256 (encode_utf8 secret) payload)).
Proof.
  unfold verify, _compute_signature, SIGNATURE_PREFIX.
  destruct (PyStr.falsy secret) eqn:Hs.
  { apply falsy_empty in Hs. naive_solver. }
  assert (secret ≠ "") as Hne by (intros ->; done).
  split.
  - destruct header as [sig|]; [|done].
    destruct (PyStr.falsy sig); [done|].
    destruct (PyStr.startswith "sha256=" sig) eqn:Hp; [|done]. cbn [negb].
    intros [_ Heq]%compare_digest_true. right. f_equal.
    rewrite Heq. by apply startswith_split.
  - intros [?| ->]; [done|].
    rewrite startswith_app, drop_app. cbn [negb PyStr.falsy].
    rewrite append_cons. cbn [PyStr.falsy].
    apply compare_digest_true. by rewrite hex_isascii.
Qed.

Lemma verify_rejects_no_header (secret : string) (payload : list Byte.byte) :
  secret ≠ "" →
  verify hmac_sha256 secret payload None = Return false
  ∧ verify hmac_sha256 secret payload (Some "") = Return false.
Proof. intros Hs. unfold verify. by destruct secret. Qed.

Lemma verify_rejects_no_prefix (secret : string) (payload : list Byte.byte) (h : string) :
  secret ≠ "" → PyStr.startswith "sha256=" h = false →
  verify hmac_sha256 secret payload (Some h) = Return false.
Proof.
  intros Hs Hp. unfold verify, SIGNATURE_PREFIX. rewrite Hp.
  destruct secret; [done|]. by destruct h.
Qed.

Lemma verify_rejects_other_digest (secret : string) (payload : list Byte.byte) (d : string) :
  secret ≠ "" → PyStr.isascii d = true →
  d ≠ hex (hmac_sha256 (encode_utf8 secret) payload) →
  verify hmac_sha256 secret payload (Some ("sha256=" ++ d)) = Return false.
Proof.
  intros Hs Ha Hd. unfold verify, SIGNATURE_PREFIX, _compute_signature.
  rewrite startswith_app, drop_app. destruct secret; [done|].
  rewrite append_cons. cbn [PyStr.falsy negb]. unfold compare_digest.
  rewrite hex_isascii, Ha. cbn [andb]. f_equal.
  apply String.eqb_neq. congruence.
Qed.

(** C2.  [verify] returns true exactly when the verifier's secret is empty,
    or the header is [sha256=] followed by the hexadecimal HMAC-SHA256
    digest of the body under the secret.  With a non-empty secret it returns
    false for a missing or empty header, for a header without the [sha256=]
    prefix, and for a header whose digest part is another string of
    hexadecimal (or any ASCII) characters. *)
Theorem verify_spec (secret : string) (payload : list Byte.byte) (header : option string) :
  (verify hmac_sha256 secret payload header = Return true ↔
   secret = "" ∨
   header = Some ("sha256=" ++ hex (hmac_sha256 (encode_utf8 secret) payload)))
  ∧ (secret ≠ "" → header = None ∨ header = Some "" →
     verify hmac_sha256 secret payload header = Return false)
  ∧ (secret ≠ "" → ∀ h, header = Some h → PyStr.startswith "sha256=" h = false →
     verify hmac_sha256 secret payload header = Return false)
  ∧ (secret ≠ "" → ∀ d, header = Some ("sha256=" ++ d) → PyStr.isascii d = true →
     d ≠ hex (hmac_sha256 (encode_utf8 secret) payload) →
     verify hmac_sha256 secret payload header = Return false).
Proof.
  split; [apply verify_true_iff|]. repeat split.
  - intros Hs [-> | ->]; by apply verify_rejects_no_header.
  - intros Hs h -> Hp. by apply verify_rejects_no_prefix.
  - intros Hs d -> Ha Hd. by apply verify_rejects_other_digest.
Qed.

(** The convenience function with an explicit secret, where the settings
    define no [GITHUB_WEBHOOK_SECRET]: a missing or empty secret accepts. *)
Lemma verify_github_signature_iff (payload : list Byte.byte) (header secret : option string) :
  verify_github_signature hmac_sha256 "" payload header secret = Return true ↔
  secret = None ∨ secret = Some ""
  ∨ ∃ s, secret = Some s
      ∧ header = Some ("sha256=" ++ hex (hmac_sha256 (encode_utf8 s) payload)).
Proof.
  unfold verify_github_signature, GitHubSignatureVerifier.
  destruct secret as [[|c s]|]; cbn [PyStr.falsy]; rewrite verify_true_iff.
  - split; intros _; [right|]; by left.
  - split; [intros [?| ->]; [done|eauto]|].
    intros [?|[?|(s' & ? & ->)]]; simplify_eq; by right.
  - split; intros _; by left.
Qed.

End Verifier.

(** Scenario S6 with the stand-in: the right header is accepted, a flipped
    hexadecimal digit and a missing prefix are rejected, and a digest part
    with a non-ASCII character makes [compare_digest] raise. *)
Lemma verify_examples :
  verify toy_hmac "s" [Byte.x62] (Some "sha256=7362") = Return true
  ∧ verify toy_hmac "s" [Byte.x62] (Some "sha256=7363") = Return false
  ∧ verify toy_hmac "s" [Byte.x62] (Some "7362") = Return false
  ∧ verify toy_hmac "s" [Byte.x62] None = Return false
  ∧ verify toy_hmac "" [Byte.x62] None = Return true
  ∧ verify toy_hmac "s" [Byte.x62] (Some (String.append "sha256=" (String (ascii_of_nat 233) "")))
    = Raise TypeError.
Proof. repeat split; vm_compute; reflexivity. Qed.

End SignatureFacts.

(** ** Execution numbers *)

Module ExecutionFacts.
Import Py Executions.

Lemma or_zero_default (x : option N) : or_zero x = default 0%N x.
Proof. destruct x as [n|]; [|done]. simpl. by destruct (N.eqb_spec n 0). Qed.

Lemma last_number_bound (rows : list Execution) (e : Execution) :
  e ∈ rows → ∃ m, last_number rows = Some m ∧ (number e ≤ m)%N.
Proof.
  unfold last_number. destruct rows as [|r rows]; [by intros ?%elem_of_nil|].
  cbn [fmap list_fmap]. intros He.
  exists (foldr N.max (number r) (number <$> rows)). split; [done|].
  apply elem_of_cons in He as [->|He]; [|].
  - induction rows as [|x rows IH]; cbn [fmap list_fmap foldr]; lia.
  - induction rows as [|x rows IH]; [by apply elem_of_nil in He|].
    cbn [fmap list_fmap foldr]. apply elem_of_cons in He as [->|He]; [lia|].
    specialize (IH He). lia.
Qed.

(** One more than the largest number of the pipeline is not taken. *)
Lemma max_plus_one_fresh (table : list Execution) (p : N) :
  existsb (fun e => N.eqb (pipeline e) p && N.eqb (number e) (max_plus_one table p)) table
  = false.
Proof.
  apply not_true_iff_false. rewrite existsb_exists.
  intros (e & Hin & [Hp Hn]%andb_prop).
  apply N.eqb_eq in Hn. unfold max_plus_one in Hn.
  assert (e ∈ of_pipeline table p) as He.
  { unfold of_pipeline. apply list_elem_of_In, filter_In. done. }
  destruct (last_number_bound _ _ He) as (m & Hm & Hle). rewrite Hm in Hn. simpl in Hn. lia.
Qed.

(** [get_next_number] is the allocation that the specification asks for. *)
Lemma get_next_number_max (table : list Execution) (self : Execution) :
  get_next_number table self = max_plus_one table (pipeline self).
Proof. unfold get_next_number, max_plus_one. by rewrite or_zero_default. Qed.

(** C4, evaluated on the code.  The retry endpoint allocates the number of
    executions plus one: after a deletion this is 3 where the largest
    number plus one is 4, the number 3 is taken, and the insertion fails on
    the uniqueness constraint. *)
Theorem retry_allocates_count_plus_one :
  retry pruned_table (row 100 1 "failed") 5 "ana" 103 = Raise IntegrityError
  ∧ (N.of_nat (length (of_pipeline pruned_table 7)) + 1 = 3)%N
  ∧ max_plus_one pruned_table 7 = 4%N
  ∧ get_next_number pruned_table (row 100 1 "failed") = 4%N.
Proof. repeat split; vm_compute; reflexivity. Qed.

End ExecutionFacts.

(** ** The webhook view *)

Module WebhookFacts.
Import Py Events Executions WebhookView.

Section View.
Variable now : N.
Variable uuid4 : list Execution → N.
Variable matches_push : PipelineConfig → PushEvent → result bool.
Variable matches_pull_request : PipelineConfig → PullRequestEvent → result bool.

(** The creation of an execution for a push whose ref is not deleted never
    fails: the new execution gets the largest number of the pipeline plus
    one (1 for the first) and is appended to the table. *)
Theorem create_for_push_number (d : db) (p : Pipeline) (c : PipelineConfig)
    (event : PushEvent) (delivery_id : string) :
  deleted event = false →
  ∃ e d', _create_execution_for_push now uuid4 d p c event delivery_id = Done (Some e) d'
    ∧ number e = max_plus_one (executions d) (pipeline_id p)
    ∧ executions d' = (executions d ++ [e])%list.
Proof.
  intros Hd. unfold _create_execution_for_push. rewrite Hd.
  unfold create. cbn [Executions.pipeline number].
  rewrite ExecutionFacts.or_zero_default.
  change (default 0%N ?x + 1)%N with (max_plus_one (executions d) (pipeline_id p)).
  rewrite ExecutionFacts.max_plus_one_fresh. eauto.
Qed.

(** The creation of an execution for a pull request never fails: the new
    execution gets the largest number of the pipeline plus one (1 for the
    first) and is appended to the table. *)
Theorem create_for_pr_number (d : db) (p : Pipeline) (c : PipelineConfig)
    (event : PullRequestEvent) (delivery_id : string) :
  ∃ e d', _create_execution_for_pr now uuid4 d p c event delivery_id = Done (Some e) d'
    ∧ number e = max_plus_one (executions d) (pipeline_id p)
    ∧ executions d' = (executions d ++ [e])%list.
Proof.
  unfold _create_execution_for_pr.
  unfold create. cbn [Executions.pipeline number].
  rewrite ExecutionFacts.or_zero_default.
  change (default 0%N ?x + 1)%N with (max_plus_one (executions d) (pipeline_id p)).
  rewrite ExecutionFacts.max_plus_one_fresh. eauto.
Qed.

(** For a deleted ref the creation step returns nothing and writes nothing. *)
Lemma create_for_push_deleted (d : db) (p : Pipeline) (c : PipelineConfig)
    (event : PushEvent) (delivery_id : string) :
  deleted event = true →
  _create_execution_for_push now uuid4 d p c event delivery_id = Done None d.
Proof. intros Hd. unfold _create_execution_for_push. by rewrite Hd. Qed.

Lemma process_pipeline_deleted (d : db) (event : PushEvent) (delivery_id : string)
    (p : Pipeline) (event_type : string) :
  deleted event = true →
  match process_pipeline now uuid4 matches_push matches_pull_request d event_type
          (ParsedPush event) delivery_id p with
  | Done created d' => created = None ∧ d' = d
  | Failed x => matcher_raises matches_push matches_pull_request d (ParsedPush event) x
  end.
Proof.
  intros Hd. unfold process_pipeline.
  destruct (get_latest_config d p) as [c|] eqn:Hc; [|done].
  destruct (is_valid c); [|done]. cbn [negb].
  destruct (String.eqb event_type "push"); [|done].
  destruct (matches_push c event) as [[|]|x] eqn:Hm; [| done |].
  - by rewrite create_for_push_deleted.
  - exists c. split; [|done]. clear Hm. unfold get_latest_config in Hc.
    revert c Hc. induction (configs d) as [|c0 cs IH]; [done|]. cbn [foldr].
    intros c Hc. rewrite elem_of_cons.
    destruct (N.eqb _ _ && is_valid c0); [|right; by apply IH].
    destruct (foldr _ None cs) as [b|] eqn:Hb.
    + destruct (version b <? version c0)%N; simplify_eq; [by left|right; by apply IH].
    + simplify_eq. by left.
Qed.

(** C10.  For a push event whose [deleted] flag is set, [_process_event]
    creates no execution for any pipeline, whatever the matcher answers for
    the pipeline's configuration: when it returns, it returns no execution
    and the tables are as they were; it fails only with an exception that
    the matcher raises on the event, and then the pipelines before the
    failing one were passed without an execution and without a change of
    the tables. *)
Theorem deleted_push_creates_no_execution (d : db) (event : PushEvent)
    (pipelines : list Pipeline) (delivery_id event_type : string) :
  deleted event = true →
  match _process_event now uuid4 matches_push matches_pull_request d event_type
          (ParsedPush event) pipelines delivery_id with
  | Done created d' => created = [] ∧ d' = d
  | Failed x =>
      matcher_raises matches_push matches_pull_request d (ParsedPush event) x
      ∧ ∃ before p after,
          pipelines = (before ++ p :: after)%list
          ∧ _process_event now uuid4 matches_push matches_pull_request d event_type
              (ParsedPush event) before delivery_id = Done [] d
  end.
Proof.
  intros Hd. induction pipelines as [|p rest IH]; [done|].
  cbn [_process_event].
  pose proof (process_pipeline_deleted d event delivery_id p event_type Hd) as Hp.
  destruct (process_pipeline _ _ _ _ _ _ _ _ _) as [created d'|x] eqn:Hpp.
  - destruct Hp as [-> ->].
    destruct (_process_event _ _ _ _ _ _ _ _ _) as [created d'|x]; [done|].
    destruct IH as (Hx & before & q & after & -> & Hb). split; [done|].
    exists (p :: before), q, after. split; [done|].
    cbn [_process_event]. by rewrite Hpp, Hb.
  - split; [done|]. by exists [], p, rest.
Qed.

End View.

(** The theorem at a deleted branch [main], which the push trigger of the
    pipeline matches. *)
Lemma deleted_push_creates_no_execution_witness :
  deleted deleted_main = true
  ∧ ViewMatcher.push_matcher MatchingSpec.modelled_fnmatch MatchingSpec.modelled_re_match
      main_config deleted_main = Return true
  ∧ _process_event 0%N (fun _ => 0%N)
      (ViewMatcher.push_matcher MatchingSpec.modelled_fnmatch MatchingSpec.modelled_re_match)
      ViewMatcher.pull_request_matcher
      main_db "push" (ParsedPush deleted_main) [main_pipeline] "d1" = Done [] main_db.
Proof.
  split; [reflexivity|]. split; [vm_compute; reflexivity|].
  pose proof (deleted_push_creates_no_execution 0%N (fun _ => 0%N)
                (ViewMatcher.push_matcher MatchingSpec.modelled_fnmatch
                   MatchingSpec.modelled_re_match)
                ViewMatcher.pull_request_matcher main_db deleted_main
                [main_pipeline] "d1" "push" eq_refl) as H.
  destruct (_process_event _ _ _ _ _ _ _ _ _) as [created d'|x].
  - by destruct H as [-> ->].
  - exfalso. destruct H as [(c & Hc & H) _].
    apply list_elem_of_singleton in Hc as ->. vm_compute in H. discriminate H.
Defined.

(** The theorem at a push to [main] of the pipeline above. *)
Lemma create_for_push_number_witness :
  Events.deleted (MatcherSpec.push_of "refs/heads/main" []) = false
  ∧ ∃ e d', _create_execution_for_push 0%N (fun _ => 103%N) main_db main_pipeline main_config
              (MatcherSpec.push_of "refs/heads/main" []) "d1" = Done (Some e) d'
    ∧ number e = max_plus_one (executions main_db) (pipeline_id main_pipeline)
    ∧ executions d' = (executions main_db ++ [e])%list.
Proof.
  split; [reflexivity|].
  apply (create_for_push_number 0%N (fun _ => 103%N) main_db main_pipeline main_config
           (MatcherSpec.push_of "refs/heads/main" []) "d1"). reflexivity.
Defined.

(** The same push without the [deleted] flag creates execution number 3. *)
Lemma live_push_creates_execution :
  match _process_event 0%N (fun _ => 103%N)
          (ViewMatcher.push_matcher MatchingSpec.modelled_fnmatch
             MatchingSpec.modelled_re_match)
          ViewMatcher.pull_request_matcher main_db "push"
          (ParsedPush (MatcherSpec.push_of "refs/heads/main" ["a.py"])) [main_pipeline] "d1" with
  | Done [e] d' => number e = 3%N ∧ length (executions d') = 3
  | _ => False
  end.
Proof. vm_compute. split; reflexivity. Qed.

End WebhookFacts.

(** ** Runner status updates *)

Module RunnerFacts.
Import Py Runner.

Section Consumer.
Variable now : N.

(** For a step, [finished_at] is written exactly for the terminal statuses,
    and [started_at] exactly for [running]. *)
Lemma step_finished_at_iff (status : string) (exit_code : option Z) (outputs : value) :
  (uf_finished_at (step_update_fields now status exit_code outputs) = Some now
   ↔ terminal status = true)
  ∧ (uf_started_at (step_update_fields now status exit_code outputs) = Some now
     ↔ status = "running").
Proof.
  unfold step_update_fields, terminal.
  destruct (String.eqb_spec status "running") as [->|Hr]; [by split|].
  destruct (in_strings status _); split; split; done.
Qed.

(** For a job, [skipped] is left out of the statuses that write
    [finished_at]. *)
Lemma job_finished_at_iff (status : string) (outputs : value) :
  (uf_finished_at (job_update_fields now status outputs) = Some now
   ↔ terminal status = true ∧ status ≠ "skipped")
  ∧ (uf_started_at (job_update_fields now status outputs) = Some now
     ↔ status = "running").
Proof.
  unfold job_update_fields, terminal, in_strings. cbn [existsb].
  destruct (String.eqb_spec status "running") as [->|Hr];
    [split; [split; [done|by intros [? _]]|done]|].
  destruct (String.eqb_spec status "success") as [->|?]; [by repeat split|].
  destruct (String.eqb_spec status "failed") as [->|?]; [by repeat split|].
  destruct (String.eqb_spec status "cancelled") as [->|?]; [by repeat split|].
  destruct (String.eqb_spec status "timeout") as [->|?]; [by repeat split|].
  cbn [orb]. split; [|done]. split; [done|]. intros [Ht Hs].
  destruct (String.eqb_spec status "skipped"); done.
Qed.

(** C7, evaluated on the code.  A status update that moves a job to
    [skipped], a terminal status, writes no [finished_at]; the same update
    for a step does. *)
Theorem job_skipped_has_no_finished_at (j : Job) (s : Step) (outputs : value) :
  terminal "skipped" = true
  ∧ uf_finished_at (job_update_fields now "skipped" outputs) = None
  ∧ uf_finished_at (step_update_fields now "skipped" None outputs) = Some now
  ∧ jobs (update_entity_status now {| jobs := [j]; steps := [s] |} "job" (job_id j)
            "skipped" None outputs)
    = [ {| job_id := job_id j; job_execution := job_execution j; job_status := "skipped";
           job_started_at := job_started_at j; job_finished_at := job_finished_at j;
           job_outputs := job_outputs j |} ]
  ∧ step_finished_at <$>
      steps (update_entity_status now {| jobs := [j]; steps := [s] |} "step" (step_id s)
               "skipped" None outputs)
    = [Some now].
Proof.
  repeat split; try reflexivity.
  - cbn. by rewrite N.eqb_refl.
  - cbn. by rewrite N.eqb_refl.
Qed.

End Consumer.

End RunnerFacts.

(** ** Log streaming *)

Module LogFacts.
Import Py Logs LogScope.

Lemma key_leb_spec (a b : N * N * N) :
  key_leb a b = true ↔
  (a.1.1 < b.1.1 ∨ a.1.1 = b.1.1 ∧ (a.1.2 < b.1.2 ∨ a.1.2 = b.1.2 ∧ a.2 ≤ b.2))%N.
Proof.
  destruct a as [[a1 a2] a3], b as [[b1 b2] b3]. unfold key_leb. cbn [fst snd].
  rewrite !orb_true_iff, !andb_true_iff, !orb_true_iff, !andb_true_iff.
  rewrite !N.ltb_lt, !N.eqb_eq, N.leb_le. done.
Qed.

#[global] Instance key_le_total : Total key_le.
Proof. intros a b. unfold key_le. rewrite !key_leb_spec. lia. Qed.

#[global] Instance key_le_trans : Transitive key_le.
Proof. intros a b c. unfold key_le. rewrite !key_leb_spec. lia. Qed.

Lemma merge_sort_take_drop (t : tables) (self : LogConsumer) :
  merge_sort key_le (stored_rows t self)
  = (existing_rows t self ++ drop 1000 (merge_sort key_le (stored_rows t self)))%list.
Proof. unfold existing_rows. by rewrite take_drop. Qed.

(** The frames of [connect], spelled out. *)
Lemma connect_frames (t : tables) (self : LogConsumer) :
  has_permission t self = true →
  connect t self =
  Some (Connected (self_execution_id self) (self_job_id self)
        :: (log_frame <$> existing_rows t self)
        ++ [HistoryComplete (length (existing_rows t self))])%list.
Proof.
  intros Hp. unfold connect, send_history, get_existing_logs. rewrite Hp.
  by rewrite length_fmap.
Qed.

Lemma scope_steps_in_scope (t : tables) (self : LogConsumer) (s : Step) :
  s ∈ scope_steps t self ↔ s ∈ steps t ∧ in_scope t self s.
Proof.
  unfold scope_steps, in_scope. destruct (self_job_id self) as [j|].
  - rewrite !list_elem_of_In, filter_In, N.eqb_eq. done.
  - rewrite !list_elem_of_In, filter_In, existsb_exists. split.
    + intros [Hs (i & Hi & Hi')]. apply N.eqb_eq in Hi'. split; [done|].
      apply list_elem_of_In, list_elem_of_fmap in Hi as (job & -> & Hjob).
      apply list_elem_of_In, filter_In in Hjob as [Hjob He]. apply N.eqb_eq in He.
      exists job. split; [by apply list_elem_of_In|done].
    + intros [Hs (job & Hjob & He & Hj)]. split; [done|].
      exists (job_id job). split; [|by apply N.eqb_eq].
      apply list_elem_of_In, list_elem_of_fmap. exists job. split; [done|].
      apply list_elem_of_In, filter_In. split; [by apply list_elem_of_In|by apply N.eqb_eq].
Qed.

(** The chunks of a table are the chunks of the joined rows together with
    the chunks that found no step to join. *)
Lemma omap_join_partition (ss : list Step) (cs : list LogChunk) :
  ((omap (join ss) cs).*2 ++ List.filter (fun c => bool_decide (join ss c = None)) cs)%list
  ≡ₚ cs.
Proof.
  induction cs as [|c cs IH]; [done|]. cbn [omap list_omap List.filter].
  destruct (join ss c) as [x|] eqn:Hj.
  - rewrite bool_decide_eq_false_2 by done. cbn [fmap list_fmap app].
    assert (x.2 = c) as ->.
    { unfold join in Hj. destruct (List.find _ ss); by simplify_eq/=. }
    by constructor.
  - rewrite bool_decide_eq_true_2 by done.
    rewrite <- Permutation_middle. by constructor.
Qed.

Lemma stored_rows_in_scope (t : tables) (self : LogConsumer) (x : joined) :
  x ∈ stored_rows t self → x.2 ∈ log_chunks t ∧ row_in_scope t self x.
Proof.
  unfold stored_rows. intros (c & Hc & Hj)%list_elem_of_omap.
  unfold join in Hj. destruct (List.find _ _) as [s|] eqn:Hf; [|done].
  simplify_eq/=. apply find_some in Hf as [Hin Heq].
  apply list_elem_of_In, scope_steps_in_scope in Hin as [Hin Hsc].
  split; [done|]. split; [done|]. split; [by apply N.eqb_eq|done].
Qed.

Lemma unjoined_out_of_scope (t : tables) (self : LogConsumer) (c : LogChunk) :
  join (scope_steps t self) c = None → ¬ chunk_in_scope t self c.
Proof.
  unfold join. destruct (List.find _ _) as [s|] eqn:Hf; [done|]. intros _ (s & Hs & Hid & Hsc).
  eapply find_none in Hf; [|apply list_elem_of_In, scope_steps_in_scope; done].
  cbn in Hf. rewrite Hid, N.eqb_refl in Hf. done.
Qed.

(** C8, as the code has it.  An authorized subscriber is sent the
    [connected] frame, then the backlog, then the [history_complete] marker
    with the count of the backlog, and only then the live frames.  The
    backlog is the first 1000 stored chunks of the subscribed steps in the
    order of (job, step order, chunk number): the chunks of the table split
    into the backlog, the chunks [rest] of subscribed steps that are not
    sent, and the chunks [out] of other steps, every stored chunk in one of
    the three; the backlog is in order, holds 1000 rows or all rows of the
    subscribed steps if these are fewer, and no row that is left out comes
    before one that is sent. *)
Theorem session_backlog_first (t : tables) (self : LogConsumer) (live : list group_event) :
  has_permission t self = true →
  ∃ backlog rest out,
    session t self live =
      Some (Connected (self_execution_id self) (self_job_id self)
            :: (log_frame <$> backlog)
            ++ [HistoryComplete (length backlog)]
            ++ (deliver <$> live))%list
    ∧ (backlog.*2 ++ rest.*2 ++ out)%list ≡ₚ log_chunks t
    ∧ Forall (row_in_scope t self) (backlog ++ rest)
    ∧ Forall (fun c => ¬ chunk_in_scope t self c) out
    ∧ Sorted key_le backlog
    ∧ (∀ x y, x ∈ backlog → y ∈ rest → key_le x y)
    ∧ length backlog = ((length backlog + length rest) `min` 1000)%nat
    ∧ backlog = existing_rows t self.
Proof.
  intros Hp.
  pose proof (StronglySorted_merge_sort key_le (stored_rows t self)) as Hsorted.
  pose proof (merge_sort_Permutation key_le (stored_rows t self)) as Hperm.
  rewrite (merge_sort_take_drop t self) in Hsorted, Hperm.
  exists (existing_rows t self), (drop 1000 (merge_sort key_le (stored_rows t self))),
    (List.filter (fun c => bool_decide (join (scope_steps t self) c = None)) (log_chunks t)).
  split; [|split; [|split; [|split; [|split; [|split; [|split]]]]]].
  - unfold session. rewrite (connect_frames _ _ Hp). cbn [fmap option_fmap option_map].
    f_equal. rewrite <- app_comm_cons. f_equal. by rewrite <- app_assoc.
  - rewrite app_assoc, <- fmap_app, Hperm. apply omap_join_partition.
  - apply Forall_forall. intros x Hx. rewrite Hperm in Hx.
    by apply stored_rows_in_scope in Hx as [_ ?].
  - apply Forall_forall. intros c Hc. apply list_elem_of_In, filter_In in Hc as [_ Hc].
    apply bool_decide_eq_true in Hc. by apply unjoined_out_of_scope.
  - apply StronglySorted_Sorted. by eapply (StronglySorted_app_1_l key_le).
  - intros x y Hx Hy. by eapply (StronglySorted_app_1_elem_of key_le (existing_rows t self)).
  - rewrite <- length_app, <- merge_sort_take_drop.
    unfold existing_rows. rewrite length_take. apply Nat.min_comm.
  - done.
Qed.

(** The theorem at the long log, whose 1001 chunks are all of the
    subscribed step. *)
Lemma session_backlog_first_witness :
  has_permission long_log viewer = true
  ∧ ∃ backlog rest out,
      session long_log viewer [] =
        Some (Connected 1 None
              :: (log_frame <$> backlog)
              ++ [HistoryComplete (length backlog)]
              ++ (deliver <$> []))%list
      ∧ (backlog.*2 ++ rest.*2 ++ out)%list ≡ₚ log_chunks long_log
      ∧ Forall (row_in_scope long_log viewer) (backlog ++ rest)
      ∧ Forall (fun c => ¬ chunk_in_scope long_log viewer c) out
      ∧ Sorted key_le backlog
      ∧ (∀ x y, x ∈ backlog → y ∈ rest → key_le x y)
      ∧ length backlog = ((length backlog + length rest) `min` 1000)%nat
      ∧ backlog = existing_rows long_log viewer.
Proof.
  split; [vm_compute; reflexivity|].
  apply (session_backlog_first long_log viewer []). vm_compute; reflexivity.
Defined.

(** C8 as claimed fails: with 1001 stored chunks the backlog holds the
    oldest 1000 (from chunk 0 on), and the most recent chunk, logged at
    time 1000, is not sent. *)
Lemma backlog_leaves_out_most_recent :
  let frames := default [] (session long_log viewer []) in
  length (log_chunks long_log) = 1001%nat
  ∧ frames !! 1%nat = Some (Log 1 1 0 "" "info")
  ∧ frames !! 1000%nat = Some (Log 1 1 999 "" "info")
  ∧ frames !! 1001%nat = Some (HistoryComplete 1000)
  ∧ existsb (logged_at 1000) frames = false.
Proof. vm_compute. repeat split; reflexivity. Qed.

End LogFacts.

(** ** The pipeline parser *)

Module ParserFacts.
Import Py Parser.

Section Recursion.
Variable recursion_limit : nat.

(** What [parse] does catch: a YAML syntax error and a document that is not
    a mapping are reported in the error list. *)
Lemma parse_reports_yaml_error (msg : string) :
  parse recursion_limit (YAMLError msg) = Return (dict [], [YamlSyntaxError msg]).
Proof. reflexivity. Qed.

Lemma parse_reports_non_object (raw : value) :
  match raw with
  | VDict _ => True
  | _ => parse recursion_limit (Loaded raw) = Return (dict [], [NotAnObject])
  end.
Proof. by destruct raw. Qed.

(** C3, evaluated on the code.  [parse] raises [AttributeError] on the
    document [jobs: {build: echo hi}] and on a document whose push trigger
    is the string [main]: [_parse_job] raises on every job that is not a
    mapping, and [_parse_push_trigger] on every push trigger that is neither
    null nor a mapping. *)
Theorem parse_raises_attribute_error (job_key : string) (config : value) (es : list error) :
  parse recursion_limit (Loaded job_is_string) = Raise AttributeError
  ∧ parse recursion_limit (Loaded push_is_string) = Raise AttributeError
  ∧ match config with
    | VDict _ => True
    | _ => _parse_job job_key config es = Raise AttributeError
    end
  ∧ match config with
    | VDict _ | VNone => True
    | _ => _parse_push_trigger config es = Raise AttributeError
    end.
Proof. repeat split; try reflexivity; by destruct config. Qed.

End Recursion.

(** A well-formed document parses without errors, and the cyclic document
    of scenario S5 is reported (with room for 1000 nested calls). *)
Lemma parse_examples :
  snd <$> (match parse 1000 (Loaded small_pipeline) with
           | Return r => Some r
           | Raise _ => None
           end) = Some []
  ∧ snd <$> (match parse 1000 (Loaded cyclic_pipeline) with
             | Return r => Some r
             | Raise _ => None
             end) = Some [CircularDependency].
Proof. split; vm_compute; reflexivity. Qed.

End ParserFacts.

(** * Further properties *)

Module EventFacts.
Import Events.

Lemma startswith_true_iff (p s : string) :
  PyStr.startswith p s = true ↔ ∃ r, s = p ++ r.
Proof.
  split.
  - intros H. eexists. by apply SignatureFacts.startswith_split.
  - intros [r ->]. apply SignatureFacts.startswith_app.
Qed.

(** [PushEvent.tag] is [t] exactly when the ref is [refs/tags/t];
    [PushEvent.branch] takes [refs/heads/] off a branch ref and is the whole
    ref otherwise (for a tag push: the tag ref); [is_tag] holds exactly when
    there is a tag; no ref is both a tag ref and a branch ref. *)
Theorem push_ref_decomposition (e : PushEvent) :
  (∀ t, tag e = Some t ↔ ref e = "refs/tags/" ++ t)
  ∧ (∀ b, ref e = "refs/heads/" ++ b → branch e = b)
  ∧ (is_branch e = false → branch e = ref e)
  ∧ (is_tag e = true ↔ is_Some (tag e))
  ∧ is_tag e && is_branch e = false.
Proof.
  unfold tag, branch, is_tag, is_branch.
  split; [intros t; split|split; [|split; [|split; [split|]]]].
  - destruct (PyStr.startswith "refs/tags/" (ref e)) eqn:H; [|done].
    intros [= <-]. by apply (SignatureFacts.startswith_split "refs/tags/").
  - intros ->. by rewrite SignatureFacts.startswith_app.
  - intros b ->. by rewrite SignatureFacts.startswith_app.
  - by intros ->.
  - by intros ->.
  - destruct (PyStr.startswith "refs/tags/" (ref e)); [done|]. by intros [? ?].
  - destruct (PyStr.startswith "refs/tags/" (ref e)) eqn:Ht; [|done].
    destruct (PyStr.startswith "refs/heads/" (ref e)) eqn:Hh; [|done].
    apply SignatureFacts.startswith_split in Ht, Hh. rewrite Ht in Hh.
    cbv [String.append] in Hh. discriminate Hh.
Qed.

Lemma changed_files_fold (cs : list GitHubCommit) (acc : gset string) (f : string) :
  f ∈ foldl (fun (files : gset string) c =>
               files ∪ list_to_set (added c) ∪ list_to_set (removed c)
                     ∪ list_to_set (modified c)) acc cs
  ↔ f ∈ acc ∨ ∃ c, c ∈ cs ∧ (f ∈ added c ∨ f ∈ removed c ∨ f ∈ modified c).
Proof.
  revert acc. induction cs as [|c cs IH]; intros acc; cbn [foldl].
  - split; [by left|]. intros [?|(c & Hc & _)]; [done|]. by apply elem_of_nil in Hc.
  - rewrite IH. rewrite !elem_of_union, !elem_of_list_to_set. split.
    + intros [[[[?|?]|?]|?]|(c' & Hc' & H)]; [by left|right; exists c..|right; exists c'];
        rewrite elem_of_cons; tauto.
    + intros [?|(c' & Hc' & H)]; [tauto|].
      apply elem_of_cons in Hc' as [->|Hc']; [tauto|]. right. by exists c'.
Qed.

(** [PushEvent.changed_files] lists every file once, and a file is listed
    exactly when some commit of the push added, removed or modified it. *)
Theorem changed_files_spec (e : PushEvent) :
  NoDup (changed_files e)
  ∧ ∀ f, f ∈ changed_files e ↔
         ∃ c, c ∈ commits e ∧ (f ∈ added c ∨ f ∈ removed c ∨ f ∈ modified c).
Proof.
  unfold changed_files. split; [apply NoDup_elements|].
  intros f. rewrite elem_of_elements, changed_files_fold. split; [|by right].
  intros [H|H]; [|done]. by apply elem_of_empty in H.
Qed.

End EventFacts.

Module PullRequestFacts.
Import Py Events Matching MatchingSpec MatchingFacts.

Lemma str_in_strings (x : string) (ps : list string) :
  existsb (py_eq (VStr x)) (VStr <$> ps) = true ↔ x ∈ ps.
Proof.
  rewrite existsb_exists. split.
  - intros (v & Hv & He). apply list_elem_of_In, list_elem_of_fmap in Hv as (p & -> & Hp).
    cbn in He. by apply String.eqb_eq in He as ->.
  - intros Hx. exists (VStr x). split.
    + apply list_elem_of_In, list_elem_of_fmap. by exists x.
    + cbn. apply String.eqb_refl.
Qed.

(** The filters of a nonempty typed mapping. *)
Lemma pull_request_filters (d : list (key * value)) (event : PullRequestEvent) :
  forallb (filter_typed d) ["types"; "branches"; "branches_ignore"] = true →
  ∃ b,
    (let* types := get (VDict d) "types" default_types in
     let* listed := str_in (action event) types in
     if negb listed then Return false
     else
       let* branches := get (VDict d) "branches" (VList []) in
       let* branches_ignore := get (VDict d) "branches_ignore" (VList []) in
       let base_branch := base_branch event in
       let* ign := (if truthy branches_ignore
                    then _matches_pattern_list base_branch branches_ignore
                    else Return false) in
       if ign : bool then Return false
       else
         let* miss := (if truthy branches
                       then let* m := _matches_pattern_list base_branch branches in
                            Return (negb m)
                       else Return false) in
         if miss : bool then Return false else Return true) = Return b
    ∧ (b = true ↔
       action event ∈ pr_types d
       ∧ MatcherSpec.ref_matches (base_branch event) (patterns d "branches_ignore") = false
       ∧ (patterns d "branches" = []
          ∨ MatcherSpec.ref_matches (base_branch event) (patterns d "branches") = true)).
Proof.
  cbn [forallb]. rewrite !andb_true_iff. intros (Ht & Hb & Hi & _).
  destruct (filter_typed_get d "branches" Hb) as (branches & -> & Hbs).
  destruct (filter_typed_get d "branches_ignore" Hi) as (branches_ignore & -> & His).
  destruct (strings_of_value _ _ Hbs) as [_ Htb].
  destruct (strings_of_value _ _ His) as [_ Hti].
  assert (∃ l, get (VDict d) "types" default_types = Return (VList (VStr <$> l))
               ∧ pr_types d = l) as (l & -> & Hl).
  { unfold filter_typed in Ht. unfold pr_types, get.
    destruct (lookup (KStr "types") d) as [v|]; cbn;
      [|by exists ["opened"; "synchronize"; "reopened"]].
    destruct v as [| | | |vs|]; try done. cbn in Ht |- *.
    destruct (strings_of_list vs) as [ps|] eqn:E; [|done].
    apply strings_of_list_values in E as ->. by exists ps. }
  cbn [bind str_in]. pose proof (str_in_strings (action event) l) as Hin.
  destruct (existsb _ _).
  2:{ exists false. split; [done|]. split; [done|]. intros [Ha _]. rewrite Hl in Ha.
      by apply Hin in Ha. }
  cbn [negb bind]. rewrite Htb, Hti.
  rewrite (matches_pattern_list_typed _ _ _ Hbs), (matches_pattern_list_typed _ _ _ His).
  pose proof (MatcherFacts.ref_matches_nil (base_branch event) (patterns d "branches_ignore")) as Hn.
  pose proof (MatcherFacts.ref_matches_nil (base_branch event) (patterns d "branches")) as Hm.
  rewrite Hl.
  set (bi := MatcherSpec.ref_matches _ (patterns d "branches_ignore")) in *.
  set (bb := MatcherSpec.ref_matches _ (patterns d "branches")) in *.
  clearbody bi bb.
  destruct (Matcher.is_nil (patterns d "branches_ignore")), bi,
    (patterns d "branches") as [|p0 ps0], bb;
    cbn; eexists; (split; [reflexivity|]);
    try (specialize (Hn eq_refl)); try (specialize (Hm eq_refl)); intuition congruence.
Qed.

(** For a pull_request trigger that is absent, null, [True], or a mapping
    whose types and branch filters are lists of strings,
    [matches_pull_request] returns, and it returns true exactly when there
    is a trigger, the action of the event is among the trigger's types
    (opened, synchronize and reopened when no types are given; an explicit
    empty list admits no action), the base branch matches no pattern of
    [branches_ignore], and [branches] is empty or matches the base branch.
    The trigger [True] and the empty trigger read like a trigger without
    filters. *)
Theorem matches_pull_request_spec (triggers : value) (event : PullRequestEvent) :
  pull_request_typed triggers = true →
  ∃ b, matches_pull_request triggers event = Return b ∧
    (b = true ↔
     ∃ d, trigger_filters "pull_request" triggers = Some d
       ∧ action event ∈ pr_types d
       ∧ MatcherSpec.ref_matches (base_branch event) (patterns d "branches_ignore") = false
       ∧ (patterns d "branches" = []
          ∨ MatcherSpec.ref_matches (base_branch event) (patterns d "branches") = true)).
Proof.
  intros (t & -> & Ht)%trigger_typed_cases.
  unfold matches_pull_request, trigger_filters. cbn [get bind].
  destruct Ht as [Hl|[Hl|[Hl|(d & Hl & Hd)]]]; rewrite Hl; cbn [from_option]; unfold id.
  - exists false. split; [done|]. split; [done|]. by intros (? & ? & _).
  - exists false. split; [done|]. split; [done|]. by intros (? & ? & _).
  - change (py_eq (VBool true) (VDict []) || is_True (VBool true)) with true. cbn match.
    destruct (pull_request_filters [(KStr "types", default_types)] event eq_refl)
      as (b & Hb & Hiff).
    exists b. split; [exact Hb|]. rewrite Hiff. clear. split.
    + intros H. by exists [].
    + by intros (d & [= <-] & H).
  - destruct d as [|kv d'].
    + change (py_eq (VDict []) (VDict []) || is_True (VDict [])) with true. cbn match.
      destruct (pull_request_filters [(KStr "types", default_types)] event eq_refl)
        as (b & Hb & Hiff).
      exists b. split; [exact Hb|]. rewrite Hiff. clear. split.
      * intros H. by exists [].
      * by intros (d & [= <-] & H).
    + set (d := kv :: d') in *.
      change (py_eq (VDict d) (VDict []) || is_True (VDict d)) with false. cbn match.
      destruct (pull_request_filters d event Hd) as (b & Hb & Hiff).
      exists b. split; [exact Hb|]. rewrite Hiff. split.
      * intros H. by exists d.
      * by intros (? & [= <-] & H).
Qed.

(** Filters that are no lists of strings: with one string for the types
    the membership test is a substring test, which admits the action
    [opened] for the types [reopened]; on a number it raises. *)
Lemma matches_pull_request_untyped :
  matches_pull_request string_types_triggers (pr_of "opened" "main") = Return true
  ∧ matches_pull_request
      (VDict [(KStr "pull_request", VDict [(KStr "types", VInt 5)])])
      (pr_of "opened" "main") = Raise TypeError
  ∧ matches_pull_request
      (VDict [(KStr "pull_request", VDict [(KStr "branches", VList [VInt 1])])])
      (pr_of "opened" "main") = Raise TypeError.
Proof. repeat split; vm_compute; reflexivity. Qed.

End PullRequestFacts.

Module PathFacts.
Import PyRe Matcher PathGlob.

Lemma fnmatch_items_literal (p : string) :
  wildcard_free p = true → fnmatch_items p = Some (literal_items p).
Proof.
  induction p as [|c p IH]; [done|]. cbn [wildcard_free fnmatch_items literal_items].
  rewrite andb_true_iff, negb_true_iff, !orb_false_iff. intros [[[Hs Hq] Hb] Hp].
  rewrite Hs, Hq, Hb, (IH Hp). done.
Qed.

Lemma fnmatch_items_app (p q : string) (r : list item) :
  wildcard_free p = true → fnmatch_items q = Some r →
  fnmatch_items (p ++ q) = Some (literal_items p ++ r)%list.
Proof.
  intros Hp Hq. induction p as [|c p IH]; [done|].
  rewrite GlobFacts.string_append_cons. cbn [wildcard_free fnmatch_items literal_items] in *.
  apply andb_true_iff in Hp as [Hc Hp].
  apply negb_true_iff in Hc. rewrite !orb_false_iff in Hc. destruct Hc as [[Hs Hq'] Hb].
  rewrite Hs, Hq', Hb, (IH Hp). done.
Qed.

Lemma re_run_literal (e : ending) (p : string) (r : list item) (s : string) :
  re_run e (literal_items p ++ r)%list (p ++ s) = re_run e r s.
Proof.
  induction p as [|c p IH]; [done|].
  rewrite GlobFacts.string_append_cons. cbn [literal_items app re_run in_charset].
  by rewrite Ascii.eqb_refl, IH.
Qed.

Lemma re_run_literal_eqb (p s : string) :
  re_run EndZ (literal_items p) s = String.eqb s p.
Proof.
  revert s. induction p as [|c p IH]; intros [|a s]; try done.
  cbn [literal_items re_run in_charset String.eqb]. rewrite IH.
  rewrite (Ascii.eqb_sym c a). done.
Qed.

Lemma contains_stars_wildcard_free (p : string) :
  wildcard_free p = true → PyStr.contains "**" p = false.
Proof.
  induction p as [|c p IH]; [done|]. cbn [wildcard_free]. rewrite andb_true_iff, negb_true_iff, !orb_false_iff.
  intros [[[Hs _] _] Hp]. cbn [PyStr.contains]. rewrite (IH Hp), orb_false_r.
  cbn [PyStr.startswith]. rewrite Ascii.eqb_sym, Hs. done.
Qed.

(** A path pattern without [*], [?] and [[] matches exactly the path that
    is equal to it: the name of a directory does not match the files in
    it. *)
Theorem path_pattern_literal (path pattern : string) :
  wildcard_free pattern = true →
  _matches_path_pattern path pattern = Some (String.eqb path pattern).
Proof.
  intros Hw. unfold _matches_path_pattern, fnmatch.
  rewrite (fnmatch_items_literal _ Hw). cbn [mbind option_bind].
  rewrite re_run_literal_eqb, (contains_stars_wildcard_free _ Hw).
  by destruct (String.eqb path pattern).
Qed.

Lemma re_run_many_any (s : string) : re_run EndZ [Many AnyChar] s = true.
Proof.
  induction s as [|c s IH]; [done|]. rewrite GlobFacts.re_run_many.
  cbn [in_charset andb]. rewrite IH. apply orb_true_r.
Qed.

(** A path pattern that ends in one star after a prefix without
    wildcards matches every path that starts with the prefix, at any
    depth: the star also stands for characters [/]. *)
Theorem path_pattern_prefix_star (prefix rest : string) :
  wildcard_free prefix = true →
  _matches_path_pattern (prefix ++ rest) (prefix ++ "*") = Some true.
Proof.
  intros Hw. unfold _matches_path_pattern, fnmatch.
  rewrite (fnmatch_items_app prefix "*" [Many AnyChar] Hw) by done.
  cbn [mbind option_bind]. by rewrite re_run_literal, re_run_many_any.
Qed.

End PathFacts.

Module MatrixMore.
Import Matrix MatrixSpec.

Section Expand.
Context {V : Type} (py_eq : V → V → bool).

Lemma cartesian_assigns (vars : list (string * list V)) (comb : combination V) :
  comb ∈ cartesian vars ↔ assigns comb vars.
Proof.
  revert comb. induction vars as [|[k vs] vars IH]; intros comb.
  - cbn. rewrite list_elem_of_singleton. split; [intros ->; constructor|by inversion 1].
  - rewrite MatrixFacts.cartesian_cons. rewrite list_elem_of_bind. split.
    + intros (v & Hc & Hv). apply list_elem_of_fmap in Hc as (c & -> & Hc).
      constructor; [done|]. by apply IH.
    + inversion 1 as [|[k' v] ? c ? [Hk Hv] Hc]; simplify_eq/=.
      exists v. split; [|done]. apply list_elem_of_fmap. exists c. split; [done|]. by apply IH.
Qed.

Lemma assigns_keys (comb : combination V) (vars : list (string * list V)) :
  assigns comb vars → comb.*1 = vars.*1.
Proof. induction 1 as [|? ? ? ? [? ?]]; [done|]. cbn. congruence. Qed.

Lemma assoc_None (k : string) (comb : combination V) :
  k ∉ comb.*1 → Py.assoc k comb = None.
Proof.
  induction comb as [|[k' v] comb IH]; [done|]. cbn. rewrite not_elem_of_cons. intros [Hk Hn].
  destruct (String.eqb k k') eqn:E; [by apply String.eqb_eq in E|by apply IH].
Qed.

(** Every combination that [expand_matrix] yields is an include entry or
    gives each declared variable, in declaration order, one of its declared
    values. *)
Theorem matrix_combinations_assign (s : strategy V) (comb : combination V) :
  comb ∈ expand_matrix py_eq s →
  comb ∈ strategy_include s ∨ assigns comb (strategy_variables s).
Proof.
  rewrite MatrixFacts.expand_matrix_unfold. unfold coded_expansion.
  destruct (matrix_falsy _) eqn:Hf.
  - rewrite list_elem_of_singleton. intros ->. right.
    rewrite MatrixFacts.strategy_variables_get. unfold matrix_falsy in Hf.
    destruct (variables _); [done|constructor].
  - destruct (Matcher.is_nil _); [by left|].
    rewrite elem_of_app. intros [H|H]; [right|by left].
    apply MatrixFacts.kept_base_spec in H as [H _]. by apply cartesian_assigns.
Qed.

Lemma filter_all {A} (f : A → bool) (l : list A) :
  (∀ x, x ∈ l → f x = true) → List.filter f l = l.
Proof.
  intros H. apply forallb_filter_id, forallb_forall. intros x Hx. by apply H, list_elem_of_In.
Qed.

Lemma filter_none {A} (f : A → bool) (l : list A) :
  (∀ x, x ∈ l → f x = false) → List.filter f l = [].
Proof.
  induction l as [|x l IH]; [done|]. intros H. cbn.
  rewrite (H x) by (apply elem_of_cons; auto). apply IH. intros y Hy. apply H, elem_of_cons; auto.
Qed.

(** Exclude entries that each name a variable that is not declared drop
    nothing: the whole product over the variables is kept. *)
Theorem exclude_undeclared_key_drops_nothing (s : strategy V) :
  (∀ entry, entry ∈ strategy_exclude s →
     ∃ k v, (k, v) ∈ entry ∧ k ∉ (strategy_variables s).*1) →
  kept_base py_eq s = cartesian (strategy_variables s).
Proof.
  intros He. unfold kept_base. apply filter_all. intros comb Hc.
  apply negb_true_iff, not_true_is_false. intros Hx.
  apply MatrixFacts.should_exclude_spec in Hx as (entry & Hin & Hm).
  destruct (He entry Hin) as (k & v & Hkv & Hk).
  destruct (Hm k v Hkv) as (v' & Ha & _).
  apply cartesian_assigns, assigns_keys in Hc. rewrite <- Hc in Hk.
  by rewrite (assoc_None _ _ Hk) in Ha.
Qed.

Lemma cartesian_empty_values (vars : list (string * list V)) (k : string) :
  (k, []) ∈ vars → cartesian vars = [].
Proof.
  induction vars as [|[k' vs] vars IH]; [by intros ?%elem_of_nil|].
  rewrite elem_of_cons, MatrixFacts.cartesian_cons. intros [[= <- <-]|H]; [done|].
  rewrite (IH H). clear. induction vs as [|v vs IHv]; [done|]. cbn. apply IHv.
Qed.

(** With an empty exclude entry, or with a variable without values, no
    combination of the product is yielded: [expand_matrix] yields the
    include entries only. *)
Theorem matrix_base_vanishes (s : strategy V) :
  [] ∈ strategy_exclude s ∨ (∃ k, (k, []) ∈ strategy_variables s) →
  expand_matrix py_eq s = strategy_include s.
Proof.
  intros H. rewrite MatrixFacts.expand_matrix_unfold. unfold coded_expansion.
  destruct (matrix_falsy _) eqn:Hf.
  - exfalso. rewrite MatrixFacts.strategy_exclude_get, MatrixFacts.strategy_variables_get in H.
    unfold matrix_falsy in Hf.
    destruct (variables _); [done|]. destruct (include _); [done|].
    destruct (exclude _); [done|].
    destruct H as [H|[k H]]; by apply elem_of_nil in H.
  - destruct (Matcher.is_nil _); [done|].
    enough (kept_base py_eq s = []) as -> by done.
    unfold kept_base. destruct H as [H|[k H]].
    + apply filter_none. intros comb _. apply negb_false_iff.
      apply MatrixFacts.should_exclude_spec. exists []. split; [done|].
      intros k v Hkv. by apply elem_of_nil in Hkv.
    + by rewrite (cartesian_empty_values _ _ H).
Qed.

End Expand.

End MatrixMore.

Module WebhookMore.
Import Py Events Executions WebhookView ExecutionTable WebhookSpec.

Lemma get_latest_config_fold (cs : list PipelineConfig) (p : Pipeline) :
  let latest := foldr (fun c best =>
           if N.eqb (config_pipeline c) (pipeline_id p) && is_valid c then
             match best with
             | Some b => if (version b <? version c)%N then Some c else Some b
             | None => Some c
             end
           else best) None cs in
  match latest with
  | Some c =>
      c ∈ cs ∧ config_pipeline c = pipeline_id p ∧ is_valid c = true
      ∧ ∀ c', c' ∈ cs → config_pipeline c' = pipeline_id p → is_valid c' = true →
              (version c' ≤ version c)%N
  | None =>
      ∀ c', c' ∈ cs → config_pipeline c' = pipeline_id p → is_valid c' = false
  end.
Proof.
  induction cs as [|c cs IH]; cbn [foldr].
  - intros c' Hc'. by apply elem_of_nil in Hc'.
  - cbn zeta in IH. destruct (foldr _ None cs) as [b|].
    + destruct IH as (Hb & Hp & Hv & Hmax).
      destruct (N.eqb (config_pipeline c) (pipeline_id p) && is_valid c) eqn:E.
      * apply andb_prop in E as [Ep Ev]. apply N.eqb_eq in Ep.
        destruct (N.ltb_spec (version b) (version c)).
        -- repeat split; [apply elem_of_cons; by left|done|done|].
           intros c' [->|Hc']%elem_of_cons Hp' Hv'; [lia|]. specialize (Hmax c' Hc' Hp' Hv'). lia.
        -- repeat split; [apply elem_of_cons; by right|done|done|].
           intros c' [->|Hc']%elem_of_cons ? ?; [lia|]. by apply Hmax.
      * repeat split; [apply elem_of_cons; by right|done|done|].
        intros c' [->|Hc']%elem_of_cons Hp' Hv'; [|by apply Hmax].
        rewrite Hp', N.eqb_refl, Hv' in E. done.
    + destruct (N.eqb (config_pipeline c) (pipeline_id p) && is_valid c) eqn:E.
      * apply andb_prop in E as [Ep Ev]. apply N.eqb_eq in Ep.
        repeat split; [apply elem_of_cons; by left|done|done|].
        intros c' [->|Hc']%elem_of_cons Hp' Hv'; [lia|].
        rewrite (IH c' Hc' Hp') in Hv'. done.
      * intros c' [->|Hc']%elem_of_cons Hp'; [|by apply IH].
        rewrite Hp', N.eqb_refl in E. done.
Qed.

(** [Pipeline.get_latest_config] returns a valid configuration of the
    pipeline whose version no other valid configuration of the pipeline
    exceeds, and it returns nothing exactly when the pipeline has no valid
    configuration. *)
Theorem get_latest_config_spec (d : db) (p : Pipeline) :
  match get_latest_config d p with
  | Some c =>
      c ∈ configs d ∧ config_pipeline c = pipeline_id p ∧ is_valid c = true
      ∧ ∀ c', c' ∈ configs d → config_pipeline c' = pipeline_id p → is_valid c' = true →
              (version c' ≤ version c)%N
  | None =>
      ∀ c', c' ∈ configs d → config_pipeline c' = pipeline_id p → is_valid c' = false
  end.
Proof. apply get_latest_config_fold. Qed.

Lemma unique_numbers_create (table table' : list Execution) (row : Execution) :
  create table row = Return table' →
  table' = (table ++ [row])%list ∧ (unique_numbers table → unique_numbers table').
Proof.
  unfold create. destruct (existsb _ table) eqn:E; [done|]. intros [= <-]. split; [done|].
  unfold unique_numbers. rewrite fmap_app. intros Hn. apply NoDup_app. split; [done|].
  split; [|apply NoDup_singleton]. intros [p n] Hin Hrow.
  apply list_elem_of_singleton in Hrow as [= -> ->].
  apply list_elem_of_fmap in Hin as (e & [= Hp He] & Hin).
  apply not_true_iff_false in E. apply E, existsb_exists. exists e.
  split; [by apply list_elem_of_In|]. by rewrite Hp, He, !N.eqb_refl.
Qed.

Section View.
Variable now : N.
Variable uuid4 : list Execution → N.
Variable matches_push : PipelineConfig → PushEvent → result bool.
Variable matches_pull_request : PipelineConfig → PullRequestEvent → result bool.

Lemma create_for_push_outcome (d : db) (p : Pipeline) (c : PipelineConfig)
    (event : PushEvent) (delivery_id : string) :
  match _create_execution_for_push now uuid4 d p c event delivery_id with
  | Done None d' => d' = d
  | Done (Some e) d' => created_by d d' p e
  | _ => False
  end.
Proof.
  unfold _create_execution_for_push. destruct (deleted event); [done|].
  unfold create. cbn [Executions.pipeline number].
  rewrite ExecutionFacts.or_zero_default.
  change (default 0%N ?x + 1)%N with (max_plus_one (executions d) (pipeline_id p)).
  rewrite ExecutionFacts.max_plus_one_fresh. done.
Qed.

Lemma create_for_pr_outcome (d : db) (p : Pipeline) (c : PipelineConfig)
    (event : PullRequestEvent) (delivery_id : string) :
  match _create_execution_for_pr now uuid4 d p c event delivery_id with
  | Done None d' => d' = d
  | Done (Some e) d' => created_by d d' p e
  | _ => False
  end.
Proof.
  unfold _create_execution_for_pr.
  unfold create. cbn [Executions.pipeline number].
  rewrite ExecutionFacts.or_zero_default.
  change (default 0%N ?x + 1)%N with (max_plus_one (executions d) (pipeline_id p)).
  rewrite ExecutionFacts.max_plus_one_fresh. done.
Qed.

Lemma process_pipeline_outcome (d : db) (event_type : string) (event : parsed_event)
    (delivery_id : string) (p : Pipeline) :
  match process_pipeline now uuid4 matches_push matches_pull_request d event_type event
          delivery_id p with
  | Failed x => matcher_raises matches_push matches_pull_request d event x
  | Done None d' => d' = d
  | Done (Some e) d' => created_by d d' p e
  end.
Proof.
  unfold process_pipeline.
  pose proof (get_latest_config_fold (configs d) p) as Hl. cbn zeta in Hl.
  fold (get_latest_config d p) in Hl.
  destruct (get_latest_config d p) as [c|]; [|done]. destruct Hl as [Hin _].
  destruct (is_valid c); [|done]. cbn [negb].
  destruct event as [e|e|]; [| |done].
  - destruct (String.eqb event_type "push"); [|done].
    destruct (matches_push c e) as [[|]|x] eqn:Hm; [|done|by exists c].
    pose proof (create_for_push_outcome d p c e delivery_id) as H.
    by destruct (_create_execution_for_push _ _ _ _ _ _ _) as [[?|] ?|].
  - destruct (String.eqb event_type "pull_request"); [|done].
    destruct (matches_pull_request c e) as [[|]|x] eqn:Hm; [|done|by exists c].
    pose proof (create_for_pr_outcome d p c e delivery_id) as H.
    by destruct (_create_execution_for_pr _ _ _ _ _ _ _) as [[?|] ?|].
Qed.

(** [_process_event] never fails on the uniqueness of execution numbers:
    it fails only with an exception that the matcher raises on the event,
    whatever matcher it is given.  When it returns, it has left the
    configurations as they are and appended the executions it returns to
    the table: at most one for each of the pipelines, in the order of the
    pipelines, each pending; unique (pipeline, number) pairs stay
    unique. *)
Theorem process_event_appends (d : db) (event_type : string) (event : parsed_event)
    (pipelines : list Pipeline) (delivery_id : string) :
  match _process_event now uuid4 matches_push matches_pull_request d event_type event
          pipelines delivery_id with
  | Failed x => matcher_raises matches_push matches_pull_request d event x
  | Done created d' =>
      configs d' = configs d
      ∧ executions d' = (executions d ++ created)%list
      ∧ (Executions.pipeline <$> created) `sublist_of` (pipeline_id <$> pipelines)
      ∧ Forall (fun e => status e = "pending") created
      ∧ (unique_numbers (executions d) → unique_numbers (executions d'))
  end.
Proof.
  revert d. induction pipelines as [|p rest IH]; intros d; cbn [_process_event].
  - rewrite app_nil_r. repeat split; [done|constructor|done].
  - pose proof (process_pipeline_outcome d event_type event delivery_id p) as Hp.
    destruct (process_pipeline _ _ _ _ _ _ _ _ _) as [x d1|x]; [|done].
    specialize (IH d1).
    assert (configs d1 = configs d) as Hc1.
    { destruct x as [e|]; [by destruct Hp|by subst]. }
    destruct (_process_event _ _ _ _ d1 _ _ _ _) as [created d2|y].
    2:{ unfold matcher_raises in *. by rewrite <- Hc1. }
    destruct IH as (Hc & He & Hs & Hf & Hu).
    destruct x as [e|].
    + destruct Hp as (_ & He1 & Hp1 & Hs1 & Hn1).
      repeat split.
      * congruence.
      * rewrite He, He1, <- app_assoc. done.
      * cbn [fmap list_fmap]. rewrite Hp1. by apply sublist_skip.
      * by constructor.
      * intros Hd. apply Hu. rewrite He1.
        eapply (unique_numbers_create (executions d)); [|done].
        unfold create. rewrite Hp1, Hn1, ExecutionFacts.max_plus_one_fresh. done.
    + subst d1. repeat split; [done|done| |done|done].
      cbn [fmap list_fmap]. by apply sublist_cons.
Qed.

End View.
End WebhookMore.

Module AuthFacts.
Import Py Signature WebhookView WebhookAuth.

Section Verify.
Variable hmac_sha256 : list Byte.byte → list Byte.byte → list Byte.byte.
Variable settings_secret : string.

Lemma verifier_with_secret (secret : string) :
  PyStr.falsy secret = false → GitHubSignatureVerifier settings_secret (Some secret) = secret.
Proof. unfold GitHubSignatureVerifier. by intros ->. Qed.

Lemma isascii_drop (n : nat) (s : string) :
  PyStr.isascii s = true → PyStr.isascii (PyStr.drop n s) = true.
Proof.
  revert s. induction n as [|n IH]; intros [|c s]; try done.
  cbn. intros [_ H]%andb_prop. by apply IH.
Qed.

Lemma eqb_prefix (p a b : string) : String.eqb (p ++ a) (p ++ b) = String.eqb a b.
Proof.
  induction p as [|c p IH]; [done|]. rewrite !SignatureFacts.append_cons. cbn.
  by rewrite Ascii.eqb_refl.
Qed.

(** With a secret and an ASCII header, [verify] compares the header with the
    expected one. *)
Lemma verify_ascii (secret signature : string) (raw_body : list Byte.byte) :
  PyStr.falsy secret = false → PyStr.isascii signature = true →
  verify hmac_sha256 secret raw_body (Some signature)
  = Return (String.eqb signature (expected_header hmac_sha256 secret raw_body)).
Proof.
  intros Hs Ha. unfold verify, expected_header, _compute_signature. rewrite Hs.
  destruct (PyStr.falsy signature) eqn:Hf.
  { apply SignatureFacts.falsy_empty in Hf as ->. done. }
  destruct (PyStr.startswith SIGNATURE_PREFIX signature) eqn:Hp; cbn [negb].
  - apply SignatureFacts.startswith_split in Hp. rewrite Hp at 2. rewrite eqb_prefix.
    unfold compare_digest. rewrite SignatureFacts.hex_isascii, isascii_drop by done.
    cbn [andb]. f_equal. apply String.eqb_sym.
  - f_equal. symmetry. apply String.eqb_neq. intros ->.
    by rewrite SignatureFacts.startswith_app in Hp.
Qed.

Lemma verify_loop_find (raw_body : list Byte.byte) (signature : string)
    (pipelines : list Pipeline) :
  PyStr.isascii signature = true →
  verify_loop hmac_sha256 settings_secret raw_body signature pipelines
  = Return (List.find (accepts hmac_sha256 raw_body signature) pipelines).
Proof.
  intros Ha. induction pipelines as [|p rest IH]; [done|].
  cbn [verify_loop List.find]. unfold accepts at 1.
  destruct (PyStr.falsy (webhook_secret p)) eqn:Hs; cbn [negb andb]; [done|].
  unfold verify_github_signature. rewrite verifier_with_secret, verify_ascii by done.
  by destruct (String.eqb _ _).
Qed.

(** For an ASCII signature header, [_verify_signature_for_pipelines]
    returns the first pipeline that has a secret and whose expected header
    is the signature; without such a pipeline it returns the first
    pipeline when no pipeline has a secret, and nothing otherwise. *)
Theorem verify_for_pipelines_closed_form (raw_body : list Byte.byte) (signature : string)
    (pipelines : list Pipeline) :
  PyStr.isascii signature = true →
  _verify_signature_for_pipelines hmac_sha256 settings_secret raw_body signature pipelines
  = Return (match List.find (accepts hmac_sha256 raw_body signature) pipelines with
            | Some p => Some p
            | None =>
                if forallb (fun p => PyStr.falsy (webhook_secret p)) pipelines
                then head pipelines else None
            end).
Proof.
  intros Ha. unfold _verify_signature_for_pipelines. rewrite verify_loop_find by done.
  destruct (List.find _ _); [done|].
  assert (existsb (λ p, negb (PyStr.falsy (webhook_secret p))) pipelines
          = negb (forallb (λ p, PyStr.falsy (webhook_secret p)) pipelines)) as ->.
  { induction pipelines as [|p rest IH]; [done|]. cbn. rewrite IH.
    by destruct (PyStr.falsy _), (forallb _ _). }
  rewrite negb_involutive. by destruct (forallb _ _).
Qed.

Lemma verify_loop_sound (raw_body : list Byte.byte) (signature : string)
    (pipelines : list Pipeline) (p : Pipeline) :
  verify_loop hmac_sha256 settings_secret raw_body signature pipelines = Return (Some p) →
  p ∈ pipelines ∧ webhook_secret p ≠ ""
  ∧ signature = expected_header hmac_sha256 (webhook_secret p) raw_body.
Proof.
  induction pipelines as [|q rest IH]; [done|]. cbn [verify_loop].
  destruct (PyStr.falsy (webhook_secret q)) eqn:Hs.
  { intros H. destruct (IH H) as (? & ? & ?). split; [|by split]. apply elem_of_cons. by right. }
  unfold verify_github_signature. rewrite verifier_with_secret by done.
  destruct (verify _ _ _ _) as [[|]|] eqn:Hv; [|intros H|done].
  - intros [= ->]. split; [apply elem_of_cons; by left|].
    apply SignatureFacts.verify_true_iff in Hv as [He|[= ->]]; [by rewrite He in Hs|].
    split; [|done]. intros He. by rewrite He in Hs.
  - destruct (IH H) as (? & ? & ?). split; [|by split]. apply elem_of_cons. by right.
Qed.

(** A pipeline that [_verify_signature_for_pipelines] returns is one of
    the given pipelines, and either it has a secret and the signature is
    [sha256=] followed by the HMAC-SHA256 of the body under this secret, or
    none of the given pipelines has a secret. *)
Theorem verified_pipeline_sound (raw_body : list Byte.byte) (signature : string)
    (pipelines : list Pipeline) (p : Pipeline) :
  _verify_signature_for_pipelines hmac_sha256 settings_secret raw_body signature pipelines
    = Return (Some p) →
  p ∈ pipelines
  ∧ (webhook_secret p ≠ ""
       ∧ signature = expected_header hmac_sha256 (webhook_secret p) raw_body
     ∨ ∀ q, q ∈ pipelines → webhook_secret q = "").
Proof.
  unfold _verify_signature_for_pipelines.
  destruct (verify_loop _ _ _ _ _) as [[q|]|] eqn:Hl; [| |done].
  - intros [= ->]. apply verify_loop_sound in Hl as (? & ? & ?). auto.
  - destruct (existsb _ _) eqn:He; [done|]. cbn [negb]. intros [= Hh].
    split; [by apply head_Some_elem_of|]. right. intros q Hq.
    apply SignatureFacts.falsy_empty. apply not_true_iff_false in He.
    destruct (PyStr.falsy (webhook_secret q)) eqn:Hf; [done|]. exfalso. apply He.
    apply existsb_exists. exists q. split; [by apply list_elem_of_In|by rewrite Hf].
Qed.

(** When one of the pipelines has a secret, a signature header that does
    not start with [sha256=] (an absent header reads as the empty text) is
    refused: no pipeline is returned. *)
Theorem unsigned_delivery_rejected (raw_body : list Byte.byte) (signature : string)
    (pipelines : list Pipeline) :
  PyStr.startswith SIGNATURE_PREFIX signature = false →
  (∃ q, q ∈ pipelines ∧ webhook_secret q ≠ "") →
  _verify_signature_for_pipelines hmac_sha256 settings_secret raw_body signature pipelines
  = Return None.
Proof.
  intros Hp (q & Hq & Hs). unfold _verify_signature_for_pipelines.
  assert (verify_loop hmac_sha256 settings_secret raw_body signature pipelines = Return None) as ->.
  { clear q Hq Hs. induction pipelines as [|p rest IH]; [done|]. cbn [verify_loop].
    destruct (PyStr.falsy (webhook_secret p)) eqn:Hf; [done|].
    unfold verify_github_signature. rewrite verifier_with_secret by done.
    unfold verify. rewrite Hf, Hp. cbn [negb]. by destruct (PyStr.falsy signature). }
  assert (existsb (λ p, negb (PyStr.falsy (webhook_secret p))) pipelines = true) as ->; [|done].
  apply existsb_exists. exists q. split; [by apply list_elem_of_In|].
  apply negb_true_iff, not_true_iff_false. by intros ?%SignatureFacts.falsy_empty.
Qed.

End Verify.
End AuthFacts.

Module ExecutionViewFacts.
Import Py Executions Runner ExecutionViews.

(** [ExecutionViewSet.cancel] answers 400 exactly when the execution is
    not pending, queued or running.  Otherwise (unless the table has no row
    of the execution, which the save reports) the row of the execution
    becomes cancelled and finished at the first reading of the clock, every
    job of the execution that is pending, queued or running becomes
    cancelled and finished at the second reading, all other rows stay as
    they are, and no job of the execution is left pending, queued or
    running. *)
Theorem cancel_spec (table : list Execution) (jobs : list Job) (execution : Execution)
    (now now' : N) :
  match cancel table jobs execution now now' with
  | Cancel400 => active (status execution) = false
  | CancelDatabaseError =>
      active (status execution) = true ∧ ∀ e, e ∈ table → id e ≠ id execution
  | Cancel200 table' jobs' =>
      active (status execution) = true
      ∧ Forall2 (fun e e' =>
                   if N.eqb (id e) (id execution)
                   then e' = save_cancelled now e
                   else e' = e) table table'
      ∧ Forall2 (fun j j' =>
                   if N.eqb (job_execution j) (id execution) && active (job_status j)
                   then j' = cancel_job now' j
                   else j' = j) jobs jobs'
      ∧ (∀ j', j' ∈ jobs' → job_execution j' = id execution → active (job_status j') = false)
  end.
Proof.
  unfold cancel, active.
  destruct (in_strings (status execution) _) eqn:Ha; cbn [negb]; [|done].
  destruct (existsb _ table) eqn:He; cbn [negb].
  - split; [done|]. split; [|split].
    + apply Forall2_fmap_r, Forall_Forall2_diag, Forall_forall. intros e _.
      cbn. by destruct (N.eqb _ _).
    + apply Forall2_fmap_r, Forall_Forall2_diag, Forall_forall. intros j _.
      cbn. by destruct (_ && _).
    + intros j' Hj' Hex. apply list_elem_of_fmap in Hj' as (j & -> & _).
      destruct (N.eqb (job_execution j) (id execution)) eqn:E; cbn [andb].
      * by destruct (in_strings (job_status j) _) eqn:E'.
      * apply N.eqb_neq in E. done.
  - split; [done|]. intros e Hin Heq. apply not_true_iff_false in He. apply He, existsb_exists.
    exists e. split; [by apply list_elem_of_In|by apply N.eqb_eq].
Qed.

Lemma of_pipeline_app (table : list Execution) (row : Execution) (p : N) :
  of_pipeline (table ++ [row]) p
  = (of_pipeline table p ++ if N.eqb (pipeline row) p then [row] else [])%list.
Proof. unfold of_pipeline. rewrite List.filter_app. cbn. by destruct (N.eqb _ _). Qed.

Lemma dense_count_fresh (table : list Execution) (p : N) :
  dense table p →
  existsb (fun e => N.eqb (pipeline e) p
                    && N.eqb (number e) (N.of_nat (length (of_pipeline table p)) + 1)) table
  = false.
Proof.
  intros Hd. apply not_true_iff_false. rewrite existsb_exists.
  intros (e & Hin & [Hp Hn]%andb_prop). apply N.eqb_eq in Hn.
  assert (number e ∈ number <$> of_pipeline table p) as He.
  { apply list_elem_of_fmap. exists e. split; [done|].
    unfold of_pipeline. apply list_elem_of_In, filter_In. by split. }
  rewrite Hd in He. apply list_elem_of_fmap in He as (k & Hk & Hs).
  apply elem_of_seq in Hs. lia.
Qed.

Lemma dense_max_plus_one (table : list Execution) (p : N) :
  dense table p →
  max_plus_one table p = (N.of_nat (length (of_pipeline table p)) + 1)%N.
Proof.
  unfold dense, max_plus_one, last_number. 
  generalize (of_pipeline table p). intros rows Hd. f_equal.
  assert (Hb : ∀ n, n ∈ number <$> rows → (n ≤ N.of_nat (length rows))%N).
  { intros n Hn. rewrite Hd in Hn. apply list_elem_of_fmap in Hn as (k & -> & Hk).
    apply elem_of_seq in Hk. lia. }
  assert (Hm : rows ≠ [] → N.of_nat (length rows) ∈ number <$> rows).
  { intros Hne. rewrite Hd. apply list_elem_of_fmap. exists (length rows). split; [done|].
    apply elem_of_seq. destruct rows; [done|]. cbn. lia. }
  destruct rows as [|r rows]; [done|]. cbn [fmap list_fmap] in *.
  change (foldr N.max (number r) (number <$> rows) = N.of_nat (length (r :: rows))).
  specialize (Hm ltac:(done)).
  set (m := N.of_nat (length (r :: rows))) in *. clearbody m. clear Hd.
  revert Hb Hm. generalize (number r) (number <$> rows). clear.
  intros a l. revert a. induction l as [|b l IH]; intros a Hb Hm; cbn [foldr].
  - apply list_elem_of_singleton in Hm. done.
  - assert (Ha : (a ≤ m)%N) by (apply Hb; apply elem_of_cons; by left).
    assert (Hb' : (b ≤ m)%N) by (apply Hb; apply elem_of_cons; right; apply elem_of_cons; by left).
    destruct (decide (b = m)) as [->|Hne].
    + assert (foldr N.max a l ≤ m)%N; [|lia].
      clear IH Hm Hb'. revert Hb. clear. intros Hb.
      assert (∀ x, x ∈ a :: l → (x ≤ m)%N) as H.
      { intros x Hx. apply Hb. apply elem_of_cons in Hx as [->|Hx]; apply elem_of_cons; auto.
        right. apply elem_of_cons. by right. }
      clear Hb. revert a H. induction l as [|c l IH]; intros a H; cbn [foldr].
      * apply H. apply elem_of_cons; by left.
      * assert (c ≤ m)%N by (apply H; apply elem_of_cons; right; apply elem_of_cons; by left).
        assert (foldr N.max a l ≤ m)%N; [|lia]. apply IH. intros x Hx. apply H.
        apply elem_of_cons in Hx as [->|Hx]; apply elem_of_cons; auto.
        right. apply elem_of_cons. by right.
    + assert (foldr N.max a l = m); [|lia]. apply IH.
      * intros x Hx. apply Hb. apply elem_of_cons in Hx as [->|Hx]; apply elem_of_cons; auto.
        right. apply elem_of_cons. by right.
      * apply elem_of_cons in Hm as [->|Hm]; [apply elem_of_cons; by left|].
        apply elem_of_cons in Hm as [->|Hm]; [done|]. apply elem_of_cons. by right.
Qed.

Lemma dense_append (table : list Execution) (row : Execution) :
  dense table (pipeline row) →
  number row = (N.of_nat (length (of_pipeline table (pipeline row))) + 1)%N →
  dense (table ++ [row]) (pipeline row).
Proof.
  unfold dense. intros Hd Hn. rewrite of_pipeline_app, N.eqb_refl.
  rewrite fmap_app, length_app. cbn [length fmap list_fmap].
  rewrite Nat.add_1_r, seq_S, fmap_app. cbn [fmap list_fmap]. rewrite Hd, Hn.
  replace (N.of_nat (length (of_pipeline table (pipeline row))) + 1)%N
    with (N.of_nat (1 + length (of_pipeline table (pipeline row)))) by lia.
  done.
Qed.

(** While no execution of the pipeline has been deleted (its numbers are
    1 to their count), the retry endpoint succeeds on a failed, cancelled or
    timed-out execution: the number it allocates, the count plus one, is
    the largest number plus one, and the numbers stay 1 to their count. *)
Theorem retry_keeps_dense (table : list Execution) (execution : Execution)
    (user : N) (username : string) (new_id : N) :
  dense table (pipeline execution) →
  in_strings (status execution) ["failed"; "cancelled"; "timeout"] = true →
  ∃ new,
    retry table execution user username new_id
      = Return ((table ++ [new])%list, Retry201 new_id (number new))
    ∧ pipeline new = pipeline execution
    ∧ number new = max_plus_one table (pipeline execution)
    ∧ dense (table ++ [new]) (pipeline execution).
Proof.
  intros Hd Hs. unfold retry. unfold in_strings in Hs. rewrite Hs. cbn [negb].
  unfold create. cbn [pipeline number id]. rewrite (dense_count_fresh _ _ Hd).
  match goal with |- context [ (table ++ [?r])%list ] => exists r end.
  split; [reflexivity|]. cbn [pipeline number].
  split; [done|]. split; [by rewrite dense_max_plus_one|].
  by apply (dense_append table (Build_Execution _ _ _ _ _ _ _ _ _ _ _ _)).
Qed.

End ExecutionViewFacts.

Module PipelineViewFacts.
Import Py Executions WebhookView ExecutionViews PipelineViews.

(** While no execution of the pipeline has been deleted, the manual
    trigger of a pipeline with a valid configuration succeeds: it appends a
    pending execution of the latest valid configuration whose number, the
    count plus one, is the largest number plus one, and the numbers stay 1
    to their count. *)
Theorem trigger_keeps_dense (now : N) (d : db) (p : Pipeline) (request_tenant user : N)
    (username branch : string) (request_inputs request_environment : value) (new_id : N)
    (config : PipelineConfig) :
  get_latest_config d p = Some config →
  dense (executions d) (pipeline_id p) →
  ∃ new d',
    trigger now d p request_tenant user username branch request_inputs request_environment new_id
      = Done (Trigger201 new_id (number new) "pending") d'
    ∧ executions d' = (executions d ++ [new])%list
    ∧ configs d' = configs d
    ∧ Executions.pipeline new = pipeline_id p
    ∧ pipeline_config new = Some (config_id config)
    ∧ number new = max_plus_one (executions d) (pipeline_id p)
    ∧ dense (executions d') (pipeline_id p).
Proof.
  intros Hc Hd. unfold trigger. rewrite Hc.
  pose proof (WebhookMore.get_latest_config_fold (configs d) p) as Hv. cbn zeta in Hv. change (foldr _ None (configs d)) with (get_latest_config d p) in Hv. rewrite Hc in Hv.
  destruct Hv as (_ & _ & -> & _). cbn [negb].
  unfold create. cbn [Executions.pipeline number id status].
  rewrite (ExecutionViewFacts.dense_count_fresh _ _ Hd).
  match goal with |- context [ (executions d ++ [?r])%list ] => exists r end.
  eexists. split; [reflexivity|]. cbn [executions configs Executions.pipeline number pipeline_config].
  split_and!; try done.
  - by rewrite ExecutionViewFacts.dense_max_plus_one.
  - by apply (ExecutionViewFacts.dense_append (executions d) (Build_Execution _ _ _ _ _ _ _ _ _ _ _ _)).
Qed.

Lemma last_version_bound (d : db) (p : Pipeline) (c : PipelineConfig) :
  c ∈ configs d → config_pipeline c = pipeline_id p →
  ∃ v, last_version d p = Some v ∧ (version c ≤ v)%N.
Proof.
  intros Hc Hp. unfold last_version.
  assert (version c ∈ version <$> List.filter (λ c, N.eqb (config_pipeline c) (pipeline_id p)) (configs d)) as Hin.
  { apply list_elem_of_fmap. exists c. split; [done|]. apply list_elem_of_In, filter_In.
    split; [by apply list_elem_of_In|by apply N.eqb_eq]. }
  destruct (version <$> _) as [|v vs]; [by apply elem_of_nil in Hin|].
  eexists. split; [done|]. clear -Hin. revert v Hin. induction vs as [|w vs IH]; intros v Hin.
  - apply list_elem_of_singleton in Hin as ->. cbn. lia.
  - cbn [foldr]. apply elem_of_cons in Hin as [Hin|Hin].
    + specialize (IH v ltac:(apply elem_of_cons; by left)). lia.
    + apply elem_of_cons in Hin as [Hin|Hin]; [lia|].
      specialize (IH v ltac:(apply elem_of_cons; by right)). lia.
Qed.

Section Update.
Variable parse_pipeline_yaml : string → result (value * list Parser.error).

Lemma latest_fold_app (cs : list PipelineConfig) (c : PipelineConfig) (p : Pipeline)
    (f := fun c best =>
           if N.eqb (config_pipeline c) (pipeline_id p) && is_valid c then
             match best with
             | Some b => if (version b <? version c)%N then Some c else Some b
             | None => Some c
             end
           else best) :
  config_pipeline c = pipeline_id p →
  (∀ c', c' ∈ cs → config_pipeline c' = pipeline_id p → (version c' < version c)%N) →
  foldr f None (cs ++ [c]) = if is_valid c then Some c else foldr f None cs.
Proof.
  intros Hp Hlt. rewrite foldr_app. cbn [foldr]. unfold f at 2.
  rewrite Hp, N.eqb_refl. cbn [andb]. destruct (is_valid c); [|done].
  induction cs as [|x cs IH]; [done|]. cbn [foldr].
  rewrite IH by (intros c' Hc'; apply Hlt, elem_of_cons; by right).
  unfold f at 1. destruct (N.eqb (config_pipeline x) (pipeline_id p)) eqn:E; [|done].
  destruct (is_valid x); [|done]. cbn [andb].
  apply N.eqb_eq in E. specialize (Hlt x ltac:(apply elem_of_cons; by left) E).
  destruct (N.ltb_spec (version c) (version x)); [lia|done].
Qed.

(** [update_config] with a text that the parser answers stores a new
    configuration whose version is above every version of the pipeline; the
    configuration is valid exactly when the parser reported no error; and
    [get_latest_config] returns the new configuration when it is valid and
    what it returned before when it is not. *)
Theorem update_config_latest (d : db) (p : Pipeline) (yaml_content : string) (new_id : N)
    (parsed : value) (errors : list Parser.error) :
  yaml_content ≠ "" →
  parse_pipeline_yaml yaml_content = Return (parsed, errors) →
  ∃ c d',
    update_config parse_pipeline_yaml d p (Some yaml_content) new_id = Done (Update201 c) d'
    ∧ configs d' = (configs d ++ [c])%list
    ∧ executions d' = executions d
    ∧ config_pipeline c = pipeline_id p
    ∧ (∀ c', c' ∈ configs d → config_pipeline c' = pipeline_id p → (version c' < version c)%N)
    ∧ (is_valid c = true ↔ errors = [])
    ∧ get_latest_config d' p = if is_valid c then Some c else get_latest_config d p.
Proof.
  intros Hy Hparse. unfold update_config.
  destruct (PyStr.falsy yaml_content) eqn:Hf; [by apply SignatureFacts.falsy_empty in Hf|].
  rewrite Hparse. cbn [config_pipeline version].
  set (next := match last_version d p with Some v => (v + 1)%N | None => 1%N end).
  assert (Hlt : ∀ c', c' ∈ configs d → config_pipeline c' = pipeline_id p →
                      (version c' < next)%N).
  { intros c' Hc' Hp'. destruct (last_version_bound d p c' Hc' Hp') as (v & Hv & Hle).
    subst next. rewrite Hv. lia. }
  assert (existsb (λ c, N.eqb (config_pipeline c) (pipeline_id p) && N.eqb (version c) next)
            (configs d) = false) as ->.
  { apply not_true_iff_false. rewrite existsb_exists.
    intros (c' & Hin & [Ep Ev]%andb_prop). apply N.eqb_eq in Ep, Ev.
    specialize (Hlt c' ltac:(by apply list_elem_of_In) Ep). lia. }
  eexists _, _. split; [reflexivity|]. cbn [configs executions config_pipeline version is_valid].
  split_and!; try done.
  - rewrite Nat.eqb_eq. split; [by destruct errors|by intros ->].
  - unfold get_latest_config. cbn [configs]. by rewrite latest_fold_app.
Qed.

End Update.
End PipelineViewFacts.

Module DependencyFacts.
Import JobDependencies.

(** [Job.check_dependencies_satisfied] holds exactly when every job of the
    same execution whose key is among the needed keys has succeeded; a
    needed key that no job of the execution carries does not block. *)
Theorem dependencies_satisfied_iff (table : list Job) (self : Job) :
  check_dependencies_satisfied table self = true ↔
  ∀ j, j ∈ table → job_execution j = job_execution self → job_key j ∈ needs self →
       job_status j = "success".
Proof.
  unfold check_dependencies_satisfied.
  destruct (needs self) as [|n ns] eqn:Hn; cbn [Matcher.is_nil].
  { split; [|done]. intros _ j _ _ Hj. by apply elem_of_nil in Hj. }
  rewrite forallb_forall. split.
  - intros H j Hj He Hk. apply String.eqb_eq, H, filter_In.
    split; [by apply list_elem_of_In|]. rewrite He, N.eqb_refl. cbn [andb].
    apply existsb_exists. exists (job_key j). split; [by apply list_elem_of_In|apply String.eqb_refl].
  - intros H j [Hj [He Hk]%andb_prop]%filter_In. apply String.eqb_eq, H.
    + by apply list_elem_of_In.
    + by apply N.eqb_eq.
    + apply existsb_exists in Hk as (k & Hk & ->%String.eqb_eq). by apply list_elem_of_In.
Qed.

End DependencyFacts.

Module LogMore.
Import Py Logs LogScope.

(** A subscriber whose user has a tenant is sent no frame when no
    execution with the identifier of the route belongs to this tenant. *)
Theorem other_tenant_gets_nothing (t : tables) (self : LogConsumer) (live : list group_event)
    (u : user) (tn : N) :
  self_user self = Some u → user_tenant u = Some tn →
  (∀ e, e ∈ executions t → execution_id e = self_execution_id self → execution_tenant e ≠ tn) →
  session t self live = None.
Proof.
  intros Hu Ht Hall. unfold session, connect, has_permission. rewrite Hu, Ht.
  destruct (is_authenticated u); [|done]. cbn [negb].
  destruct (List.find _ _) as [e|] eqn:Hf; [|done].
  apply find_some in Hf as [Hin Heq]. apply N.eqb_eq in Heq.
  specialize (Hall e ltac:(by apply list_elem_of_In) Heq).
  by apply N.eqb_neq in Hall as ->.
Qed.

(** When at most 1000 chunks are stored for the subscription, every
    stored chunk of a step in its scope is part of the session's frames.
    With a job in the route the scope is the steps of this job, whatever
    execution the job belongs to; without, the steps of the jobs of the
    execution. *)
Theorem backlog_complete_below_limit (t : tables) (self : LogConsumer)
    (live : list group_event) (c : LogChunk) (s : Step) :
  has_permission t self = true →
  (length (stored_rows t self) ≤ 1000)%nat →
  c ∈ log_chunks t → s ∈ steps t → step_id s = chunk_step c → in_scope t self s →
  ∃ frames j,
    session t self live = Some frames
    ∧ Log j (chunk_step c) (timestamp c) (content c) (level c) ∈ frames.
Proof.
  intros Hp Hlen Hc Hs Hid Hsc.
  assert (Hin : s ∈ scope_steps t self) by by apply LogFacts.scope_steps_in_scope.
  destruct (List.find (λ s, N.eqb (step_id s) (chunk_step c)) (scope_steps t self))
    as [s'|] eqn:Hf.
  2:{ exfalso. eapply find_none in Hf; [|by apply list_elem_of_In].
      cbn in Hf. rewrite Hid, N.eqb_refl in Hf. done. }
  assert (Hrow : (s', c) ∈ existing_rows t self).
  { unfold existing_rows. rewrite take_ge.
    2:{ by rewrite (Permutation_length (merge_sort_Permutation key_le _)). }
    rewrite merge_sort_Permutation. unfold stored_rows. apply list_elem_of_omap.
    exists c. split; [done|]. unfold join. by rewrite Hf. }
  unfold session. rewrite (LogFacts.connect_frames _ _ Hp). cbn [fmap option_fmap option_map].
  eexists _, (step_job s'). split; [done|].
  apply elem_of_app. left. apply elem_of_cons. right. apply elem_of_app. left.
  apply list_elem_of_fmap. by exists (s', c).
Qed.

End LogMore.

Module LogBufferFacts.
Import LogBuffer.

Lemma flush_size_flush (self : LogBuffer) : flush_size (flush self).1 = flush_size self.
Proof. unfold flush. by destruct (Matcher.is_nil _). Qed.

Lemma flush_size_run (self : LogBuffer) (c : call) : flush_size (run_call self c) = flush_size self.
Proof.
  destruct c; cbn [run_call]; [|apply flush_size_flush].
  unfold add. destruct (_ <=? _)%Z; [|done]. by rewrite flush_size_flush.
Qed.

Lemma invariant_flush (self : LogBuffer) (entries : list entry) :
  invariant self entries → invariant (flush self).1 entries.
Proof.
  intros Hi. unfold flush. destruct (buffer self) as [|e es] eqn:Hb; cbn [Matcher.is_nil]; [done|].
  destruct Hi as (Hc & Hn & Hs).
  unfold invariant. cbn [fst buffer written flush_size]. split; [|split].
  - rewrite concat_app. cbn [concat fmap list_fmap]. rewrite !app_nil_r. by rewrite <- Hc, Hb.
  - apply Forall_app. split; [done|]. by constructor.
  - intros H1. destruct (Hs H1) as [Hlt Hf]. split; [cbn; lia|].
    apply Forall_app. split; [done|]. constructor; [|done].
    rewrite length_fmap. rewrite Hb in Hlt. lia.
Qed.

Lemma invariant_add (self : LogBuffer) (entries : list entry) (e : entry) :
  invariant self entries → invariant (add self e) (entries ++ [e]).
Proof.
  intros (Hc & Hn & Hs). unfold add. cbn [buffer flush_size].
  destruct (Z.leb_spec (flush_size self) (Z.of_nat (length (buffer self ++ [e])))) as [Hle|Hgt].
  - unfold flush. cbn [buffer written flush_size fst].
    destruct (buffer self ++ [e])%list as [|x xs] eqn:Hb; [by destruct (buffer self)|].
    cbn [Matcher.is_nil fst buffer written flush_size]. unfold invariant.
    cbn [buffer written flush_size]. split; [|split].
    + rewrite concat_app, <- Hb. cbn [concat]. change (chunk_of <$> []) with (@nil Logs.LogChunk).
      rewrite !app_nil_r, !fmap_app, <- Hc. by rewrite app_assoc.
    + apply Forall_app. split; [done|]. by constructor.
    + intros H1. destruct (Hs H1) as [Hlt Hf]. split; [cbn; lia|].
      apply Forall_app. split; [done|]. constructor; [|done].
      rewrite length_fmap, <- Hb, length_app. cbn. lia.
  - unfold invariant. cbn [buffer written flush_size]. split; [|split]; [|done|].
    + rewrite !fmap_app, <- Hc. cbn [fmap list_fmap]. by rewrite app_assoc.
    + intros H1. destruct (Hs H1) as [Hlt Hf]. split; [lia|done].
Qed.

Lemma invariant_run (calls : list call) (self : LogBuffer) (entries : list entry) :
  invariant self entries →
  invariant (foldl run_call self calls) (entries ++ added calls).
Proof.
  revert self entries. induction calls as [|c calls IH]; intros self entries Hi; cbn [foldl].
  - by rewrite app_nil_r.
  - destruct c as [e|]; cbn [run_call].
    + replace (entries ++ added (Add e :: calls))%list with ((entries ++ [e]) ++ added calls)%list
        by (by rewrite <- app_assoc).
      by apply IH, invariant_add.
    + by apply IH, invariant_flush.
Qed.

(** After any sequence of [add] and [flush] calls on a new [LogBuffer],
    the batches written to the database followed by the buffer are the rows
    of the added entries, in their order and each once; no batch is empty;
    and for a flush size of at least 1 the buffer holds fewer entries than
    the flush size and no batch has more. *)
Theorem log_buffer_keeps_entries (size : Z) (calls : list call) :
  let self := foldl run_call (init size) calls in
  (concat (written self) ++ (chunk_of <$> buffer self))%list = chunk_of <$> added calls
  ∧ Forall (fun batch => batch ≠ []) (written self)
  ∧ ((1 ≤ size)%Z →
       (Z.of_nat (length (buffer self)) < size)%Z
       ∧ Forall (fun batch => (Z.of_nat (length batch) ≤ size)%Z) (written self)).
Proof.
  intros self.
  assert (Hi : invariant (init size) []).
  { unfold invariant, init. cbn. split; [done|]. split; [done|]. intros ?. split; [lia|done]. }
  apply (invariant_run calls) in Hi. cbn [app] in Hi. fold self in Hi.
  assert (flush_size self = size) as Hsz.
  { subst self. clear Hi. generalize (init size) (eq_refl : flush_size (init size) = size).
    induction calls as [|c calls IH]; intros s Hs; [done|]. cbn [foldl].
    apply IH. by rewrite flush_size_run. }
  unfold invariant in Hi. by rewrite Hsz in Hi.
Qed.

End LogBufferFacts.

Module RunnerLogFacts.
Import Logs RunnerLogs.



Section Store.
Variable now : N.
Variable parse_datetime : string → parsed_datetime.


End Store.



End RunnerLogFacts.

Module RunnerAuthFacts.
Import RunnerAuth.

Lemma split_no_sep (sep : ascii) (s : string) :
  has_char sep s = false → split sep s = [s].
Proof.
  induction s as [|c s IH]; [done|]. cbn [has_char split].
  rewrite orb_false_iff. intros [Hc Hs]. rewrite Ascii.eqb_sym, Hc, (IH Hs). done.
Qed.

Lemma split_length (sep : ascii) (s : string) : (1 ≤ length (split sep s))%nat.
Proof.
  induction s as [|c s IH]; [cbn; lia|]. cbn [split].
  destruct (Ascii.eqb c sep); [cbn; lia|]. destruct (split sep s); cbn in *; lia.
Qed.

Lemma split_has_sep (sep : ascii) (s : string) :
  has_char sep s = true → (2 ≤ length (split sep s))%nat.
Proof.
  induction s as [|c s IH]; [done|]. cbn [has_char split]. rewrite Ascii.eqb_sym.
  destruct (Ascii.eqb c sep); cbn [orb].
  - intros _. pose proof (split_length sep s). cbn. lia.
  - intros H. specialize (IH H). destruct (split sep s); cbn in *; lia.
Qed.

Lemma split_token (tok : string) :
  split "=" ("token=" ++ tok) = "token" :: split "=" tok.
Proof. reflexivity. Qed.

Lemma has_char_app (c : ascii) (a b : string) :
  has_char c (a ++ b) = has_char c a || has_char c b.
Proof.
  induction a as [|x a IH]; [done|]. rewrite SignatureFacts.append_cons. cbn [has_char].
  by rewrite IH, orb_assoc.
Qed.

Lemma query_params_token (tok : string) :
  has_char "&" tok = false →
  query_params ("token=" ++ tok)
  = if has_char "=" tok then None else Some [("token", tok)].
Proof.
  intros Ha. unfold query_params. rewrite split_no_sep by (by rewrite has_char_app, Ha).
  cbn [List.filter]. rewrite has_char_app.
  change (has_char "=" "token=" ) with true. cbn [orb fmap list_fmap].
  rewrite split_token. destruct (has_char "=" tok) eqn:He.
  - pose proof (split_has_sep _ _ He) as Hl.
    destruct (split "=" tok) as [|a [|b l]]; cbn in Hl; try lia. done.
  - by rewrite split_no_sep.
Qed.

Section Auth.
Variable sha256_hexdigest : string → string.

(** For the query string [token=] followed by a text that holds an equals
    sign (and no ampersand), [authenticate] raises [ValueError]: the
    parameter splits in more than two parts. *)
Theorem authenticate_rejects_padded_token (runners : list Runner) (rid : N) (tok : string) :
  has_char "&" tok = false → has_char "=" tok = true →
  authenticate sha256_hexdigest runners rid ("token=" ++ tok) = AuthValueError.
Proof.
  intros Ha He. unfold authenticate. by rewrite query_params_token, He.
Qed.

Lemma urlsafe_no_char (c : ascii) (t : string) :
  urlsafe_char c = false → urlsafe t = true → has_char c t = false.
Proof.
  intros Hc. induction t as [|a t IH]; [done|]. cbn [urlsafe has_char].
  intros [Ha Ht]%andb_prop. rewrite (IH Ht), orb_false_r.
  apply Ascii.eqb_neq. by intros ->; rewrite Ha in Hc.
Qed.

(** A runner stored with the hash of a token that [generate_token] made
    is authenticated by the query string [token=] followed by that
    token. *)
Theorem generated_token_authenticates (runners : list Runner) (r : Runner) (t : string) :
  urlsafe t = true →
  r ∈ runners →
  token_hash r = (generate_token sha256_hexdigest t).2 →
  (∀ r', r' ∈ runners → runner_id r' = runner_id r → r' = r) →
  authenticate sha256_hexdigest runners (runner_id r)
    ("token=" ++ (generate_token sha256_hexdigest t).1)
  = Authenticated true (Some r).
Proof.
  intros Ht Hr Hh Hpk. unfold generate_token in *. cbn [fst snd] in *.
  unfold authenticate.
  assert (Hno : ∀ c, urlsafe_char c = false → has_char c ("mci_runner_" ++ t) = false).
  { intros c Hc. rewrite has_char_app, (urlsafe_no_char c t Hc Ht), orb_false_r.
    by apply urlsafe_no_char. }
  rewrite query_params_token by (by apply Hno).
  rewrite (Hno "="%char) by reflexivity.
  cbn [Py.assoc String.eqb Ascii.eqb Bool.eqb default from_option id].
  change (Py.assoc "token" [("token", "mci_runner_" ++ t)]) with (Some ("mci_runner_" ++ t)).
  cbn [default from_option id PyStr.falsy].
  change (PyStr.falsy ("mci_runner_" ++ t)) with false. cbn match.
  destruct (List.find _ runners) as [r'|] eqn:Hf.
  - apply find_some in Hf as [Hin [Hid _]%andb_prop]. apply N.eqb_eq in Hid.
    by rewrite (Hpk r' ltac:(by apply list_elem_of_In) Hid).
  - eapply find_none in Hf; [|by apply list_elem_of_In]. cbn in Hf.
    by rewrite N.eqb_refl, Hh, String.eqb_refl in Hf.
Qed.

End Auth.
End RunnerAuthFacts.

Module CycleFacts.
Import Py Parser JobGraph.

#[local] Instance key_eq_dec : EqDecision key.
Proof. solve_decision. Defined.

Lemma tc_first {A} (R : relation A) (x z : A) :
  tc R x z → ∃ y, R x y ∧ rtc R y z.
Proof.
  intros H. inversion H as [? ? Hxz|? y ? Hxy Hyz]; subst.
  - exists z. split; [done|]. constructor.
  - exists y. split; [done|]. by apply tc_rtc.
Qed.

Lemma has_cycle_S (n : nat) (jobs : list (key * value)) (k : key) (V R : list key) :
  has_cycle (S n) jobs k V R
  = deps_loop (has_cycle n jobs) k (needs_of (default (dict []) (lookup k jobs)))
      (k :: V) (k :: R).
Proof. reflexivity. Qed.

Lemma key_eqb_str (k x : key) : is_str k = true → key_eqb k x = true ↔ x = k.
Proof.
  destruct k as [| | |a]; try done. intros _. destruct x as [| | |b]; cbn; try done.
  rewrite String.eqb_eq. split; congruence.
Qed.

Lemma mem_str (k : key) (l : list key) : is_str k = true → mem k l = true ↔ k ∈ l.
Proof.
  intros Hk. unfold mem. rewrite existsb_exists. split.
  - intros (x & Hx & He). apply (key_eqb_str _ _ Hk) in He as ->. by apply list_elem_of_In.
  - intros H. exists k. split; [by apply list_elem_of_In|]. by apply key_eqb_str.
Qed.

Lemma mem_str_false (k : key) (l : list key) : is_str k = true → mem k l = false ↔ k ∉ l.
Proof. intros Hk. rewrite <- (mem_str k l Hk). by destruct (mem k l). Qed.

Lemma filter_remove_str (k : key) (R : list key) :
  is_str k = true → k ∉ R →
  List.filter (fun x => negb (key_eqb k x)) (k :: R) = R.
Proof.
  intros Hk Hn. cbn [List.filter].
  assert (key_eqb k k = true) as -> by by apply key_eqb_str. cbn [negb].
  induction R as [|x R IH]; [done|]. apply not_elem_of_cons in Hn as [Hx Hn].
  cbn [List.filter]. destruct (key_eqb k x) eqn:E.
  - apply (key_eqb_str _ _ Hk) in E. done.
  - cbn [negb]. by rewrite IH.
Qed.

Lemma filter_length_le {A} (f g : A → bool) (l : list A) :
  (∀ x, f x = true → g x = true) →
  (length (List.filter f l) ≤ length (List.filter g l))%nat.
Proof.
  intros H. induction l as [|x l IH]; [done|]. cbn [List.filter].
  destruct (f x) eqn:E; [rewrite (H x E); cbn; lia|]. destruct (g x); cbn; lia.
Qed.

Lemma filter_length_lt {A} (f g : A → bool) (l : list A) (k : A) :
  (∀ x, f x = true → g x = true) → k ∈ l → f k = false → g k = true →
  (length (List.filter f l) < length (List.filter g l))%nat.
Proof.
  intros H Hk Hf Hg. induction l as [|x l IH]; [by apply elem_of_nil in Hk|].
  pose proof (filter_length_le f g l H) as Hle.
  cbn [List.filter]. apply elem_of_cons in Hk as [<-|Hk].
  - rewrite Hf, Hg. cbn. lia.
  - specialize (IH Hk). destruct (f x) eqn:E; [rewrite (H x E); cbn; lia|].
    destruct (g x); cbn; lia.
Qed.

Section Graph.
Variable jobs : list (key * value).
Hypothesis Hstr : strings_only jobs = true.

Lemma lookup_str (k : key) (job : value) :
  lookup k jobs = Some job → k ∈ jobs.*1 ∧ forallb is_vstr (needs_of job) = true.
Proof.
  unfold strings_only in Hstr. induction jobs as [|[k' j] rest IH]; [done|].
  cbn [forallb fst snd] in Hstr. apply andb_prop in Hstr as [[Hk Hj]%andb_prop Hrest].
  cbn [lookup]. destruct (key_eqb k k') eqn:E.
  - intros [= <-]. split; [|done]. cbn. apply elem_of_cons. left.
    destruct k' as [| | |b]; try done. destruct k as [| | |a]; try done.
    cbn in E. apply String.eqb_eq in E. by subst.
  - intros H. destruct (IH Hrest H) as [? ?]. split; [|done]. cbn. apply elem_of_cons. by right.
Qed.

Lemma needs_str (k : key) :
  forallb is_vstr (needs_of (default (dict []) (lookup k jobs))) = true.
Proof.
  destruct (lookup k jobs) as [job|] eqn:E; [|done]. by apply lookup_str in E as [_ ?].
Qed.

Lemma depends_job_key (a b : key) : depends jobs a b → a ∈ jobs.*1.
Proof.
  unfold depends, succs. destruct (lookup a jobs) as [job|] eqn:E.
  - intros _. by apply lookup_str in E as [? _].
  - cbn. by intros ?%elem_of_nil.
Qed.

Lemma job_key_str (k : key) : k ∈ jobs.*1 → is_str k = true.
Proof.
  unfold strings_only in Hstr. rewrite forallb_forall in Hstr.
  intros ((k' & j) & -> & Hin)%list_elem_of_fmap.
  specialize (Hstr _ ltac:(by apply list_elem_of_In)). by apply andb_prop in Hstr as [? _].
Qed.

Lemma mem_mono (V V' : list key) (k : key) :
  (∀ x, x ∈ V → x ∈ V') → mem k V = true → mem k V' = true.
Proof.
  intros Hsub. unfold mem. rewrite !existsb_exists. intros (x & Hx & He).
  exists x. split; [|done]. by apply list_elem_of_In, Hsub, list_elem_of_In.
Qed.

Lemma unvisited_mono (V V' : list key) :
  (∀ x, x ∈ V → x ∈ V') → (length (unvisited jobs V') ≤ length (unvisited jobs V))%nat.
Proof.
  intros Hsub. unfold unvisited.
  apply (filter_length_le (λ k, negb (mem k V')) (λ k, negb (mem k V))).
  intros x. rewrite !negb_true_iff. intros E'. destruct (mem x V) eqn:E; [|done].
  by rewrite (mem_mono _ _ _ Hsub E) in E'.
Qed.

Lemma unvisited_lt (V V' : list key) (k : key) :
  (∀ x, x ∈ V → x ∈ V') → k ∈ jobs.*1 → k ∉ V → k ∈ V' →
  (length (unvisited jobs V') < length (unvisited jobs V))%nat.
Proof.
  intros Hsub Hk HkV HkV'.
  assert (Hk' : is_str k = true) by by apply job_key_str.
  unfold unvisited.
  apply (filter_length_lt (λ k, negb (mem k V')) (λ k, negb (mem k V)) _ k); [|done|..].
  - intros x. rewrite !negb_true_iff. intros E'. destruct (mem x V) eqn:E; [|done].
    by rewrite (mem_mono _ _ _ Hsub E) in E'.
  - apply negb_false_iff. by apply mem_str.
  - apply negb_true_iff. by apply mem_str_false.
Qed.

Lemma searched_push (k : key) (V R : list key) :
  k ∉ V → searched jobs V R → searched jobs (k :: V) (k :: R).
Proof.
  intros Hk (Hsub & Hcl & Hac). split; [|split].
  - intros x [->|Hx]%elem_of_cons; apply elem_of_cons; auto.
  - intros x y Hx Hn Hd. apply not_elem_of_cons in Hn as [Hne Hn].
    apply elem_of_cons in Hx as [->|Hx]; [done|].
    destruct (Hcl x y Hx Hn Hd) as [Hy Hy']. split; [apply elem_of_cons; by right|].
    apply not_elem_of_cons. split; [|done]. by intros ->.
  - intros x Hx Hn. apply not_elem_of_cons in Hn as [Hne Hn].
    apply elem_of_cons in Hx as [->|Hx]; [done|]. by apply Hac.
Qed.

Lemma closed_rtc (V R : list key) (x y : key) :
  searched jobs V R → x ∈ V → x ∉ R → rtc (depends jobs) x y → y ∈ V ∧ y ∉ R.
Proof.
  intros (_ & Hcl & _) Hx Hn Hr. induction Hr as [|x z y Hd Hr IH]; [done|].
  destruct (Hcl x z Hx Hn Hd) as [? ?]. by apply IH.
Qed.

Lemma searched_pop (k : key) (V1 R : list key) :
  k ∉ R → k ∈ V1 →
  searched jobs V1 (k :: R) →
  (∀ d, depends jobs k d → d ∈ V1 ∧ d ∉ k :: R) →
  searched jobs V1 R.
Proof.
  intros HkR HkV Hs Hdone. pose proof Hs as (Hsub & Hcl & Hac). split; [|split].
  - intros x Hx. apply Hsub, elem_of_cons. by right.
  - intros x y Hx Hn Hd. destruct (decide (x = k)) as [->|Hne].
    + destruct (Hdone y Hd) as [Hy Hy']. split; [done|].
      apply not_elem_of_cons in Hy' as [_ ?]. done.
    + destruct (Hcl x y Hx) as [Hy Hy']; [by apply not_elem_of_cons|done|].
      split; [done|]. by apply not_elem_of_cons in Hy' as [_ ?].
  - intros x Hx Hn. destruct (decide (x = k)) as [->|Hne].
    + intros Hc. apply tc_first in Hc as (y & Hd & Hr).
      destruct (Hdone y Hd) as [Hy Hy'].
      destruct (closed_rtc _ _ _ _ Hs Hy Hy' Hr) as [_ Hk]. apply Hk, elem_of_cons. by left.
    + apply Hac; [done|]. by apply not_elem_of_cons.
Qed.

Lemma deps_loop_ok (n : nat) (k : key) (R : list key) :
  is_str k = true → k ∉ R →
  (∀ d V R', is_str d = true → d ∉ V → searched jobs V R' →
     (length (unvisited jobs V) < n)%nat →
     (∀ x, x ∈ R' → rtc (depends jobs) x d) →
     call_ok jobs d V R' (has_cycle n jobs d V R')) →
  ∀ deps V1,
    forallb is_vstr deps = true →
    (∀ d, d ∈ omap key_of_value deps → depends jobs k d) →
    k ∈ V1 →
    searched jobs V1 (k :: R) →
    (∀ x, x ∈ k :: R → rtc (depends jobs) x k) →
    (deps ≠ [] → (length (unvisited jobs V1) < n)%nat) →
    match deps_loop (has_cycle n jobs) k deps V1 (k :: R) with
    | Raise _ => False
    | Return (true, _, _) => needs_cycle jobs
    | Return (false, V', R') =>
        R' = R ∧ (∀ x, x ∈ V1 → x ∈ V') ∧ searched jobs V' (k :: R)
        ∧ (∀ d, d ∈ omap key_of_value deps → d ∈ V' ∧ d ∉ k :: R)
    end.
Proof.
  intros Hk HkR IH deps. induction deps as [|dep rest IHd]; intros V1 Hv Hdep HkV Hs Hpath Hfuel.
  - cbn [deps_loop]. rewrite filter_remove_str by done. split; [done|]. split; [done|].
    split; [done|]. intros d Hd. by apply elem_of_nil in Hd.
  - cbn [forallb] in Hv. apply andb_prop in Hv as [Hv1 Hv].
    destruct dep as [| | |d| |]; try done. cbn [deps_loop key_of_value].
    change (omap key_of_value (VStr d :: rest)) with (KStr d :: omap key_of_value rest) in *.
    assert (Hkd : depends jobs k (KStr d)).
    { apply Hdep. apply elem_of_cons. by left. }
    assert (Hrest : ∀ d0, d0 ∈ omap key_of_value rest → depends jobs k d0).
    { intros d0 Hd0. apply Hdep. apply elem_of_cons. by right. }
    specialize (Hfuel ltac:(done)).
    destruct (mem (KStr d) V1) eqn:Hm; cbn [negb].
    + destruct (mem (KStr d) (k :: R)) eqn:Hr.
      * apply mem_str in Hr; [|done]. exists (KStr d).
        eapply tc_rtc_l; [by apply Hpath|]. by apply tc_once.
      * apply mem_str in Hm; [|done]. apply mem_str_false in Hr; [|done].
        specialize (IHd V1 Hv Hrest HkV Hs Hpath (λ _, Hfuel)).
        destruct (deps_loop _ _ rest V1 (k :: R)) as [[[[|] V'] R']|]; [done| |done].
        destruct IHd as (-> & Hsub & Hs' & Hdone). split; [done|]. split; [done|].
        split; [done|]. intros d0 [->|Hd0]%elem_of_cons; [|by apply Hdone].
        split; [by apply Hsub|done].
    + apply mem_str_false in Hm; [|done].
      assert (Hcall := IH (KStr d) V1 (k :: R) eq_refl Hm Hs Hfuel).
      specialize (Hcall ltac:(intros x Hx; eapply rtc_r; [by apply Hpath|done])).
      destruct (has_cycle n jobs (KStr d) V1 (k :: R)) as [[[[|] V2] R2]|]; [done| |done].
      destruct Hcall as (-> & Hsub2 & Hd2 & Hs2).
      assert (HdR : KStr d ∉ k :: R).
      { intros Hin. apply Hm. by apply (proj1 Hs). }
      specialize (IHd V2 Hv Hrest (Hsub2 _ HkV) Hs2 Hpath).
      specialize (IHd ltac:(intros _; pose proof (unvisited_mono _ _ Hsub2); lia)).
      destruct (deps_loop _ _ rest V2 (k :: R)) as [[[[|] V'] R']|]; [done| |done].
      destruct IHd as (-> & Hsub & Hs' & Hdone). split; [done|].
      split; [intros x Hx; by apply Hsub, Hsub2|].
      split; [done|]. intros d0 [->|Hd0]%elem_of_cons; [|by apply Hdone].
      split; [by apply Hsub|done].
Qed.

Lemma has_cycle_ok (n : nat) :
  ∀ k V R, is_str k = true → k ∉ V → searched jobs V R →
    (length (unvisited jobs V) < n)%nat →
    (∀ x, x ∈ R → rtc (depends jobs) x k) →
    call_ok jobs k V R (has_cycle n jobs k V R).
Proof.
  induction n as [|n IH]; intros k V R Hk HkV Hs Hfuel Hpath; [lia|].
  rewrite has_cycle_S.
  assert (HkR : k ∉ R) by (intros Hin; by apply HkV, (proj1 Hs)).
  pose proof (deps_loop_ok n k R Hk HkR IH
                (needs_of (default (dict []) (lookup k jobs))) (k :: V)) as Hl.
  specialize (Hl (needs_str k) ltac:(done) ltac:(apply elem_of_cons; by left)
                 (searched_push _ _ _ HkV Hs)).
  specialize (Hl ltac:(intros x [->|Hx]%elem_of_cons; [constructor|by apply Hpath])).
  assert (Hf : needs_of (default (dict []) (lookup k jobs)) ≠ []
               → (length (unvisited jobs (k :: V)) < n)%nat).
  { intros Hne. assert (k ∈ jobs.*1) as Hjk.
    { destruct (lookup k jobs) as [job|] eqn:E; [by apply lookup_str in E as [? _]|done]. }
    pose proof (unvisited_lt V (k :: V) k) as Hlt.
    specialize (Hlt ltac:(intros x Hx; apply elem_of_cons; by right) Hjk HkV
                    ltac:(apply elem_of_cons; by left)). lia. }
  specialize (Hl Hf).
  destruct (deps_loop _ _ _ _ _) as [[[[|] V'] R']|]; [done| |done].
  destruct Hl as (-> & Hsub & Hs' & Hdone). split; [done|].
  split; [intros x Hx; apply Hsub, elem_of_cons; by right|].
  split; [apply Hsub, elem_of_cons; by left|].
  apply (searched_pop k); [done|apply Hsub, elem_of_cons; by left|done|].
  intros d Hd. by apply Hdone.
Qed.

Variable recursion_limit : nat.
Hypothesis Hlimit : (length jobs < recursion_limit)%nat.

Lemma unvisited_le (V : list key) : (length (unvisited jobs V) ≤ length jobs)%nat.
Proof.
  unfold unvisited. rewrite <- (length_fmap fst jobs). generalize (jobs.*1). intros l.
  induction l as [|x l IH]; [done|]. cbn [List.filter]. destruct (negb _); cbn; lia.
Qed.

Lemma cycle_loop_ok (keys : list key) (es : list error) :
  ∀ V, (∀ k, k ∈ keys → k ∈ jobs.*1) → searched jobs V [] →
  ∃ es', cycle_loop recursion_limit jobs keys V [] es = Return (tt, es')
    ∧ (es' = (es ++ [CircularDependency])%list ∧ needs_cycle jobs
       ∨ es' = es ∧ ∃ V', searched jobs V' [] ∧ (∀ x, x ∈ V → x ∈ V')
                          ∧ ∀ k, k ∈ keys → k ∈ V').
Proof.
  induction keys as [|k keys IH]; intros V Hkeys Hs.
  - exists es. split; [done|]. right. split; [done|]. exists V. split; [done|].
    split; [done|]. intros k Hk. by apply elem_of_nil in Hk.
  - cbn [cycle_loop].
    assert (Hk : is_str k = true) by (apply job_key_str, Hkeys, elem_of_cons; by left).
    assert (Hrest : ∀ k, k ∈ keys → k ∈ jobs.*1).
    { intros x Hx. apply Hkeys, elem_of_cons. by right. }
    destruct (mem k V) eqn:Hm; cbn [negb].
    + apply mem_str in Hm; [|done]. destruct (IH V Hrest Hs) as (es' & -> & H).
      exists es'. split; [done|]. destruct H as [?|(-> & V' & Hs' & Hsub & Hall)]; [by left|].
      right. split; [done|]. exists V'. split; [done|]. split; [done|].
      intros x [->|Hx]%elem_of_cons; [by apply Hsub|by apply Hall].
    + apply mem_str_false in Hm; [|done].
      pose proof (has_cycle_ok recursion_limit k V [] Hk Hm Hs) as Hc.
      specialize (Hc ltac:(pose proof (unvisited_le V); lia)).
      specialize (Hc ltac:(intros x Hx; by apply elem_of_nil in Hx)).
      unfold mbind, M_bind, lift.
      destruct (has_cycle recursion_limit jobs k V []) as [[[[|] V1] R1]|]; [| |done].
      * exists (es ++ [CircularDependency])%list. split; [done|]. by left.
      * destruct Hc as (-> & Hsub & HkV & Hs1).
        destruct (IH V1 Hrest Hs1) as (es' & -> & H).
        exists es'. split; [done|]. destruct H as [?|(-> & V' & Hs' & Hsub' & Hall)]; [by left|].
        right. split; [done|]. exists V'. split; [done|].
        split; [intros x Hx; by apply Hsub', Hsub|].
        intros x [->|Hx]%elem_of_cons; [by apply Hsub'|by apply Hall].
Qed.

Lemma searched_all_no_cycle (V : list key) :
  searched jobs V [] → (∀ k, k ∈ jobs.*1 → k ∈ V) → ¬ needs_cycle jobs.
Proof.
  intros (_ & _ & Hac) Hall (k & Hc). apply (Hac k); [|by intros ?%elem_of_nil|done].
  apply Hall. apply tc_first in Hc as (y & Hd & _). by apply depends_job_key in Hd.
Qed.

Lemma check_circular_ok (es : list error) :
  ∃ es', _check_circular_dependencies recursion_limit jobs es = Return (tt, es')
    ∧ (needs_cycle jobs → es' = (es ++ [CircularDependency])%list)
    ∧ (¬ needs_cycle jobs → es' = es).
Proof.
  unfold _check_circular_dependencies.
  destruct (cycle_loop_ok jobs.*1 es [] ltac:(done)) as (es' & Hr & H).
  { split; [|split]; [intros x Hx|intros x y Hx|intros x Hx]; by apply elem_of_nil in Hx. }
  exists es'. split; [done|].
  destruct H as [[-> Hc]|(-> & V' & Hs & _ & Hall)].
  - split; [done|]. by intros Hn.
  - pose proof (searched_all_no_cycle V' Hs Hall) as Hn. split; [by intros Hc|done].
Qed.

End Graph.

(** With string job keys and needs, and room for one nested call per
    job, [_check_circular_dependencies] raises nothing, appends the one
    error [CircularDependency] when some job needs itself directly or
    through other jobs, and appends nothing otherwise. *)
Theorem circular_dependency_reported (recursion_limit : nat) (jobs : list (key * value))
    (es : list error) :
  strings_only jobs = true →
  (length jobs < recursion_limit)%nat →
  ∃ es', _check_circular_dependencies recursion_limit jobs es = Return (tt, es')
    ∧ (needs_cycle jobs → es' = (es ++ [CircularDependency])%list)
    ∧ (¬ needs_cycle jobs → es' = es).
Proof. intros Hs Hl. by apply check_circular_ok. Qed.

End CycleFacts.

Module ParserMore.
Import Py Parser JobGraph.


Lemma needs_loop_ok (keys : list key) (k : key) (needs : list value) (es : list error) :
  forallb is_vstr needs = true →
  ∃ ms, needs_loop keys k needs es = Return (tt, (es ++ ms)%list)
    ∧ ∀ e, e ∈ ms ↔ ∃ n, VStr n ∈ needs ∧ (KStr n ∉ keys) ∧ e = MissingDependency k (KStr n).
Proof.
  revert es. induction needs as [|dep rest IH]; intros es Hv.
  - exists []. rewrite app_nil_r. split; [done|]. intros e. split; [by intros ?%elem_of_nil|].
    intros (n & Hn & _). by apply elem_of_nil in Hn.
  - cbn [forallb] in Hv. apply andb_prop in Hv as [Hd Hv].
    destruct dep as [| | |n| |]; try done. cbn [needs_loop key_of_value].
    destruct (mem (KStr n) keys) eqn:Hm; cbn [negb].
    + destruct (IH es Hv) as (ms & Hr & Hms). exists ms.
      split; [exact Hr|]. intros e. rewrite Hms. split.
      * intros (n' & Hn' & Hk & ->). exists n'. split; [apply elem_of_cons; by right|done].
      * intros (n' & [[= ->]|Hn']%elem_of_cons & Hk & ->).
        -- apply CycleFacts.mem_str in Hm; done.
        -- by exists n'.
    + destruct (IH (es ++ [MissingDependency k (KStr n)])%list Hv) as (ms & Hr & Hms).
      exists (MissingDependency k (KStr n) :: ms). split.
      { unfold mbind, M_bind, append_error. cbn. rewrite Hr. f_equal. f_equal.
        by rewrite <- app_assoc. }
      apply CycleFacts.mem_str_false in Hm; [|done].
      intros e. rewrite elem_of_cons, Hms. split.
      * intros [->|(n' & Hn' & Hk & ->)].
        -- exists n. split; [apply elem_of_cons; by left|done].
        -- exists n'. split; [apply elem_of_cons; by right|done].
      * intros (n' & [[= ->]|Hn']%elem_of_cons & Hk & ->); [by left|].
        right. by exists n'.
Qed.

Lemma dependencies_loop_ok (jobs : list (key * value)) (es : list error) :
  strings_only jobs = true →
  ∃ missing,
    dependencies_loop jobs.*1 jobs es = Return (tt, (es ++ missing)%list)
    ∧ ∀ e, e ∈ missing ↔
           ∃ k job n, (k, job) ∈ jobs ∧ VStr n ∈ needs_of job ∧ (KStr n ∉ jobs.*1)
                      ∧ e = MissingDependency k (KStr n).
Proof.
  unfold strings_only. generalize (jobs.*1) as keys. intros keys. revert es.
  induction jobs as [|[k job] rest IH]; intros es Hs.
  - exists []. rewrite app_nil_r. split; [done|]. intros e. split; [by intros ?%elem_of_nil|].
    intros (k & job & n & H & _). by apply elem_of_nil in H.
  - cbn [forallb fst snd] in Hs. apply andb_prop in Hs as [[_ Hn]%andb_prop Hs].
    cbn [dependencies_loop].
    destruct (needs_loop_ok keys k (needs_of job) es Hn) as (ms & Hr & Hms).
    destruct (IH (es ++ ms)%list Hs) as (ms' & Hr' & Hms').
    exists (ms ++ ms')%list. split.
    { unfold mbind, M_bind. rewrite Hr, Hr'. by rewrite <- app_assoc. }
    intros e. rewrite elem_of_app, Hms, Hms'. split.
    + intros [(n & Hn' & Hk & ->)|(k' & job' & n & Hin & Hn' & Hk & ->)].
      * exists k, job, n. split; [apply elem_of_cons; by left|done].
      * exists k', job', n. split; [apply elem_of_cons; by right|done].
    + intros (k' & job' & n & [[= -> ->]|Hin]%elem_of_cons & Hn' & Hk & ->).
      * left. by exists n.
      * right. by exists k', job', n.
Qed.

(** With string job keys and needs, the first loop of
    [_validate_job_dependencies] raises nothing and appends exactly the
    errors for a job and a job it needs that is no job key. *)
Theorem missing_dependencies_reported (jobs : list (key * value)) (es : list error) :
  strings_only jobs = true →
  ∃ missing,
    dependencies_loop jobs.*1 jobs es = Return (tt, (es ++ missing)%list)
    ∧ ∀ e, e ∈ missing ↔
           ∃ k job n, (k, job) ∈ jobs ∧ VStr n ∈ needs_of job ∧ (KStr n ∉ jobs.*1)
                      ∧ e = MissingDependency k (KStr n).
Proof. apply dependencies_loop_ok. Qed.

Lemma mget_dict (d : list (key * value)) (k : string) (dflt : value) (es : list error) :
  mget (VDict d) k dflt es = Return (default dflt (lookup (KStr k) d), es).
Proof. reflexivity. Qed.

Lemma parse_step_ok (i : nat) (d : list (key * value)) (es : list error) :
  ∃ step es1, _parse_step i (VDict d) es = Return (step, (es ++ es1)%list)
    ∧ truthy step = true.
Proof.
  unfold _parse_step. unfold mbind, M_bind. rewrite !mget_dict.
  set (run := default (VStr "") (lookup (KStr "run") d)).
  set (uses := default (VStr "") (lookup (KStr "uses") d)).
  destruct (truthy run), (truthy uses); cbn; eexists _, _; split;
    try reflexivity; try (rewrite app_nil_r; reflexivity); try (by rewrite <- app_assoc).
  all: reflexivity.
Qed.

Lemma steps_loop_ok (l : list value) :
  forallb is_dict l = true →
  ∀ i steps es, ∃ steps' es1,
    steps_loop i l steps es = Return ((steps ++ steps')%list, (es ++ es1)%list)
    ∧ length steps' = length l.
Proof.
  induction l as [|c l IH]; intros Hd i steps es.
  - exists [], []. by rewrite !app_nil_r.
  - cbn [forallb] in Hd. apply andb_prop in Hd as [Hc Hd]. destruct c as [| | | | |d]; try done.
    cbn [steps_loop]. destruct (parse_step_ok i d es) as (step & es1 & Hr & Ht).
    unfold mbind, M_bind. rewrite Hr, Ht.
    destruct (IH Hd (S i) (steps ++ [step])%list (es ++ es1)%list) as (steps' & es2 & Hr' & Hl).
    exists (step :: steps'), (es1 ++ es2)%list. rewrite Hr'. split; [|by cbn; rewrite Hl].
    f_equal. f_equal; by rewrite <- app_assoc.
Qed.

(** [_parse_steps] on a list of mappings returns one parsed step for each
    of them: a step with neither [run] nor [uses], or with both, is
    reported and kept. *)
Theorem parse_steps_keeps_every_step (l : list value) (es : list error) :
  forallb is_dict l = true →
  ∃ steps es1,
    _parse_steps (VList l) es = Return (VList steps, (es ++ es1)%list)
    ∧ length steps = length l.
Proof.
  intros Hd. unfold _parse_steps. unfold mbind, M_bind, lift. cbn [iterate].
  destruct (steps_loop_ok l Hd 0 [] es) as (steps & es1 & Hr & Hl).
  rewrite Hr. by exists steps, es1.
Qed.

Lemma insert_keys {A} (k : key) (v : A) (t : list (key * A)) (x : key) :
  x ∈ (insert k v t).*1 → x ∈ t.*1 ∨ x = k.
Proof.
  induction t as [|[k' v'] t IH]; cbn [insert].
  - intros Hx. right. cbn in Hx. by apply list_elem_of_singleton in Hx.
  - destruct (key_eqb k k'); cbn [fmap list_fmap fst]; [by left|].
    intros [->|Hx]%elem_of_cons; [left; apply elem_of_cons; by left|].
    destruct (IH Hx) as [?|?]; [left; apply elem_of_cons; by right|by right].
Qed.

Lemma parse_present_keys (d : list (key * value)) (k : string) (parse : value → M value)
    (t t' : list (key * value)) (es es' : list error) (x : key) :
  parse_present d k parse t es = Return (t', es') →
  x ∈ t'.*1 → x ∈ t.*1 ∨ x = KStr k.
Proof.
  unfold parse_present. destruct (lookup (KStr k) d) as [v|].
  - unfold mbind, M_bind. destruct (parse v es) as [[r es1]|]; [|done].
    intros H. injection H as <- <-. apply insert_keys.
  - intros H. injection H as <- <-. by left.
Qed.

(** [_parse_triggers] on a mapping keeps only the triggers push,
    pull_request, schedule and workflow_dispatch: any other key is
    dropped. *)
Theorem parse_triggers_known_keys (d : list (key * value)) (es es' : list error)
    (triggers : value) :
  _parse_triggers (VDict d) es = Return (triggers, es') →
  ∃ t, triggers = VDict t
    ∧ ∀ k, k ∈ t.*1 →
           k ∈ [KStr "push"; KStr "pull_request"; KStr "schedule"; KStr "workflow_dispatch"].
Proof.
  unfold _parse_triggers. unfold mbind at 1 2 3 4, M_bind.
  destruct (parse_present d "push" _ [] es) as [[t1 es1]|] eqn:H1; [|done].
  destruct (parse_present d "pull_request" _ t1 es1) as [[t2 es2]|] eqn:H2; [|done].
  destruct (parse_present d "schedule" _ t2 es2) as [[t3 es3]|] eqn:H3; [|done].
  destruct (parse_present d "workflow_dispatch" _ t3 es3) as [[t4 es4]|] eqn:H4; [|done].
  intros H. injection H as <- <-. exists t4. split; [done|]. intros k Hk.
  rewrite !elem_of_cons.
  destruct (parse_present_keys _ _ _ _ _ _ _ k H4 Hk) as [Hk3| ->]; [|tauto].
  destruct (parse_present_keys _ _ _ _ _ _ _ k H3 Hk3) as [Hk2| ->]; [|tauto].
  destruct (parse_present_keys _ _ _ _ _ _ _ k H2 Hk2) as [Hk1| ->]; [|tauto].
  destruct (parse_present_keys _ _ _ _ _ _ _ k H1 Hk1) as [Hk0| ->]; [|tauto].
  by apply elem_of_nil in Hk0.
Qed.

End ParserMore.

Module ShapeFacts.
Import Py Parser JobGraph ParserShape.

Lemma returns_ret {A} (a : A) (Q : A → Prop) : Q a → returns (mret a) Q.
Proof. intros HQ es. by exists a, es. Qed.

Lemma returns_bind {A B} (m : M A) (f : A → M B) (Q : A → Prop) (Q' : B → Prop) :
  returns m Q → (∀ a, Q a → returns (f a) Q') → returns (m ≫= f) Q'.
Proof.
  intros Hm Hf es. destruct (Hm es) as (a & es1 & Hr & HQ).
  destruct (Hf a HQ es1) as (b & es2 & Hr' & HQ').
  exists b, es2. split; [|done]. unfold mbind, M_bind. by rewrite Hr.
Qed.

Lemma returns_weaken {A} (m : M A) (Q Q' : A → Prop) :
  returns m Q → (∀ a, Q a → Q' a) → returns m Q'.
Proof. intros Hm HQ es. destruct (Hm es) as (a & es' & ? & ?). exists a, es'. auto. Qed.

Lemma returns_mget (d : list (key * value)) (k : string) (dflt : value) :
  returns (mget (VDict d) k dflt) (fun v => v = get_or d k dflt).
Proof. intros es. by eexists _, _. Qed.

Lemma returns_append (e : error) : returns (append_error e) (fun _ => True).
Proof. intros es. by eexists _, _. Qed.

Lemma returns_lift {A} (r : result A) (a : A) : r = Return a → returns (lift r) (fun x => x = a).
Proof. intros -> es. by eexists _, _. Qed.

Lemma returns_if_error (b : bool) (e : error) :
  returns (if b then append_error e else mret tt) (fun _ => True).
Proof. destruct b; [apply returns_append|by apply returns_ret]. Qed.

(** A chain of [get] calls on a mapping ending in a returned value. *)
Ltac gets :=
  repeat (eapply returns_bind; [apply returns_mget|]; intros ? ->);
  try (by apply returns_ret).

Lemma parse_push_trigger_returns (v : value) :
  none_or_dict v = true → returns (_parse_push_trigger v) (fun _ => True).
Proof. destruct v as [| | | | |d]; try done; intros _; [by apply returns_ret|]. cbn. gets. Qed.

Lemma parse_pr_trigger_returns (v : value) :
  none_or_dict v = true → returns (_parse_pr_trigger v) (fun _ => True).
Proof. destruct v as [| | | | |d]; try done; intros _; [by apply returns_ret|]. cbn. gets. Qed.

Lemma schedule_loop_returns (l : list value) :
  forallb schedule_item_ok l = true →
  ∀ acc, returns (schedule_loop l acc) (fun _ => True).
Proof.
  induction l as [|item l IH]; intros Hl acc; [by apply returns_ret|].
  cbn [forallb] in Hl. apply andb_prop in Hl as [Hi Hl]. cbn [schedule_loop].
  destruct item as [| | | | |d]; try by apply IH.
  unfold schedule_item_ok, present_ok in Hi.
  destruct (lookup (KStr "cron") d) as [cron|]; [|by apply IH].
  destruct cron as [| | |s| |]; try done.
  eapply returns_bind; [by apply returns_lift|]. intros ? ->.
  destruct (_ || _); [by apply IH|].
  eapply returns_bind; [apply returns_append|]. intros _ _. by apply IH.
Qed.

Lemma parse_schedule_returns (v : value) :
  schedule_ok v = true → returns (_parse_schedule_trigger v) (fun _ => True).
Proof.
  destruct v as [| | | |l|]; try done. intros Hl. unfold _parse_schedule_trigger.
  eapply returns_bind; [by apply returns_lift|]. intros ? ->.
  eapply returns_bind; [by apply schedule_loop_returns|]. intros ? _. by apply returns_ret.
Qed.

Lemma inputs_loop_returns (its : list (key * value)) :
  forallb (fun kv => is_dict kv.2) its = true →
  ∀ acc, returns (inputs_loop its acc) (fun _ => True).
Proof.
  induction its as [|[name c] its IH]; intros Hl acc; [by apply returns_ret|].
  cbn [forallb snd] in Hl. apply andb_prop in Hl as [Hc Hl]. destruct c as [| | | | |d]; try done.
  cbn [inputs_loop]. gets. by apply IH.
Qed.

Lemma parse_workflow_dispatch_returns (v : value) :
  workflow_dispatch_ok v = true → returns (_parse_workflow_dispatch v) (fun _ => True).
Proof.
  destruct v as [| | | | |d]; try done; [intros _; by apply returns_ret|].
  cbn [workflow_dispatch_ok _parse_workflow_dispatch].
  destruct (get_or d "inputs" (dict [])) as [| | | | |inputs] eqn:E; try done. intros Hi.
  eapply returns_bind; [apply returns_mget|]. intros ? ->. rewrite E.
  eapply returns_bind; [by apply returns_lift|]. intros ? ->.
  eapply returns_bind; [by apply inputs_loop_returns|]. intros ? _. by apply returns_ret.
Qed.

Lemma parse_present_returns (d : list (key * value)) (k : string) (ok : value → bool)
    (parse : value → M value) (t : list (key * value)) :
  present_ok d k ok = true →
  (∀ v, ok v = true → returns (parse v) (fun _ => True)) →
  returns (parse_present d k parse t) (fun _ => True).
Proof.
  unfold present_ok, parse_present. destruct (lookup (KStr k) d) as [v|]; [|intros; by apply returns_ret].
  intros Hv Hp. eapply returns_bind; [by apply Hp|]. intros ? _. by apply returns_ret.
Qed.

Lemma trigger_comprehension_returns (l : list value) :
  forallb (fun t => bool_decide (is_Some (key_of_value t))) l = true →
  ∀ acc, ∃ d, trigger_comprehension l acc = Return d.
Proof.
  induction l as [|t l IH]; intros Hl acc; [by eexists|].
  cbn [forallb] in Hl. apply andb_prop in Hl as [Ht Hl].
  apply bool_decide_eq_true in Ht as [k Hk]. cbn [trigger_comprehension]. rewrite Hk. by apply IH.
Qed.

Lemma parse_triggers_returns (v : value) :
  on_ok v = true → returns (_parse_triggers v) (fun _ => True).
Proof.
  destruct v as [| | |s|l|d]; intros Hv; try by apply returns_ret.
  - cbn [_parse_triggers]. destruct (trigger_comprehension_returns l Hv []) as (d & ->).
    intros es. by eexists _, _.
  - cbn [on_ok] in Hv. apply andb_prop in Hv as [[[H1 H2]%andb_prop H3]%andb_prop H4].
    cbn [_parse_triggers].
    eapply returns_bind; [by eapply parse_present_returns, parse_push_trigger_returns|]. intros ? _.
    eapply returns_bind; [by eapply parse_present_returns, parse_pr_trigger_returns|]. intros ? _.
    eapply returns_bind; [by eapply parse_present_returns, parse_schedule_returns|]. intros ? _.
    eapply returns_bind; [by eapply parse_present_returns, parse_workflow_dispatch_returns|].
    intros ? _. by apply returns_ret.
Qed.

Lemma parse_concurrency_returns (v : value) :
  returns (_parse_concurrency v) (fun _ => True).
Proof. destruct v; try by apply returns_ret. Qed.

Lemma container_fields_returns (d : list (key * value)) :
  returns (container_fields (VDict d)) (fun _ => True).
Proof. unfold container_fields. gets. Qed.

Lemma parse_container_returns (v : value) :
  container_ok v = true → returns (_parse_container v) (fun _ => True).
Proof.
  destruct v; try done; intros _; by apply returns_ret.
Qed.

Lemma services_loop_returns (its : list (key * value)) :
  forallb (fun kv => is_dict kv.2) its = true →
  ∀ acc, returns (services_loop its acc) (fun _ => True).
Proof.
  induction its as [|[name c] its IH]; intros Hl acc; [by apply returns_ret|].
  cbn [forallb snd] in Hl. apply andb_prop in Hl as [Hc Hl]. destruct c as [| | | | |d]; try done.
  cbn [services_loop]. eapply returns_bind; [apply container_fields_returns|]. intros ? _.
  by apply IH.
Qed.

Lemma parse_services_returns (v : value) :
  services_ok v = true → returns (_parse_services v) (fun _ => True).
Proof.
  destruct v as [| | | | |d]; try done. intros Hd. unfold _parse_services.
  eapply returns_bind; [by apply returns_lift|]. intros ? ->.
  eapply returns_bind; [by apply services_loop_returns|]. intros ? _. by apply returns_ret.
Qed.

Lemma parse_steps_returns (v : value) :
  steps_ok v = true → returns (_parse_steps v) (fun _ => True).
Proof.
  destruct v as [| | | |l|]; try done. intros Hl es.
  destruct (ParserMore.steps_loop_ok l Hl 0 [] es) as (steps & es1 & Hr & _).
  unfold _parse_steps, mbind, M_bind, lift. cbn [iterate]. rewrite Hr. by eexists _, _.
Qed.

Lemma parse_strategy_returns (v : value) :
  strategy_ok v = true → returns (_parse_strategy v) (fun _ => True).
Proof.
  unfold strategy_ok, _parse_strategy. destruct (truthy v) eqn:Ht; cbn [negb orb];
    [|intros _; by apply returns_ret].
  destruct v as [| | | | |d]; try done. cbn zeta. intros Hm.
  eapply returns_bind; [apply returns_mget|]. intros ? ->.
  eapply returns_bind; [apply returns_mget|]. intros ? ->.
  eapply returns_bind; [apply returns_mget|]. intros ? ->.
  destruct (truthy (get_or d "matrix" (dict []))) eqn:Hm'; cbn [negb orb] in Hm;
    [|by apply returns_ret].
  destruct (get_or d "matrix" (dict [])) as [| | | | |m]; try done.
  eapply returns_bind; [apply returns_mget|]. intros ? ->.
  eapply returns_bind; [apply returns_mget|]. intros ? ->.
  eapply returns_bind; [by apply returns_lift|]. intros ? ->. by apply returns_ret.
Qed.

Lemma normalize_list_needs (n : value) :
  needs_ok n = true →
  match _normalize_list n with
  | VList l => forallb is_vstr l = true
  | _ => False
  end.
Proof. by destruct n. Qed.

Lemma parse_job_returns (job_key : string) (config : value) :
  job_ok config = true →
  returns (_parse_job job_key config)
          (fun job => forallb is_vstr (needs_of job) = true).
Proof.
  destruct config as [| | | | |d]; try done. cbn [job_ok].
  intros [[[[Hc Hs]%andb_prop Hst]%andb_prop Hsg]%andb_prop Hn]%andb_prop.
  unfold _parse_job.
  eapply returns_bind; [apply returns_mget|]. intros ? ->.
  eapply returns_bind.
  { eapply returns_bind; [apply returns_mget|]. intros ? ->.
    by apply (returns_ret _ (fun _ => True)). }
  intros runs_on _.
  eapply returns_bind.
  { eapply returns_bind; [apply returns_mget|]. intros ? ->.
    apply (returns_ret _ (fun needs => needs = _normalize_list (get_or d "needs" (VList [])))).
    done. }
  intros needs ->.
  eapply returns_bind; [apply returns_mget|]. intros ? ->.
  eapply returns_bind.
  { eapply returns_bind; [apply returns_mget|]. intros ? ->. by apply parse_container_returns. }
  intros container _.
  eapply returns_bind.
  { eapply returns_bind; [apply returns_mget|]. intros ? ->. by apply parse_services_returns. }
  intros services _.
  eapply returns_bind; [apply returns_mget|]. intros ? ->.
  eapply returns_bind.
  { eapply returns_bind; [apply returns_mget|]. intros ? ->. by apply parse_steps_returns. }
  intros steps _.
  eapply returns_bind.
  { eapply returns_bind; [apply returns_mget|]. intros ? ->. by apply parse_strategy_returns. }
  intros strategy _.
  eapply returns_bind; [apply returns_mget|]. intros ? ->.
  eapply returns_bind; [apply returns_mget|]. intros ? ->.
  eapply returns_bind; [apply returns_if_error|]. intros _ _.
  eapply returns_bind; [apply returns_if_error|]. intros _ _.
  apply returns_ret.
  pose proof (normalize_list_needs _ Hn) as Hl.
  destruct (_normalize_list (get_or d "needs" (VList []))) as [| | | |l|] eqn:E; try done.
Qed.

Lemma strings_only_insert (k : string) (job : value) (jobs : list (key * value)) :
  forallb is_vstr (needs_of job) = true →
  strings_only jobs = true →
  strings_only (insert (KStr k) job jobs) = true
  ∧ (length (insert (KStr k) job jobs) ≤ S (length jobs))%nat.
Proof.
  intros Hj. unfold strings_only. induction jobs as [|[k' j'] jobs IH]; cbn [insert forallb].
  - intros _. cbn. rewrite Hj. split; [done|lia].
  - intros [[Hk' Hj']%andb_prop Hrest]%andb_prop. cbn [fst snd] in *.
    destruct (key_eqb (KStr k) k'); cbn [forallb fst snd length].
    + rewrite Hk', Hj, Hrest. split; [done|lia].
    + destruct (IH Hrest) as [-> Hlen]. rewrite Hk', Hj'. split; [done|lia].
Qed.

Lemma jobs_loop_returns (its : list (key * value)) :
  forallb (fun kj => is_str kj.1 && job_ok kj.2) its = true →
  ∀ jobs, strings_only jobs = true →
  returns (jobs_loop its jobs)
          (fun jobs' => strings_only jobs' = true
                        ∧ (length jobs' ≤ length jobs + length its)%nat).
Proof.
  induction its as [|[k c] its IH]; intros Hl jobs Hs.
  - apply returns_ret. split; [done|]. cbn. lia.
  - cbn [forallb fst snd] in Hl. apply andb_prop in Hl as [[Hk Hc]%andb_prop Hl].
    destruct k as [| | |k]; try done. cbn [jobs_loop].
    assert (∃ b, _validate_job_key (KStr k) = Return b) as [b Hb].
    { unfold _validate_job_key. destruct k; by eexists. }
    eapply returns_bind; [by apply returns_lift|]. intros ? ->.
    destruct b.
    + eapply returns_bind; [by apply parse_job_returns|]. intros job Hjob.
      destruct (strings_only_insert k job jobs Hjob Hs) as [Hs' Hlen].
      eapply returns_weaken; [by apply IH|]. intros jobs' [? ?]. split; [done|]. cbn. lia.
    + eapply returns_bind; [apply returns_append|]. intros _ _.
      eapply returns_weaken; [by apply IH|]. intros jobs' [? ?]. split; [done|]. cbn. lia.
Qed.

Section Recursion.
Variable recursion_limit : nat.

Lemma validate_job_dependencies_returns (jobs : list (key * value)) :
  strings_only jobs = true → (length jobs < recursion_limit)%nat →
  returns (_validate_job_dependencies recursion_limit jobs) (fun _ => True).
Proof.
  intros Hs Hl es. unfold _validate_job_dependencies, mbind, M_bind.
  destruct (ParserMore.dependencies_loop_ok jobs es Hs) as (ms & -> & _).
  destruct (CycleFacts.check_circular_ok jobs Hs recursion_limit Hl (es ++ ms)%list)
    as (es' & -> & _).
  by eexists _, _.
Qed.

Lemma parse_jobs_returns (v : value) :
  jobs_ok v = true →
  (match v with VDict jobs => length jobs | _ => 0 end < recursion_limit)%nat →
  returns (_parse_jobs recursion_limit v) (fun _ => True).
Proof.
  unfold jobs_ok, _parse_jobs. destruct (truthy v) eqn:Ht; cbn [negb orb];
    [|intros _ _; by apply returns_ret].
  destruct v as [| | | | |its]; try done. intros Hok Hlen.
  eapply returns_bind; [by apply returns_lift|]. intros ? ->.
  eapply returns_bind; [by apply (jobs_loop_returns its Hok [])|]. intros jobs [Hs Hl].
  eapply returns_bind; [apply validate_job_dependencies_returns; [done|cbn in Hl; lia]|].
  intros _ _. by apply returns_ret.
Qed.

(** [parse] returns a configuration and an error list, raising nothing,
    on every document of the expected shape with fewer jobs than the
    nested calls that the interpreter allows. *)
Theorem parse_returns_on_well_shaped (raw_config : value) :
  well_shaped raw_config = true →
  (job_count raw_config < recursion_limit)%nat →
  ∃ config errors, parse recursion_limit (Loaded raw_config) = Return (config, errors).
Proof.
  intros Hw Hc. destruct raw_config as [| | | | |d]; try by eexists _, _.
  cbn [well_shaped] in Hw. apply andb_prop in Hw as [Hon Hjobs]. cbn [job_count] in Hc.
  cbn [parse].
  assert (returns (_parse_config recursion_limit (VDict d)) (fun _ => True)) as Hr.
  { unfold _parse_config.
    eapply returns_bind; [apply returns_mget|]. intros ? ->.
    eapply returns_bind.
    { eapply returns_bind; [apply returns_mget|]. intros ? ->. by apply parse_triggers_returns. }
    intros on _.
    eapply returns_bind; [apply returns_mget|]. intros ? ->.
    eapply returns_bind; [apply returns_mget|]. intros ? ->.
    eapply returns_bind.
    { eapply returns_bind; [apply returns_mget|]. intros ? ->. apply parse_concurrency_returns. }
    intros concurrency _.
    eapply returns_bind.
    { eapply returns_bind; [apply returns_mget|]. intros ? ->. by apply parse_jobs_returns. }
    intros jobs _.
    eapply returns_bind; [apply returns_if_error|]. intros _ _. by apply returns_ret. }
  destruct (Hr []) as (config & errors & -> & _). by exists config, errors.
Qed.

End Recursion.
End ShapeFacts.

(** ** The theorems at concrete inputs *)

Module Scenarios.
Import Py ScenarioData.

Lemma matches_pull_request_spec_witness :
  MatchingSpec.pull_request_typed MatchingSpec.release_triggers = true
  ∧ ∃ b,
      Matching.matches_pull_request MatchingSpec.release_triggers
        (MatchingSpec.pr_of "opened" "release/1") = Return b
      ∧ (b = true ↔
         ∃ d, MatchingSpec.trigger_filters "pull_request" MatchingSpec.release_triggers = Some d
           ∧ "opened" ∈ MatchingSpec.pr_types d
           ∧ MatcherSpec.ref_matches "release/1" (MatchingSpec.patterns d "branches_ignore")
             = false
           ∧ (MatchingSpec.patterns d "branches" = []
              ∨ MatcherSpec.ref_matches "release/1" (MatchingSpec.patterns d "branches")
                = true)).
Proof.
  split; [reflexivity|].
  apply (PullRequestFacts.matches_pull_request_spec MatchingSpec.release_triggers
           (MatchingSpec.pr_of "opened" "release/1")).
  reflexivity.
Defined.

Lemma path_pattern_literal_witness :
  PathGlob.wildcard_free "src" = true
  ∧ Matcher._matches_path_pattern "src/a.py" "src" = Some false.
Proof.
  split; [reflexivity|].
  exact (PathFacts.path_pattern_literal "src/a.py" "src" eq_refl).
Defined.

Lemma path_pattern_prefix_star_witness :
  PathGlob.wildcard_free "src/" = true
  ∧ Matcher._matches_path_pattern "src/a/b.py" "src/*" = Some true.
Proof.
  split; [reflexivity|].
  exact (PathFacts.path_pattern_prefix_star "src/" "a/b.py" eq_refl).
Defined.

Lemma matrix_combinations_assign_witness :
  [("os", VStr "ubuntu"); ("node", VInt 18)] ∈ Matrix.expand_matrix py_eq Matrix.s4_strategy
  ∧ ([("os", VStr "ubuntu"); ("node", VInt 18)] ∈ Matrix.strategy_include Matrix.s4_strategy
     ∨ MatrixSpec.assigns [("os", VStr "ubuntu"); ("node", VInt 18)]
         (Matrix.strategy_variables Matrix.s4_strategy)).
Proof.
  assert (H : [("os", VStr "ubuntu"); ("node", VInt 18)]
              ∈ Matrix.expand_matrix py_eq Matrix.s4_strategy).
  { rewrite MatrixFacts.expand_matrix_s4. apply elem_of_cons. by left. }
  split; [exact H|]. exact (MatrixMore.matrix_combinations_assign py_eq _ _ H).
Defined.

Lemma exclude_undeclared_key_drops_nothing_witness :
  Matrix.kept_base py_eq undeclared_exclude
  = [[("os", VStr "ubuntu")]; [("os", VStr "macos")]].
Proof.
  apply (MatrixMore.exclude_undeclared_key_drops_nothing py_eq undeclared_exclude).
  intros entry Hin. apply list_elem_of_singleton in Hin as ->.
  exists "arch", (VStr "arm"). split; [apply elem_of_cons; by left|].
  intros Hin. apply list_elem_of_singleton in Hin. discriminate Hin.
Defined.

Lemma matrix_base_vanishes_witness :
  Matrix.expand_matrix py_eq empty_exclude = [[("os", VStr "windows")]].
Proof.
  apply (MatrixMore.matrix_base_vanishes py_eq empty_exclude).
  left. apply elem_of_cons. by left.
Defined.

Lemma verify_for_pipelines_closed_form_witness :
  PyStr.isascii "sha256=7362" = true
  ∧ WebhookAuth._verify_signature_for_pipelines Signature.toy_hmac "" [Byte.x62] "sha256=7362"
      [WebhookAuth.open_pipeline; WebhookAuth.signed_pipeline]
    = Return (Some WebhookAuth.signed_pipeline).
Proof.
  split; [reflexivity|].
  exact (AuthFacts.verify_for_pipelines_closed_form Signature.toy_hmac "" [Byte.x62]
           "sha256=7362" [WebhookAuth.open_pipeline; WebhookAuth.signed_pipeline] eq_refl).
Defined.

Lemma verified_pipeline_sound_witness :
  WebhookAuth._verify_signature_for_pipelines Signature.toy_hmac "" [Byte.x62] "sha256=7362"
      [WebhookAuth.open_pipeline; WebhookAuth.signed_pipeline]
    = Return (Some WebhookAuth.signed_pipeline)
  ∧ WebhookAuth.signed_pipeline ∈ [WebhookAuth.open_pipeline; WebhookAuth.signed_pipeline].
Proof.
  assert (H : WebhookAuth._verify_signature_for_pipelines Signature.toy_hmac "" [Byte.x62]
                "sha256=7362" [WebhookAuth.open_pipeline; WebhookAuth.signed_pipeline]
              = Return (Some WebhookAuth.signed_pipeline)) by reflexivity.
  split; [exact H|].
  exact (proj1 (AuthFacts.verified_pipeline_sound _ _ _ _ _ _ H)).
Defined.

Lemma unsigned_delivery_rejected_witness :
  WebhookAuth._verify_signature_for_pipelines Signature.toy_hmac "" [Byte.x62] ""
      [WebhookAuth.open_pipeline; WebhookAuth.signed_pipeline]
    = Return None.
Proof.
  apply (AuthFacts.unsigned_delivery_rejected Signature.toy_hmac "" [Byte.x62] ""
           [WebhookAuth.open_pipeline; WebhookAuth.signed_pipeline]); [reflexivity|].
  exists WebhookAuth.signed_pipeline. split; [|discriminate].
  apply elem_of_cons. right. apply elem_of_cons. by left.
Defined.

Lemma dense_main_db :
  ExecutionViews.dense (WebhookView.executions WebhookView.main_db) 7.
Proof. unfold ExecutionViews.dense. reflexivity. Defined.

Lemma retry_keeps_dense_witness :
  ∃ new,
    Executions.retry (WebhookView.executions WebhookView.main_db)
      (Executions.row 100 1 "failed") 5 "ana" 103
    = Return ((WebhookView.executions WebhookView.main_db ++ [new])%list,
              Executions.Retry201 103 (Executions.number new))
    ∧ Executions.number new = 3%N.
Proof.
  destruct (ExecutionViewFacts.retry_keeps_dense
              (WebhookView.executions WebhookView.main_db)
              (Executions.row 100 1 "failed") 5 "ana" 103 dense_main_db eq_refl)
    as (new & Hr & _ & Hn & _).
  exists new. split; [exact Hr|]. exact Hn.
Defined.

Lemma trigger_keeps_dense_witness :
  ∃ new d',
    PipelineViews.trigger 9 WebhookView.main_db WebhookView.main_pipeline 1 5 "ana" "main"
      (VDict []) (VDict []) 103
    = WebhookView.Done (PipelineViews.Trigger201 103 (Executions.number new) "pending") d'
    ∧ Executions.number new = 3%N.
Proof.
  destruct (PipelineViewFacts.trigger_keeps_dense 9 WebhookView.main_db
              WebhookView.main_pipeline 1 5 "ana" "main" (VDict []) (VDict []) 103
              WebhookView.main_config eq_refl dense_main_db)
    as (new & d' & Hr & _ & _ & _ & _ & Hn & _).
  exists new, d'. split; [exact Hr|]. exact Hn.
Defined.

Lemma update_config_latest_witness :
  ∃ c d',
    PipelineViews.update_config toy_parse WebhookView.main_db WebhookView.main_pipeline
      (Some "jobs: {}") 31
    = WebhookView.Done (PipelineViews.Update201 c) d'
    ∧ WebhookView.get_latest_config d' WebhookView.main_pipeline
      = if WebhookView.is_valid c then Some c
        else WebhookView.get_latest_config WebhookView.main_db WebhookView.main_pipeline.
Proof.
  destruct (PipelineViewFacts.update_config_latest toy_parse WebhookView.main_db
              WebhookView.main_pipeline "jobs: {}" 31
              (WebhookView.parsed_config WebhookView.main_config) []
              ltac:(discriminate) eq_refl)
    as (c & d' & Hr & _ & _ & _ & _ & _ & Hl).
  exists c, d'. split; [exact Hr|exact Hl].
Defined.

Lemma other_tenant_gets_nothing_witness :
  Logs.session Logs.long_log outsider [] = None.
Proof.
  apply (LogMore.other_tenant_gets_nothing Logs.long_log outsider [] outsider_user 2);
    [reflexivity|reflexivity|].
  intros e He _. apply list_elem_of_singleton in He as ->. discriminate.
Defined.

Lemma backlog_complete_below_limit_witness :
  ∃ frames j,
    Logs.session short_log Logs.viewer [] = Some frames
    ∧ Logs.Log j 1 5 "hello" "info" ∈ frames.
Proof.
  apply (LogMore.backlog_complete_below_limit short_log Logs.viewer [] only_chunk only_step).
  - reflexivity.
  - vm_compute. lia.
  - apply elem_of_cons. by left.
  - apply elem_of_cons. by left.
  - reflexivity.
  - exists {| Logs.job_id := 1; Logs.job_execution := 1 |}.
    split; [apply elem_of_cons; by left|]. split; reflexivity.
Defined.

Lemma authenticate_rejects_padded_token_witness :
  RunnerAuth.authenticate toy_sha [registered_runner] 4 "token=YWJj=="
  = RunnerAuth.AuthValueError.
Proof.
  apply (RunnerAuthFacts.authenticate_rejects_padded_token toy_sha [registered_runner] 4
           "YWJj=="); reflexivity.
Defined.

Lemma generated_token_authenticates_witness :
  RunnerAuth.authenticate toy_sha [registered_runner] 4 "token=mci_runner_abc"
  = RunnerAuth.Authenticated true (Some registered_runner).
Proof.
  apply (RunnerAuthFacts.generated_token_authenticates toy_sha [registered_runner]
           registered_runner "abc"); [reflexivity| |reflexivity|].
  - apply elem_of_cons. by left.
  - intros r' Hr' _. by apply list_elem_of_singleton in Hr'.
Defined.

Lemma circular_dependency_reported_witness :
  ∃ es', Parser._check_circular_dependencies 10 JobGraph.two_cycle [] = Return (tt, es')
    ∧ (JobGraph.needs_cycle JobGraph.two_cycle → es' = [Parser.CircularDependency])
    ∧ (¬ JobGraph.needs_cycle JobGraph.two_cycle → es' = []).
Proof.
  apply (CycleFacts.circular_dependency_reported 10 JobGraph.two_cycle []);
    [reflexivity|cbn; lia].
Defined.

Lemma missing_dependencies_reported_witness :
  ∃ missing,
    Parser.dependencies_loop JobGraph.two_chain.*1 JobGraph.two_chain []
    = Return (tt, ([] ++ missing)%list)
    ∧ ∀ e, e ∈ missing ↔
           ∃ k job n, (k, job) ∈ JobGraph.two_chain ∧ VStr n ∈ Parser.needs_of job
                      ∧ (KStr n ∉ JobGraph.two_chain.*1)
                      ∧ e = Parser.MissingDependency k (KStr n).
Proof.
  apply (ParserMore.missing_dependencies_reported JobGraph.two_chain []). reflexivity.
Defined.

Lemma parse_triggers_known_keys_witness :
  ∃ t, VDict [(KStr "push", VDict [])] = VDict t
    ∧ ∀ k, k ∈ t.*1 →
           k ∈ [KStr "push"; KStr "pull_request"; KStr "schedule"; KStr "workflow_dispatch"].
Proof.
  apply (ParserMore.parse_triggers_known_keys
           [(KStr "push", VNone); (KStr "webhook", VBool true)] [] []).
  reflexivity.
Defined.

Lemma parse_steps_keeps_every_step_witness :
  ∃ steps es1,
    Parser._parse_steps (VList [VDict []]) [] = Return (VList steps, ([] ++ es1)%list)
    ∧ length steps = 1%nat.
Proof.
  apply (ParserMore.parse_steps_keeps_every_step [VDict []] []). reflexivity.
Defined.

Lemma parse_returns_on_well_shaped_witness :
  ∃ config errors,
    Parser.parse 1000 (Parser.Loaded Parser.small_pipeline) = Return (config, errors).
Proof.
  apply (ShapeFacts.parse_returns_on_well_shaped 1000 Parser.small_pipeline);
    [reflexivity|cbn; lia].
Defined.

End Scenarios.
